(** * GitHub Workflow Updater: reference extraction, version resolution, rewriting

    A shallow embedding of [src/workflowParser.ts], [src/githubApi.ts] and the
    update loop of [src/extension.ts], with the properties of the pinning
    engine stated over it.

    Strings.  A JavaScript string is a sequence of UTF-16 code units; here a
    string is a [string] of 8-bit characters, read as the code units below
    256.  [String.length] is JavaScript's [.length]. *)

From Stdlib Require Import ZArith Ascii String Bool Lia.
From Stdlib Require Import Sorting.Sorted.
From stdpp Require Import base list strings.

(* ===================================================================== *)
(** * JavaScript string and regular-expression primitives                *)
(* ===================================================================== *)

Module Js.

(** Code unit of a character. *)
Definition code (c : ascii) : nat := nat_of_ascii c.

(** [\s]: ECMAScript WhiteSpace and LineTerminator, below 256: TAB, LF, VT,
    FF, CR, SPACE, NBSP. *)
Definition isWhiteSpace (c : ascii) : bool :=
  let n := code c in
  ((9 <=? n) && (n <=? 13)) || (n =? 32) || (n =? 160).

(** The characters [.] refuses (no [s] flag): LF and CR. *)
Definition isLineTerminator (c : ascii) : bool :=
  let n := code c in (n =? 10) || (n =? 13).

(** [\d] *)
Definition isDigit (c : ascii) : bool :=
  let n := code c in (48 <=? n) && (n <=? 57).

(** [\w]: [A-Za-z0-9_] *)
Definition isWordChar (c : ascii) : bool :=
  let n := code c in
  ((65 <=? n) && (n <=? 90)) || ((97 <=? n) && (n <=? 122)) || isDigit c || (n =? 95).

(** Canonicalize of the [i] flag (no [u] flag): the upper-case mapping.  A
    code unit of 128 or more never canonicalizes to an ASCII character, so
    against the ASCII patterns of this program only [a-z] matters. *)
Definition canonicalize (c : ascii) : ascii :=
  let n := code c in
  if (97 <=? n) && (n <=? 122) then ascii_of_nat (n - 32) else c.

(** One pattern character against one input character under the [i] flag. *)
Definition charEqCI (p c : ascii) : bool :=
  Ascii.eqb (canonicalize p) (canonicalize c).

(** Every character of [s] satisfies [p]. *)
Fixpoint all (p : ascii -> bool) (s : string) : bool :=
  match s with
  | EmptyString => true
  | String c s' => p c && all p s'
  end.

(** A greedy character class at the start of [s]: the longest prefix
    whose characters satisfy [p], and what follows it. *)
Fixpoint span (p : ascii -> bool) (s : string) : string * string :=
  match s with
  | EmptyString => (EmptyString, EmptyString)
  | String c s' =>
      if p c then let '(a, b) := span p s' in (String c a, b)
      else (EmptyString, s)
  end.

(** A greedy class that must take at least one character. *)
Definition plus (p : ascii -> bool) (s : string) : option (string * string) :=
  match span p s with
  | (EmptyString, _) => None
  | r => Some r
  end.

(** [s.startsWith(p)], and the rest of [s] after a literal prefix [p]. *)
Fixpoint stripPrefix (p s : string) : option string :=
  match p, s with
  | EmptyString, _ => Some s
  | String a p', String b s' => if Ascii.eqb a b then stripPrefix p' s' else None
  | String _ _, EmptyString => None
  end.

Definition startsWith (p s : string) : bool :=
  match stripPrefix p s with Some _ => true | None => false end.

(** The same under the [i] flag. *)
Fixpoint stripPrefixCI (p s : string) : option string :=
  match p, s with
  | EmptyString, _ => Some s
  | String a p', String b s' => if charEqCI a b then stripPrefixCI p' s' else None
  | String _ _, EmptyString => None
  end.

(** [s.includes(p)] *)
Fixpoint includes (p s : string) : bool :=
  startsWith p s ||
  match s with
  | EmptyString => false
  | String _ s' => includes p s'
  end.

(** [/p/i.test(s)] for a literal pattern [p]. *)
Fixpoint testCI (p s : string) : bool :=
  (match stripPrefixCI p s with Some _ => true | None => false end) ||
  match s with
  | EmptyString => false
  | String _ s' => testCI p s'
  end.

(** [s.trim()] *)
Fixpoint trimStart (s : string) : string :=
  match s with
  | EmptyString => EmptyString
  | String c s' => if isWhiteSpace c then trimStart s' else s
  end.

Fixpoint trimEnd (s : string) : string :=
  match s with
  | EmptyString => EmptyString
  | String c s' =>
      match trimEnd s' with
      | EmptyString => if isWhiteSpace c then EmptyString else String c EmptyString
      | t => String c t
      end
  end.

Definition trim (s : string) : string := trimEnd (trimStart s).

(** [s.split(sep)] for a one-character separator: never the empty list. *)
Fixpoint split (sep : ascii) (s : string) : list string :=
  match s with
  | EmptyString => [EmptyString]
  | String c s' =>
      if Ascii.eqb c sep then EmptyString :: split sep s'
      else match split sep s' with
           | l :: ls => String c l :: ls
           | [] => [String c EmptyString]
           end
  end.

(** [lines.join(sep)] *)
Fixpoint join (sep : string) (l : list string) : string :=
  match l with
  | [] => EmptyString
  | [x] => x
  | x :: l' => x +:+ sep +:+ join sep l'
  end.

(** [array.sort(cmp)]: the comparator returns a number, of which only the sign
    is read.  ECMAScript requires the sort to be stable; for a consistent
    comparator the result is the one stable sorted arrangement, computed here
    by insertion from the right. *)
Section Sort.
Context {A : Type} (cmp : A -> A -> Z).

Fixpoint insertSorted (x : A) (l : list A) : list A :=
  match l with
  | [] => [x]
  | y :: l' => if (cmp x y <=? 0)%Z then x :: l else y :: insertSorted x l'
  end.

Fixpoint sort (l : list A) : list A :=
  match l with
  | [] => []
  | x :: l' => insertSorted x (sort l')
  end.
End Sort.

End Js.

(** Errors thrown and caught: a computation returns or throws a message. *)
Inductive Result (A : Type) : Type :=
  | Return (a : A)
  | Throw (msg : string).
Arguments Return {A} a.
Arguments Throw {A} msg.

#[global] Instance Result_ret : MRet Result := fun _ a => Return a.
#[global] Instance Result_bind : MBind Result := fun _ _ k m =>
  match m with
  | Return a => k a
  | Throw e => Throw e
  end.

(** [try { m } catch { h }] *)
Definition tryCatch {A : Type} (m : Result A) (h : string -> Result A) : Result A :=
  match m with
  | Return a => Return a
  | Throw e => h e
  end.

(* ===================================================================== *)
(** * workflowParser.ts                                                   *)
(* ===================================================================== *)

(** [interface WorkflowAction] *)
Module WorkflowAction.
Record t : Type := mk {
  line : nat;
  original : string;
  repository : string;
  fullPath : string;
  currentRef : string;
  currentComment : string;
  hasSkipPinning : bool;
  indentation : string
}.
End WorkflowAction.

(** [interface UpdateResult] *)
Module UpdateResult.
Record t : Type := mk {
  line : nat;
  original : string;
  updated : string;
  repository : string;
  oldVersion : string;
  newVersion : string;
  newCommit : string
}.
End UpdateResult.

Module WorkflowParser.
Import Js.

Definition LF : ascii := "010"%char.

Definition isPathChar (c : ascii) : bool :=
  negb (Ascii.eqb c "@"%char) && negb (isWhiteSpace c).

Definition isRefChar (c : ascii) : bool :=
  negb (isWhiteSpace c) && negb (Ascii.eqb c "#"%char).

Definition notSlash (c : ascii) : bool := negb (Ascii.eqb c "/"%char).

Definition notLineTerminator (c : ascii) : bool := negb (isLineTerminator c).

(** The piece (?:-\s+)? of ACTION_REGEX: what is left of [r] after the
    list-item marker, if [r] starts with one. *)
Definition optionalMarker (r : string) : string :=
  match t ← stripPrefix "-" r; plus isWhiteSpace t with
  | Some (_, t') => t'
  | None => r
  end.

(** ACTION_REGEX =
      /^ (\s* ) (?:-\s+)? uses: \s+ ([^@\s]+) @ ([^\s#]+) (?: \s* # \s* (.* ) )? $/
    (written here with blanks between its pieces), matched against a whole
    line: groups 1 to 4, the last one absent when the line has no comment.
    Every greedy class of the pattern is followed by a character outside it,
    so the match never backtracks into a class and the groups are found left
    to right. *)
Definition ACTION_REGEX (line : string)
  : option (string * string * string * option string) :=
  let '(indentation, r) := span isWhiteSpace line in          (* ^ (\s* )    *)
  let r := optionalMarker r in                                (* (?:-\s+)?   *)
  r ← stripPrefix "uses:" r;                                  (* uses:       *)
  '(_, r) ← plus isWhiteSpace r;                              (* \s+         *)
  '(fullPath, r) ← plus isPathChar r;                         (* ([^@\s]+)   *)
  r ← stripPrefix "@" r;                                      (* @           *)
  '(ref, r) ← plus isRefChar r;                               (* ([^\s#]+)   *)
  match r with
  | EmptyString => Some (indentation, fullPath, ref, None)    (* $           *)
  | _ =>
      let '(_, r) := span isWhiteSpace r in                   (* \s*         *)
      r ← stripPrefix "#" r;                                  (* #           *)
      let '(_, comment) := span isWhiteSpace r in             (* \s*         *)
      if all notLineTerminator comment                        (* (.* ) $     *)
      then Some (indentation, fullPath, ref, Some comment)
      else None
  end.

(** The common head ^([^\/]+\/[^\/]+) of the two path patterns: group 1 and
    what follows it. *)
Definition ownerRepoPrefix (path : string) : option (string * string) :=
  '(owner, r) ← plus notSlash path;
  r ← stripPrefix "/" r;
  '(repo, r) ← plus notSlash r;
  Some (owner +:+ "/" +:+ repo, r).

(** REUSABLE_WORKFLOW_REGEX = /^([^\/]+\/[^\/]+)\/\.github\/workflows\/.*$/ :
    group 1. *)
Definition REUSABLE_WORKFLOW_REGEX (path : string) : option string :=
  '(g1, r) ← ownerRepoPrefix path;
  r ← stripPrefix "/.github/workflows/" r;
  if all notLineTerminator r then Some g1 else None.

(** SUB_ACTION_REGEX = /^([^\/]+\/[^\/]+)\/(.+)$/ : group 1. *)
Definition SUB_ACTION_REGEX (path : string) : option string :=
  '(g1, r) ← ownerRepoPrefix path;
  r ← stripPrefix "/" r;
  match r with
  | EmptyString => None
  | _ => if all notLineTerminator r then Some g1 else None
  end.

(** SKIP_PINNING_REGEX = /skip-pinning/i, as [.test(comment)]. *)
Definition SKIP_PINNING_REGEX (comment : string) : bool :=
  testCI "skip-pinning" comment.

(** The repository of a reference (parseWorkflow, the lines below
    "Extract repository name for reusable workflows and sub-actions"). *)
Definition deriveRepository (fullPath : string) : string :=
  let repository := trim fullPath in
  let reusableWorkflowMatch := REUSABLE_WORKFLOW_REGEX fullPath in
  let subActionMatch := SUB_ACTION_REGEX fullPath in
  match reusableWorkflowMatch with
  | Some g1 => g1
  | None =>
      match subActionMatch with
      | Some g1 =>
          if negb (includes ".github/workflows" fullPath) then g1 else repository
      | None => repository
      end
  end.

(** The body of parseWorkflow's loop for line [i]. *)
Definition parseLine (i : nat) (line : string) : option WorkflowAction.t :=
  '(indentation, fullPath, ref, comment) ← ACTION_REGEX line;
  let comment := default EmptyString comment in
  let hasSkipPinning := SKIP_PINNING_REGEX comment in
  Some {| WorkflowAction.line := i;
          WorkflowAction.original := line;
          WorkflowAction.repository := deriveRepository fullPath;
          WorkflowAction.fullPath := trim fullPath;
          WorkflowAction.currentRef := trim ref;
          WorkflowAction.currentComment := trim comment;
          WorkflowAction.hasSkipPinning := hasSkipPinning;
          WorkflowAction.indentation := indentation |}.

Fixpoint parseLines (i : nat) (lines : list string) : list WorkflowAction.t :=
  match lines with
  | [] => []
  | line :: rest =>
      match parseLine i line with
      | Some action => action :: parseLines (S i) rest
      | None => parseLines (S i) rest
      end
  end.

Definition parseWorkflow (content : string) : list WorkflowAction.t :=
  parseLines 0 (split LF content).

Definition updateActionLine (action : WorkflowAction.t)
    (newVersion newCommit : string) : string :=
  if WorkflowAction.hasSkipPinning action then WorkflowAction.original action
  else
    let standardizedComment := "tag " +:+ newVersion in
    let isDashFormat := includes "- uses:" (WorkflowAction.original action) in
    if isDashFormat then
      WorkflowAction.indentation action +:+ "- uses: " +:+
      WorkflowAction.fullPath action +:+ "@" +:+ newCommit +:+ " # " +:+
      standardizedComment
    else
      WorkflowAction.indentation action +:+ "uses: " +:+
      WorkflowAction.fullPath action +:+ "@" +:+ newCommit +:+ " # " +:+
      standardizedComment.

(** One iteration of applyUpdates' loop: the guarded assignment
    [lines[update.line] = update.updated]. *)
Definition applyUpdate (lines : list string) (update : UpdateResult.t) : list string :=
  if bool_decide (UpdateResult.line update < length lines)
  then <[UpdateResult.line update := UpdateResult.updated update]> lines
  else lines.

Definition applyUpdates (content : string) (updates : list UpdateResult.t) : string :=
  let lines := split LF content in
  let sortedUpdates :=
    sort (fun a b => (Z.of_nat (UpdateResult.line b) - Z.of_nat (UpdateResult.line a))%Z)
         updates in
  let lines := fold_left applyUpdate sortedUpdates lines in
  join (String LF EmptyString) lines.

(** (?:[.-]\w+)* at the start of [s]: what it matches.  Each round takes at
    least two characters, so [String.length s] rounds are enough. *)
Fixpoint versionSuffix (fuel : nat) (s : string) : string :=
  match fuel, s with
  | S fuel', String c t =>
      if Ascii.eqb c "."%char || Ascii.eqb c "-"%char then
        match plus isWordChar t with
        | Some (w, t') => String c w +:+ versionSuffix fuel' t'
        | None => EmptyString
        end
      else EmptyString
  | _, _ => EmptyString
  end.

(** \d+\.\d+\.\d+(?:[.-]\w+)* at the start of [s]. *)
Definition versionCore (s : string) : option string :=
  '(d1, r) ← plus isDigit s;
  r ← stripPrefix "." r;
  '(d2, r) ← plus isDigit r;
  r ← stripPrefix "." r;
  '(d3, r) ← plus isDigit r;
  Some (d1 +:+ "." +:+ d2 +:+ "." +:+ d3 +:+ versionSuffix (String.length r) r).

(** Group 1, (v?\d+\.\d+\.\d+(?:[.-]\w+)* ), at the start of [s], under the
    [i] flag. *)
Definition versionGroup (s : string) : option string :=
  match s with
  | String c t =>
      if charEqCI "v"%char c then
        match versionCore t with
        | Some v => Some (String c v)
        | None => versionCore s
        end
      else versionCore s
  | EmptyString => None
  end.

(** The whole pattern (?:tag\s+)?(v?\d+\.\d+\.\d+(?:[.-]\w+)* ) at the start
    of [s]: group 1. *)
Definition versionAt (s : string) : option string :=
  let withTag :=
    r ← stripPrefixCI "tag" s;
    '(_, r) ← plus isWhiteSpace r;
    versionGroup r in
  match withTag with
  | Some v => Some v
  | None => versionGroup s
  end.

(** comment.match of /(?:tag\s+)?(v?\d+\.\d+\.\d+(?:[.-]\w+)* )/i : the leftmost
    match. *)
Fixpoint versionMatch (comment : string) : option string :=
  match versionAt comment with
  | Some v => Some v
  | None =>
      match comment with
      | String _ rest => versionMatch rest
      | EmptyString => None
      end
  end.

Definition extractVersionFromComment (comment : string) : string :=
  match versionMatch comment with
  | Some g1 => g1
  | None => EmptyString
  end.

Definition normalizeVersion (version : string) : string :=
  match version with
  | EmptyString => EmptyString
  | _ => if startsWith "v" version then version else "v" +:+ version
  end.

Definition areVersionsEqual (version1 version2 : string) : bool :=
  bool_decide (normalizeVersion version1 = normalizeVersion version2).

(** /\.(yml|yaml)$/ at the start of [s]: a dot, one of the two extensions, and
    the end of the text. *)
Definition ymlSuffixAt (s : string) : bool :=
  bool_decide (s = ".yml") || bool_decide (s = ".yaml").

(** [/\.(yml|yaml)$/.test(filePath)]: the pattern somewhere in the path. *)
Fixpoint YML_REGEX (filePath : string) : bool :=
  ymlSuffixAt filePath ||
  match filePath with
  | EmptyString => false
  | String _ rest => YML_REGEX rest
  end.

Definition isWorkflowFile (filePath : string) : bool :=
  YML_REGEX filePath &&
  (includes ".github/workflows/" filePath || includes "workflows/" filePath).

End WorkflowParser.

(* ===================================================================== *)
(** * The semver package                                                  *)
(* ===================================================================== *)

(** The npm package [semver], which githubApi.ts imports and the repository
    does not contain.  The resolver reads two of its functions:
    [semver.valid(v)], used as a truth value, and [semver.rcompare(a, b)],
    which the package defines as [compare(b, a)].  The resolver is stated over
    any implementation of the two. *)
Class SemverLib : Type := {
  semver_valid : string -> bool;
  semver_compare : string -> string -> Z
}.

Definition semver_rcompare `{SemverLib} (a b : string) : Z := semver_compare b a.

(** Modelled from the spec: [semver.valid] and [semver.compare] of the npm
    package, which is not part of the repository.  "A value is comparable only
    if it parses as strict major.minor.patch (with optional pre-release/build
    metadata)"; the ordering is the precedence of Semantic Versioning 2.0.0,
    which the package implements.  As in the package's strict mode: one
    optional leading [v]; numeric parts without leading zeros and at most
    2^53 - 1; at most 256 characters; build metadata ignored by the ordering.
    Numeric pre-release identifiers are compared as exact naturals. *)
Module Semver.
Import Js.

Inductive identifier : Type :=
  | Numeric (n : N)
  | Alphanumeric (s : string).

Record t : Type := mk {
  major : N;
  minor : N;
  patch : N;
  prerelease : list identifier
}.

Definition MAX_LENGTH : nat := 256.
Definition MAX_SAFE_INTEGER : N := 9007199254740991.

Fixpoint digitsValue (acc : N) (s : string) : N :=
  match s with
  | EmptyString => acc
  | String c s' => digitsValue (acc * 10 + (N_of_ascii c - 48))%N s'
  end.

(** [0|[1-9]\d*] as a whole identifier. *)
Definition isNumericIdentifier (s : string) : bool :=
  match s with
  | String "0"%char EmptyString => true
  | String c _ => negb (Ascii.eqb c "0"%char) && all isDigit s
  | EmptyString => false
  end.

(** [[0-9A-Za-z-]] *)
Definition isIdentifierChar (c : ascii) : bool :=
  (isWordChar c && negb (Ascii.eqb c "_"%char)) || Ascii.eqb c "-"%char.

Definition parseIdentifier (s : string) : option identifier :=
  match s with
  | EmptyString => None
  | _ =>
      if all isDigit s then
        if isNumericIdentifier s then Some (Numeric (digitsValue 0 s)) else None
      else if all isIdentifierChar s then Some (Alphanumeric s)
      else None
  end.

Fixpoint parseIdentifiers (l : list string) : option (list identifier) :=
  match l with
  | [] => Some []
  | s :: l' =>
      i ← parseIdentifier s;
      rest ← parseIdentifiers l';
      Some (i :: rest)
  end.

Definition isBuild (s : string) : bool :=
  forallb (fun p => match p with EmptyString => false | _ => all isIdentifierChar p end)
          (split "."%char s).

(** One of major, minor, patch at the start of [s]. *)
Definition parseNumber (s : string) : option (N * string) :=
  let '(d, r) := span isDigit s in
  if isNumericIdentifier d && (digitsValue 0 d <=? MAX_SAFE_INTEGER)%N
  then Some (digitsValue 0 d, r) else None.

Definition parseTail (r : string) : option (list identifier) :=
  match r with
  | EmptyString => Some []
  | String "+"%char b => if isBuild b then Some [] else None
  | String "-"%char r' =>
      let '(pre, r'') := span (fun c => negb (Ascii.eqb c "+"%char)) r' in
      ids ← parseIdentifiers (split "."%char pre);
      match r'' with
      | EmptyString => Some ids
      | String _ b => if isBuild b then Some ids else None
      end
  | _ => None
  end.

Definition parse (version : string) : option t :=
  if bool_decide (MAX_LENGTH < String.length version) then None else
  let s := trim version in
  let s := match s with String "v"%char s' => s' | _ => s end in
  '(major, r) ← parseNumber s;
  r ← stripPrefix "." r;
  '(minor, r) ← parseNumber r;
  r ← stripPrefix "." r;
  '(patch, r) ← parseNumber r;
  pre ← parseTail r;
  Some (mk major minor patch pre).

Definition sign (c : comparison) : Z :=
  match c with Lt => (-1)%Z | Eq => 0%Z | Gt => 1%Z end.

Definition compareIdentifiers (a b : identifier) : comparison :=
  match a, b with
  | Numeric x, Numeric y => N.compare x y
  | Numeric _, Alphanumeric _ => Lt
  | Alphanumeric _, Numeric _ => Gt
  | Alphanumeric x, Alphanumeric y => String.compare x y
  end.

Definition thenCompare (c : comparison) (next : comparison) : comparison :=
  match c with Eq => next | _ => c end.

Definition compareMain (a b : t) : comparison :=
  thenCompare (N.compare (major a) (major b))
    (thenCompare (N.compare (minor a) (minor b))
       (N.compare (patch a) (patch b))).

Fixpoint compareIdentifierLists (a b : list identifier) : comparison :=
  match a, b with
  | [], [] => Eq
  | [], _ :: _ => Lt
  | _ :: _, [] => Gt
  | x :: a', y :: b' => thenCompare (compareIdentifiers x y) (compareIdentifierLists a' b')
  end.

(** A version without pre-release identifiers is above one with them. *)
Definition comparePre (a b : t) : comparison :=
  match prerelease a, prerelease b with
  | [], [] => Eq
  | [], _ :: _ => Gt
  | _ :: _, [] => Lt
  | pa, pb => compareIdentifierLists pa pb
  end.

Definition valid (version : string) : bool :=
  match parse version with Some _ => true | None => false end.

(** [semver.compare]; the package throws on an invalid operand, which the
    resolver never passes: [0] stands for that case. *)
Definition compare (a b : string) : Z :=
  match parse a, parse b with
  | Some x, Some y => sign (thenCompare (compareMain x y) (comparePre x y))
  | _, _ => 0%Z
  end.

End Semver.

Definition Semver_lib : SemverLib :=
  {| semver_valid := Semver.valid; semver_compare := Semver.compare |}.

(* ===================================================================== *)
(** * githubApi.ts                                                        *)
(* ===================================================================== *)

(** [interface GitHubTag]: [{ name, commit: { sha } }] *)
Module GitHubTag.
Record t : Type := mk { name : string; commit_sha : string }.
End GitHubTag.

(** [interface GitHubRelease] *)
Module GitHubRelease.
Record t : Type := mk {
  tag_name : string;
  target_commitish : string;
  prerelease : bool
}.
End GitHubRelease.

(** [interface ActionUpdate] *)
Module ActionUpdate.
Record t : Type := mk {
  currentVersion : string;
  latestVersion : string;
  latestCommit : string;
  repository : string
}.
End ActionUpdate.

(** The object [{ object: { type, sha, url } }] read by getCommitForTag. *)
Module GitRef.
Record t : Type := mk { object_type : string; object_sha : string; object_url : string }.
End GitRef.

(** [makeRequest(url)]: the GitHub REST API, one field for each shape of
    answer the resolver reads; a request returns the parsed answer or throws.
    [requestRepo] gives [repo.default_branch], [None] when the answer has
    none. *)
Class Network : Type := {
  requestReleases : string -> Result (list GitHubRelease.t);
  requestTags : string -> Result (list GitHubTag.t);
  requestRef : string -> Result GitRef.t;
  requestTagObject : string -> Result string;
  requestRepo : string -> Result (option string);
  requestCommit : string -> Result string
}.

Module GitHubApiService.
Section Service.
Context `{SemverLib} `{Network}.

Definition getReleases (repository : string) : Result (list GitHubRelease.t) :=
  requestReleases ("https://api.github.com/repos/" +:+ repository +:+ "/releases").

Definition getTags (repository : string) : Result (list GitHubTag.t) :=
  requestTags ("https://api.github.com/repos/" +:+ repository +:+ "/tags").

Definition getCommitForTag (repository tagName : string) : Result string :=
  let url := "https://api.github.com/repos/" +:+ repository +:+
             "/git/refs/tags/" +:+ tagName in
  tryCatch
    (tagRef ← requestRef url;
     if bool_decide (GitRef.object_type tagRef = "tag") then
       sha ← requestTagObject (GitRef.object_url tagRef);
       Return sha
     else Return (GitRef.object_sha tagRef))
    (fun _ =>
       tags ← getTags repository;
       let tag := find (fun t => bool_decide (GitHubTag.name t = tagName)) tags in
       Return (match tag with
               | Some t => GitHubTag.commit_sha t
               | None => EmptyString
               end)).

Definition getDefaultBranch (repository : string) : Result string :=
  repo ← requestRepo ("https://api.github.com/repos/" +:+ repository);
  Return (match repo with
          | Some (String _ _ as default_branch) => default_branch
          | _ => "main"
          end).

Definition getLatestCommit (repository branch : string) : Result string :=
  requestCommit ("https://api.github.com/repos/" +:+ repository +:+
                 "/commits/" +:+ branch).

Definition findLatestSemverRelease (releases : list GitHubRelease.t)
  : option GitHubRelease.t :=
  let validReleases :=
    Js.sort (fun a b => semver_rcompare (GitHubRelease.tag_name a)
                                        (GitHubRelease.tag_name b))
      (filter (fun release => semver_valid (GitHubRelease.tag_name release) = true)
         (filter (fun release => GitHubRelease.prerelease release = false)
            releases)) in
  head validReleases.

Definition findLatestSemverTag (tags : list GitHubTag.t) : option GitHubTag.t :=
  let validTags :=
    Js.sort (fun a b => semver_rcompare (GitHubTag.name a) (GitHubTag.name b))
      (filter (fun tag => semver_valid (GitHubTag.name tag) = true) tags) in
  head validTags.

(** The statements after the releases tier: tags, then the default branch. *)
Definition fromTagsOrBranch (repository : string) : Result (option ActionUpdate.t) :=
  tags ← getTags repository;
  match tags with
  | mostRecentTag :: _ =>
      match findLatestSemverTag tags with
      | Some latestTag =>
          Return (Some (ActionUpdate.mk "" (GitHubTag.name latestTag)
                          (GitHubTag.commit_sha latestTag) repository))
      | None =>
          Return (Some (ActionUpdate.mk "" (GitHubTag.name mostRecentTag)
                          (GitHubTag.commit_sha mostRecentTag) repository))
      end
  | [] =>
      defaultBranch ← getDefaultBranch repository;
      latestCommit ← getLatestCommit repository defaultBranch;
      Return (Some (ActionUpdate.mk "" defaultBranch latestCommit repository))
  end.

(** A thrown message is an [Error]; in a template it reads "Error: " and
    the message. *)
Definition getLatestActionVersion (repository : string)
  : Result (option ActionUpdate.t) :=
  tryCatch
    (releases ← getReleases repository;
     match (if bool_decide (0 < length releases)
            then findLatestSemverRelease releases else None) with
     | Some latestRelease =>
         latestCommit ← getCommitForTag repository
                          (GitHubRelease.tag_name latestRelease);
         Return (Some (ActionUpdate.mk "" (GitHubRelease.tag_name latestRelease)
                         latestCommit repository))
     | None => fromTagsOrBranch repository
     end)
    (fun error =>
       Throw ("Failed to get latest version for " +:+ repository +:+
              ": Error: " +:+ error)).
End Service.
End GitHubApiService.

(* ===================================================================== *)
(** * extension.ts: the update loop of updateWorkflowCommand              *)
(* ===================================================================== *)

Module Extension.
Import WorkflowParser.

(** What the loop has built so far.  [calls] is not a variable of the source:
    it records, in order, the references for which getLatestActionVersion was
    called. *)
Record LoopState : Type := mkLoop {
  updates : list UpdateResult.t;
  errors : list string;
  calls : list WorkflowAction.t
}.

(** The body of [if (updateInfo)]: nothing when the reference is up to date,
    the update to push otherwise. *)
Definition decideUpdate (action : WorkflowAction.t) (updateInfo : ActionUpdate.t)
  : option UpdateResult.t :=
  let currentVersion := extractVersionFromComment (WorkflowAction.currentComment action) in
  let isAlreadyPinned := bool_decide (String.length (WorkflowAction.currentRef action) = 40) in
  let isSameVersion := areVersionsEqual currentVersion (ActionUpdate.latestVersion updateInfo) in
  let isSameCommit :=
    bool_decide (WorkflowAction.currentRef action = ActionUpdate.latestCommit updateInfo) in
  if isAlreadyPinned && (isSameVersion || isSameCommit) then None
  else
    let updatedLine :=
      updateActionLine action (ActionUpdate.latestVersion updateInfo)
                       (ActionUpdate.latestCommit updateInfo) in
    Some {| UpdateResult.line := WorkflowAction.line action;
            UpdateResult.original := WorkflowAction.original action;
            UpdateResult.updated := updatedLine;
            UpdateResult.repository := WorkflowAction.repository action;
            UpdateResult.oldVersion :=
              match currentVersion with
              | EmptyString => WorkflowAction.currentRef action
              | _ => currentVersion
              end;
            UpdateResult.newVersion := ActionUpdate.latestVersion updateInfo;
            UpdateResult.newCommit := ActionUpdate.latestCommit updateInfo |}.

(** [actions.filter(action => !action.hasSkipPinning)] *)
Definition actionsToUpdate (actions : list WorkflowAction.t) : list WorkflowAction.t :=
  filter (fun action => WorkflowAction.hasSkipPinning action = false) actions.

Section Loop.
Context `{SemverLib} `{Network}.
(** [token.isCancellationRequested] as read at the top of iteration [i]. *)
Variable isCancellationRequested : nat -> bool.

(** One iteration, after the cancellation check: the [try] block and its
    [catch]. *)
Definition processAction (st : LoopState) (action : WorkflowAction.t) : LoopState :=
  let st := mkLoop (updates st) (errors st) (calls st ++ [action]) in
  match GitHubApiService.getLatestActionVersion (WorkflowAction.repository action) with
  | Return (Some updateInfo) =>
      match decideUpdate action updateInfo with
      | Some update => mkLoop (updates st ++ [update]) (errors st) (calls st)
      | None => st
      end
  | Return None => st
  | Throw error =>
      let errorMsg := "Failed to update " +:+ WorkflowAction.repository action +:+
                      ": Error: " +:+ error in
      mkLoop (updates st) (errors st ++ [errorMsg]) (calls st)
  end.

(** [for (let i = 0; i < actionsToUpdate.length; i++)]: [inl] when the loop
    returned on cancellation, [inr] when it ran to its end. *)
Fixpoint updateLoop (i : nat) (actionsToUpdate : list WorkflowAction.t)
    (st : LoopState) : LoopState + LoopState :=
  match actionsToUpdate with
  | [] => inr st
  | action :: rest =>
      if isCancellationRequested i then inl st
      else updateLoop (S i) rest (processAction st action)
  end.

Inductive Outcome : Type :=
  | NoActionsFound
  | AllSkipped
  | Cancelled (st : LoopState)
  | NothingToUpdate (st : LoopState)
  | Updated (updatedContent : string) (st : LoopState).

(** The progress callback of updateWorkflowCommand, from parseWorkflow to
    the edit of the document. *)
Definition updateWorkflow (content : string) : Outcome :=
  let actions := parseWorkflow content in
  match actions with
  | [] => NoActionsFound
  | _ =>
      match actionsToUpdate actions with
      | [] => AllSkipped
      | _ =>
          match updateLoop 0 (actionsToUpdate actions) (mkLoop [] [] []) with
          | inl st => Cancelled st
          | inr st =>
              match updates st with
              | [] => NothingToUpdate st
              | _ => Updated (applyUpdates content (updates st)) st
              end
          end
      end
  end.
End Loop.

Definition isLikelyWorkflowFile (content : string) : bool :=
  Js.includes "uses:" content &&
  (Js.includes "jobs:" content || Js.includes "on:" content).

End Extension.

(* ===================================================================== *)
(** * Vocabulary of the statements                                        *)
(* ===================================================================== *)

Module Predicates.
Import Js WorkflowParser.

(** [s] has no occurrence of the separator [sep]. *)
Definition sepFree (sep : ascii) (s : string) : bool :=
  all (fun c => negb (Ascii.eqb c sep)) s.

(** The lines of a text, as applyUpdates and parseWorkflow cut it. *)
Definition linesOf (content : string) : list string := split LF content.

(** What follows a greedy class does not start with a character of it. *)
Definition stopsAt (p : ascii -> bool) (s : string) : Prop :=
  match s with
  | EmptyString => True
  | String c _ => p c = false
  end.

(** [p] is a prefix of [s], case-insensitively. *)
Definition isPrefixCI (p s : string) : bool :=
  match stripPrefixCI p s with Some _ => true | None => false end.

(** A run of white space. *)
Definition isBlank (s : string) : bool := all isWhiteSpace s.

(** A path segment: not empty, no slash. *)
Definition isSegment (s : string) : Prop :=
  s <> EmptyString /\ all notSlash s = true.

(** A path token of ACTION_REGEX: not empty, no [@], no white space. *)
Definition isPathToken (s : string) : Prop :=
  s <> EmptyString /\ all isPathChar s = true.

(** A ref token of ACTION_REGEX: not empty, no white space, no [#]. *)
Definition isRefToken (s : string) : Prop :=
  s <> EmptyString /\ all isRefChar s = true.

(** The list-item marker of a line: absent, or a dash and white space. *)
Definition isMarker (s : string) : Prop :=
  s = EmptyString \/
  exists ws, s = String "-"%char ws /\ ws <> EmptyString /\ isBlank ws = true.

(** [m] is [p] up to the case of ASCII letters. *)
Fixpoint eqCI (p m : string) : bool :=
  match p, m with
  | EmptyString, EmptyString => true
  | String a p', String b m' => charEqCI a b && eqCI p' m'
  | _, _ => false
  end.

(** [s] contains [p], case-insensitively. *)
Definition ContainsCI (p s : string) : Prop :=
  exists pre m post, s = pre +:+ m +:+ post /\ eqCI p m = true.

(** [s] contains [p]. *)
Definition Contains (p s : string) : Prop :=
  exists pre post, s = pre +:+ p +:+ post.

(** A comparator is consistent on [l]: any two elements are ordered one way
    or the other, and the order is transitive. *)
Definition Consistent {A : Type} (cmp : A -> A -> Z) (l : list A) : Prop :=
  (forall a b, a ∈ l -> b ∈ l -> (cmp a b <= 0)%Z \/ (cmp b a <= 0)%Z) /\
  (forall a b c, a ∈ l -> b ∈ l -> c ∈ l ->
     (cmp a b <= 0)%Z -> (cmp b c <= 0)%Z -> (cmp a c <= 0)%Z).

Definition consistentb {A : Type} (cmp : A -> A -> Z) (l : list A) : bool :=
  forallb (fun a => forallb (fun b =>
    ((cmp a b <=? 0)%Z || (cmp b a <=? 0)%Z) &&
    forallb (fun c =>
      implb ((cmp a b <=? 0)%Z && (cmp b c <=? 0)%Z) (cmp a c <=? 0)%Z) l) l) l.

(** A three-way comparison that orders: it is antisymmetric, its [Eq] is a
    congruence for it, and its [Lt] is transitive. *)
Class Lawful {A : Type} (c : A -> A -> comparison) : Prop := {
  lawful_antisym : forall x y, c y x = CompOpp (c x y);
  lawful_eq : forall x y z, c x y = Eq -> c x z = c y z;
  lawful_lt : forall x y z, c x y = Lt -> c y z = Lt -> c x z = Lt
}.

(** The releases that may be chosen by the releases tier. *)
Definition qualifying `{SemverLib} (releases : list GitHubRelease.t)
  : list GitHubRelease.t :=
  filter (fun r => GitHubRelease.prerelease r = false /\
                   semver_valid (GitHubRelease.tag_name r) = true) releases.

(** The reference is pinned to a full hash and either its comment names the
    resolved version or its ref is the resolved commit. *)
Definition UpToDate (action : WorkflowAction.t) (updateInfo : ActionUpdate.t) : Prop :=
  String.length (WorkflowAction.currentRef action) = 40 /\
  (normalizeVersion (extractVersionFromComment (WorkflowAction.currentComment action))
     = normalizeVersion (ActionUpdate.latestVersion updateInfo)
   \/ WorkflowAction.currentRef action = ActionUpdate.latestCommit updateInfo).

(** What follows the ref on a reference line: nothing, or a comment. *)
Definition isTrailer (trailer : string) (comment : option string) : Prop :=
  match comment with
  | None => trailer = EmptyString
  | Some c =>
      exists ws1 ws2,
        trailer = ws1 +:+ "#" +:+ ws2 +:+ c /\
        isBlank ws1 = true /\ isBlank ws2 = true /\
        stopsAt isWhiteSpace c /\ all notLineTerminator c = true
  end.

(** The grammar of a reference line:
    [<indent>[- ]uses: <path>@<ref>[ #<comment>]]. *)
Definition ReferenceLine (line indent path ref : string) (comment : option string) : Prop :=
  exists marker ws trailer,
    line = indent +:+ marker +:+ "uses:" +:+ ws +:+ path +:+ "@" +:+ ref +:+ trailer /\
    isBlank indent = true /\ isMarker marker /\
    ws <> EmptyString /\ isBlank ws = true /\
    isPathToken path /\ isRefToken ref /\ isTrailer trailer comment.

(** [path] is [owner/repo/.github/workflows/<file>]. *)
Definition ReusableWorkflowPath (path identity : string) : Prop :=
  exists owner repo file,
    isSegment owner /\ isSegment repo /\
    identity = owner +:+ "/" +:+ repo /\
    path = identity +:+ "/.github/workflows/" +:+ file.

(** [path] is [owner/repo/<rest>] with something after the second slash. *)
Definition SubPath (path identity : string) : Prop :=
  exists owner repo rest,
    isSegment owner /\ isSegment repo /\ rest <> EmptyString /\
    identity = owner +:+ "/" +:+ repo /\
    path = identity +:+ "/" +:+ rest.

(** The state the update loop ended in, when it ran. *)
Definition loopState (o : Extension.Outcome) : option Extension.LoopState :=
  match o with
  | Extension.NoActionsFound | Extension.AllSkipped => None
  | Extension.Cancelled st | Extension.NothingToUpdate st | Extension.Updated _ st => Some st
  end.

(** The characters of a version as extractVersionFromComment reads it: word
    characters, dots and dashes. *)
Definition isVersionChar (c : ascii) : bool :=
  isWordChar c || Ascii.eqb c "."%char || Ascii.eqb c "-"%char.

(** The comparator of applyUpdates: higher line numbers first. *)
Definition byLineDescending (a b : UpdateResult.t) : Z :=
  (Z.of_nat (UpdateResult.line b) - Z.of_nat (UpdateResult.line a))%Z.

(** The last update of the list, in its order, that names line [i]. *)
Definition lastFor (i : nat) (updates : list UpdateResult.t) : option UpdateResult.t :=
  last (filter (fun u => UpdateResult.line u = i) updates).

(** [s] ends with [suffix]. *)
Definition EndsWith (suffix s : string) : Prop := exists stem, s = stem +:+ suffix.

(** What one reference contributes to the updates and to the errors of the
    loop. *)
Definition decisionFor `{SemverLib} `{Network} (action : WorkflowAction.t)
  : option UpdateResult.t :=
  match GitHubApiService.getLatestActionVersion (WorkflowAction.repository action) with
  | Return (Some updateInfo) => Extension.decideUpdate action updateInfo
  | _ => None
  end.

Definition errorFor `{SemverLib} `{Network} (action : WorkflowAction.t) : option string :=
  match GitHubApiService.getLatestActionVersion (WorkflowAction.repository action) with
  | Throw error =>
      Some ("Failed to update " +:+ WorkflowAction.repository action +:+
            ": Error: " +:+ error)
  | _ => None
  end.

(** The tags whose name is a valid version. *)
Definition validTags `{SemverLib} (tags : list GitHubTag.t) : list GitHubTag.t :=
  filter (fun tag => semver_valid (GitHubTag.name tag) = true) tags.

(** The carriage return, a white space and a line terminator of the patterns. *)
Definition CR : ascii := "013"%char.

(** The normalization in the words of the specification: ensure a leading
    [v]. *)
Definition withLeadingV (version : string) : string :=
  if startsWith "v" version then version else "v" +:+ version.

(** Two versions count as the same when both are empty, or both are not and
    they are equal once each has a leading [v]. *)
Definition SameVersion (a b : string) : Prop :=
  (a = EmptyString /\ b = EmptyString) \/
  (a <> EmptyString /\ b <> EmptyString /\ withLeadingV a = withLeadingV b).

(** One or more digits. *)
Definition isDigits (s : string) : Prop := s <> EmptyString /\ all isDigit s = true.

(** Zero or more pieces, each a dot or a hyphen followed by one or more word
    characters. *)
Inductive isSuffixes : string -> Prop :=
  | suffixes_nil : isSuffixes EmptyString
  | suffixes_cons (c : ascii) (w rest : string) :
      c = "."%char \/ c = "-"%char ->
      w <> EmptyString -> all isWordChar w = true ->
      isSuffixes rest -> isSuffixes (String c (w +:+ rest)).

(** A version text: an optional [v] or [V], three groups of digits with dots
    between them, and suffix pieces. *)
Definition VersionText (g : string) : Prop :=
  exists v d1 d2 d3 sfx,
    g = v +:+ d1 +:+ "." +:+ d2 +:+ "." +:+ d3 +:+ sfx /\
    (v = EmptyString \/ v = "v" \/ v = "V") /\
    isDigits d1 /\ isDigits d2 /\ isDigits d3 /\ isSuffixes sfx.

(** [s] starts with a version text. *)
Definition StartsVersion (s : string) : Prop :=
  exists g post, s = g +:+ post /\ VersionText g.

(** [g] is the longest version text at the start of [s]. *)
Definition VersionAt (s g : string) : Prop :=
  (exists post, s = g +:+ post) /\ VersionText g /\
  forall g' post', s = g' +:+ post' -> VersionText g' ->
    String.length g' <= String.length g.

(** [g] is the longest version text at the first place of [comment] where a
    version text starts. *)
Definition LeftmostVersion (comment g : string) : Prop :=
  exists pre rest,
    comment = pre +:+ rest /\ VersionAt rest g /\
    forall pre' rest', comment = pre' +:+ rest' ->
      String.length pre' < String.length pre -> ~ StartsVersion rest'.

(** No version text starts anywhere in [comment]. *)
Definition NoVersion (comment : string) : Prop :=
  forall pre rest, comment = pre +:+ rest -> ~ StartsVersion rest.

(** The version of a comment: its leftmost version text, or the empty string
    when it has none. *)
Definition VersionOf (comment version : string) : Prop :=
  LeftmostVersion comment version \/ (NoVersion comment /\ version = EmptyString).

(** A character no version text starts with. *)
Definition startsNoVersion (c : ascii) : bool :=
  negb (isDigit c) && negb (charEqCI "v"%char c).

End Predicates.

(* ===================================================================== *)
(** * A small GitHub, for the examples                                    *)
(* ===================================================================== *)

Module Example.

Definition api (path : string) : string := "https://api.github.com/repos/" +:+ path.

Definition notFound {A : Type} : Result A :=
  Throw "GitHub API error: 404 - Not Found".

Definition checkoutCommit : string := "11bd71901bbe5b1630ceea73d27597364c9af683".
Definition toolsCommit : string := "8f152de45cc393bb48ce5d89d36b731f54556e65".
Definition trunkCommit : string := "0123456789abcdef0123456789abcdef01234567".

(** [actions/checkout]: releases, the latest one a lightweight tag.
    [acme/tools]: its latest release is an annotated tag.
    [acme/empty]: no release, no tag, default branch [trunk].
    [acme/draft]: a release whose tag has no ref and is not in the tag list. *)
Definition github : Network := {|
  requestReleases url :=
    if bool_decide (url = api "actions/checkout/releases") then
      Return [GitHubRelease.mk "v5.0.0-beta" "main" true;
              GitHubRelease.mk "v4.2.2" "main" false;
              GitHubRelease.mk "v4.9.0" "main" true;
              GitHubRelease.mk "nightly" "main" false;
              GitHubRelease.mk "v4.1.0" "main" false]
    else if bool_decide (url = api "acme/tools/releases") then
      Return [GitHubRelease.mk "v2.0.0" "main" false]
    else if bool_decide (url = api "acme/empty/releases") then Return []
    else if bool_decide (url = api "acme/draft/releases") then
      Return [GitHubRelease.mk "v9.0.0" "main" false]
    else notFound;
  requestTags url :=
    if bool_decide (url = api "acme/empty/tags") then Return []
    else if bool_decide (url = api "acme/draft/tags") then
      Return [GitHubTag.mk "v8.0.0" toolsCommit]
    else notFound;
  requestRef url :=
    if bool_decide (url = api "actions/checkout/git/refs/tags/v4.2.2") then
      Return (GitRef.mk "commit" checkoutCommit (api "actions/checkout/git/commits/11bd719"))
    else if bool_decide (url = api "acme/tools/git/refs/tags/v2.0.0") then
      Return (GitRef.mk "tag" "aaaaaaaaaaaaaaaaaaaaaaaaaaaaaaaaaaaaaaaa"
                (api "acme/tools/git/tags/aaaa"))
    else notFound;
  requestTagObject url :=
    if bool_decide (url = api "acme/tools/git/tags/aaaa") then Return toolsCommit
    else notFound;
  requestRepo url :=
    if bool_decide (url = api "acme/empty") then Return (Some "trunk")
    else notFound;
  requestCommit url :=
    if bool_decide (url = api "acme/empty/commits/trunk") then Return trunkCommit
    else notFound
|}.

Definition neverCancelled (i : nat) : bool := false.

(** The release set of the specification: a pre-release and a stable one. *)
Definition beta : GitHubRelease.t := GitHubRelease.mk "v5.0.0-beta" "main" true.
Definition stable : GitHubRelease.t := GitHubRelease.mk "v4.9.0" "main" false.
Definition betaAndStable : list GitHubRelease.t := [beta; stable].

Definition emptyLoop : Extension.LoopState := Extension.mkLoop [] [] [].

(** What [actions/checkout] resolves to. *)
Definition checkoutUpdate : ActionUpdate.t :=
  ActionUpdate.mk "" "v4.2.2" checkoutCommit "actions/checkout".

(** A workflow of three lines, a decision for its second line, and the
    patched text. *)
Definition workflow : string :=
  "steps:" +:+ String WorkflowParser.LF "  - uses: a/b@v1" +:+
  String WorkflowParser.LF "  - run: make".

Definition decisions : list UpdateResult.t :=
  [UpdateResult.mk 1 "  - uses: a/b@v1" "  - uses: a/b@0123 # tag v2.0.0"
     "a/b" "v1" "v2.0.0" "0123"].

Definition patched : string :=
  "steps:" +:+ String WorkflowParser.LF "  - uses: a/b@0123 # tag v2.0.0" +:+
  String WorkflowParser.LF "  - run: make".

(** Two decisions for the second line of [workflow] and one past its end. *)
Definition rivalDecisions : list UpdateResult.t :=
  [UpdateResult.mk 1 "  - uses: a/b@v1" "  - uses: a/b@0123 # tag v2.0.0"
     "a/b" "v1" "v2.0.0" "0123";
   UpdateResult.mk 9 "" "  - uses: c/d@89ab # tag v1.0.0" "c/d" "v0" "v1.0.0" "89ab";
   UpdateResult.mk 1 "  - uses: a/b@v1" "  - uses: a/b@4567 # tag v3.0.0"
     "a/b" "v1" "v3.0.0" "4567"].

(** A decision for a line past the end of [workflow]. *)
Definition lateDecision : list UpdateResult.t :=
  [UpdateResult.mk 3 "" "  - uses: c/d@89ab # tag v1.0.0" "c/d" "v0" "v1.0.0" "89ab"].

(** Decisions for the second and the third line of [workflow]. *)
Definition twoDecisions : list UpdateResult.t :=
  [UpdateResult.mk 1 "  - uses: a/b@v1" "  - uses: a/b@0123 # tag v2.0.0"
     "a/b" "v1" "v2.0.0" "0123";
   UpdateResult.mk 2 "  - run: make" "  - run: make all" "" "" "" ""].

(** A text of two lines and a decision whose replacement holds a line feed. *)
Definition twoLines : string := "a" +:+ String WorkflowParser.LF "b".

Definition multilineDecision : list UpdateResult.t :=
  [UpdateResult.mk 0 "a" ("x" +:+ String WorkflowParser.LF "y") "o/r" "v1" "v2" "0123"].

(** A workflow with a skipped and a tagged reference, and its patched text. *)
Definition twoReferences : string :=
  "steps:" +:+ String WorkflowParser.LF "  - uses: actions/checkout@main # Skip-Pinning" +:+
  String WorkflowParser.LF "  - uses: acme/tools@v1".

Definition twoReferencesPatched : string :=
  "steps:" +:+ String WorkflowParser.LF "  - uses: actions/checkout@main # Skip-Pinning" +:+
  String WorkflowParser.LF ("  - uses: acme/tools@" +:+ toolsCommit +:+ " # tag v2.0.0").

Definition pinnedCheckout : WorkflowAction.t :=
  {| WorkflowAction.line := 7;
     WorkflowAction.original :=
       "      - uses: actions/checkout@" +:+ checkoutCommit +:+ " # tag v4.2.2";
     WorkflowAction.repository := "actions/checkout";
     WorkflowAction.fullPath := "actions/checkout";
     WorkflowAction.currentRef := checkoutCommit;
     WorkflowAction.currentComment := "tag v4.2.2";
     WorkflowAction.hasSkipPinning := false;
     WorkflowAction.indentation := "      " |}.

Definition taggedCheckout : WorkflowAction.t :=
  {| WorkflowAction.line := 7;
     WorkflowAction.original := "      - uses: actions/checkout@v4";
     WorkflowAction.repository := "actions/checkout";
     WorkflowAction.fullPath := "actions/checkout";
     WorkflowAction.currentRef := "v4";
     WorkflowAction.currentComment := "";
     WorkflowAction.hasSkipPinning := false;
     WorkflowAction.indentation := "      " |}.

Definition skippedCheckout : WorkflowAction.t :=
  {| WorkflowAction.line := 2;
     WorkflowAction.original := "  - uses: actions/checkout@main # skip-pinning";
     WorkflowAction.repository := "actions/checkout";
     WorkflowAction.fullPath := "actions/checkout";
     WorkflowAction.currentRef := "main";
     WorkflowAction.currentComment := "skip-pinning";
     WorkflowAction.hasSkipPinning := true;
     WorkflowAction.indentation := "  " |}.

(** A second host.  [acme/tagged]: no release, three tags, one of them not
    a version.  [acme/named]: no release, no tag that is a version.
    [acme/unnamed]: no release, no tag, and no default branch in the answer. *)
Definition tagsOnly : Network := {|
  requestReleases url :=
    if bool_decide (url = api "acme/tagged/releases") then Return []
    else if bool_decide (url = api "acme/named/releases") then Return []
    else if bool_decide (url = api "acme/unnamed/releases") then Return []
    else notFound;
  requestTags url :=
    if bool_decide (url = api "acme/tagged/tags") then
      Return [GitHubTag.mk "nightly" trunkCommit;
              GitHubTag.mk "v1.2.0" checkoutCommit;
              GitHubTag.mk "v1.10.0" toolsCommit]
    else if bool_decide (url = api "acme/named/tags") then
      Return [GitHubTag.mk "latest" trunkCommit;
              GitHubTag.mk "stable" checkoutCommit]
    else if bool_decide (url = api "acme/unnamed/tags") then Return []
    else notFound;
  requestRef url := notFound;
  requestTagObject url := notFound;
  requestRepo url :=
    if bool_decide (url = api "acme/unnamed") then Return None
    else notFound;
  requestCommit url :=
    if bool_decide (url = api "acme/unnamed/commits/main") then Return trunkCommit
    else notFound
|}.

(** A reference to a repository the host does not know. *)
Definition goneAction : WorkflowAction.t :=
  {| WorkflowAction.line := 3;
     WorkflowAction.original := "      - uses: acme/gone@v1";
     WorkflowAction.repository := "acme/gone";
     WorkflowAction.fullPath := "acme/gone";
     WorkflowAction.currentRef := "v1";
     WorkflowAction.currentComment := "";
     WorkflowAction.hasSkipPinning := false;
     WorkflowAction.indentation := "      " |}.

(** Cancellation requested when the second iteration starts. *)
Definition cancelledAtSecond (i : nat) : bool := Nat.eqb i 1.

(** The reference of [twoReferences] that is resolved, its decision, and the
    state the loop ends in. *)
Definition toolsAction : WorkflowAction.t :=
  {| WorkflowAction.line := 2;
     WorkflowAction.original := "  - uses: acme/tools@v1";
     WorkflowAction.repository := "acme/tools";
     WorkflowAction.fullPath := "acme/tools";
     WorkflowAction.currentRef := "v1";
     WorkflowAction.currentComment := "";
     WorkflowAction.hasSkipPinning := false;
     WorkflowAction.indentation := "  " |}.

Definition toolsDecision : UpdateResult.t :=
  UpdateResult.mk 2 "  - uses: acme/tools@v1"
    ("  - uses: acme/tools@" +:+ toolsCommit +:+ " # tag v2.0.0")
    "acme/tools" "v1" "v2.0.0" toolsCommit.

Definition twoReferencesState : Extension.LoopState :=
  Extension.mkLoop [toolsDecision] [] [toolsAction].

(** A host with odd names.  [acme/v]: no release, one tag named [v].
    [acme/blank]: no release, no tag, and an empty default branch name. *)
Definition oddNames : Network := {|
  requestReleases url :=
    if bool_decide (url = api "acme/v/releases") then Return []
    else if bool_decide (url = api "acme/blank/releases") then Return []
    else notFound;
  requestTags url :=
    if bool_decide (url = api "acme/v/tags") then Return [GitHubTag.mk "v" toolsCommit]
    else if bool_decide (url = api "acme/blank/tags") then Return []
    else notFound;
  requestRef url := notFound;
  requestTagObject url := notFound;
  requestRepo url :=
    if bool_decide (url = api "acme/blank") then Return (Some EmptyString)
    else notFound;
  requestCommit url :=
    if bool_decide (url = api "acme/blank/commits/main") then Return trunkCommit
    else notFound
|}.

(** A reference to [acme/v] pinned to a commit, with no comment. *)
Definition pinnedPlain : WorkflowAction.t :=
  {| WorkflowAction.line := 3;
     WorkflowAction.original := "      - uses: acme/v@" +:+ trunkCommit;
     WorkflowAction.repository := "acme/v";
     WorkflowAction.fullPath := "acme/v";
     WorkflowAction.currentRef := trunkCommit;
     WorkflowAction.currentComment := "";
     WorkflowAction.hasSkipPinning := false;
     WorkflowAction.indentation := "      " |}.

(** A workflow with a trigger and a job, its two references, and what the
    command makes of it. *)
Definition ciWorkflow : string :=
  "on: push" +:+ String WorkflowParser.LF "jobs:" +:+
  String WorkflowParser.LF "  build:" +:+
  String WorkflowParser.LF "    steps:" +:+
  String WorkflowParser.LF "      - uses: actions/checkout@main # skip-pinning" +:+
  String WorkflowParser.LF "      - uses: acme/tools@v1".

Definition ciWorkflowPatched : string :=
  "on: push" +:+ String WorkflowParser.LF "jobs:" +:+
  String WorkflowParser.LF "  build:" +:+
  String WorkflowParser.LF "    steps:" +:+
  String WorkflowParser.LF "      - uses: actions/checkout@main # skip-pinning" +:+
  String WorkflowParser.LF ("      - uses: acme/tools@" +:+ toolsCommit +:+ " # tag v2.0.0").

Definition ciToolsAction : WorkflowAction.t :=
  {| WorkflowAction.line := 5;
     WorkflowAction.original := "      - uses: acme/tools@v1";
     WorkflowAction.repository := "acme/tools";
     WorkflowAction.fullPath := "acme/tools";
     WorkflowAction.currentRef := "v1";
     WorkflowAction.currentComment := "";
     WorkflowAction.hasSkipPinning := false;
     WorkflowAction.indentation := "      " |}.

Definition ciState : Extension.LoopState :=
  Extension.mkLoop
    [UpdateResult.mk 5 "      - uses: acme/tools@v1"
       ("      - uses: acme/tools@" +:+ toolsCommit +:+ " # tag v2.0.0")
       "acme/tools" "v1" "v2.0.0" toolsCommit]
    [] [ciToolsAction].

(** A reference pinned to an older commit whose comment has the version
    without its [v]. *)
Definition pinnedBare : WorkflowAction.t :=
  {| WorkflowAction.line := 7;
     WorkflowAction.original :=
       "      - uses: actions/checkout@" +:+ trunkCommit +:+ " # tag 4.2.2";
     WorkflowAction.repository := "actions/checkout";
     WorkflowAction.fullPath := "actions/checkout";
     WorkflowAction.currentRef := trunkCommit;
     WorkflowAction.currentComment := "tag 4.2.2";
     WorkflowAction.hasSkipPinning := false;
     WorkflowAction.indentation := "      " |}.

(** A host where [acme/odd] has no release and one tag whose name holds a
    line feed. *)
Definition lineFeedTag : Network := {|
  requestReleases url :=
    if bool_decide (url = api "acme/odd/releases") then Return [] else notFound;
  requestTags url :=
    if bool_decide (url = api "acme/odd/tags") then
      Return [GitHubTag.mk ("nightly" +:+ String WorkflowParser.LF "x") toolsCommit]
    else notFound;
  requestRef url := notFound;
  requestTagObject url := notFound;
  requestRepo url := notFound;
  requestCommit url := notFound
|}.

End Example.

(* ===================================================================== *)
(** * Lines of a text: split and join                                     *)
(* ===================================================================== *)

Section Lines.
Import Js Predicates.
Variable sep : ascii.

Lemma split_not_nil (s : string) : split sep s <> [].
Proof.
  induction s as [|c s IH]; simpl; [discriminate|].
  destruct (Ascii.eqb c sep); [discriminate|].
  destruct (split sep s); discriminate.
Qed.

Lemma join_cons_char (c : ascii) (x : string) (l : list string) :
  join (String sep EmptyString) (String c x :: l)
  = String c (join (String sep EmptyString) (x :: l)).
Proof. destruct l; reflexivity. Qed.

Lemma join_split (s : string) : join (String sep EmptyString) (split sep s) = s.
Proof.
  induction s as [|c s IH]; simpl; [reflexivity|].
  destruct (Ascii.eqb c sep) eqn:E.
  - apply Ascii.eqb_eq in E; subst c.
    destruct (split sep s) eqn:Es; [exfalso; exact (split_not_nil _ Es)|].
    simpl in *. now rewrite IH.
  - destruct (split sep s) as [|x l] eqn:Es; [exfalso; exact (split_not_nil _ Es)|].
    rewrite join_cons_char. now rewrite IH.
Qed.

Lemma split_sepFree (s : string) :
  Forall (fun x => sepFree sep x = true) (split sep s).
Proof.
  induction s as [|c s IH]; simpl.
  - repeat constructor.
  - destruct (Ascii.eqb c sep) eqn:E.
    + constructor; [reflexivity|exact IH].
    + destruct (split sep s) as [|x l].
      * constructor; [|constructor]. unfold sepFree; simpl. now rewrite E.
      * inversion IH; subst. constructor; [|assumption].
        unfold sepFree in *; simpl. now rewrite E.
Qed.

Lemma split_sepFree_single (x : string) :
  sepFree sep x = true -> split sep x = [x].
Proof.
  induction x as [|c x IH]; simpl; [reflexivity|].
  unfold sepFree; simpl. intros Hx. apply andb_true_iff in Hx as [Hc Hx].
  apply negb_true_iff in Hc. rewrite Hc. now rewrite (IH Hx).
Qed.

Lemma split_app_sep (x rest : string) :
  sepFree sep x = true ->
  split sep (x +:+ String sep rest) = x :: split sep rest.
Proof.
  induction x as [|c x IH]; simpl.
  - intros _. now rewrite Ascii.eqb_refl.
  - unfold sepFree; simpl. intros Hx. apply andb_true_iff in Hx as [Hc Hx].
    apply negb_true_iff in Hc. rewrite Hc. now rewrite (IH Hx).
Qed.

Lemma split_join (l : list string) :
  l <> [] -> Forall (fun x => sepFree sep x = true) l ->
  split sep (join (String sep EmptyString) l) = l.
Proof.
  induction l as [|x l IH]; [congruence|]. intros _ Hall.
  inversion Hall as [|? ? Hx Hl]; subst.
  destruct l as [|y l].
  - simpl. now apply split_sepFree_single.
  - change (join (String sep EmptyString) (x :: y :: l))
      with (x +:+ String sep (join (String sep EmptyString) (y :: l))).
    rewrite split_app_sep by assumption.
    f_equal. apply IH; [discriminate|assumption].
Qed.

End Lines.

(* ===================================================================== *)
(** * The sort keeps the elements                                         *)
(* ===================================================================== *)

Section SortFacts.
Context {A : Type} (cmp : A -> A -> Z).

Lemma elem_of_insertSorted (x y : A) (l : list A) :
  y ∈ Js.insertSorted cmp x l <-> y = x \/ y ∈ l.
Proof.
  induction l as [|z l IH]; simpl.
  - rewrite list_elem_of_singleton. split; [auto|]. intros [->|Hy]; [reflexivity|].
    inversion Hy.
  - destruct (cmp x z <=? 0)%Z.
    + rewrite elem_of_cons. reflexivity.
    + rewrite !elem_of_cons, IH. tauto.
Qed.

Lemma elem_of_sort (y : A) (l : list A) : y ∈ Js.sort cmp l <-> y ∈ l.
Proof.
  induction l as [|x l IH]; simpl; [reflexivity|].
  rewrite elem_of_insertSorted, elem_of_cons, IH. reflexivity.
Qed.

Lemma Consistent_refl (l : list A) (x : A) :
  Predicates.Consistent cmp l -> x ∈ l -> (cmp x x <= 0)%Z.
Proof. intros [Htot _] Hx. destruct (Htot x x Hx Hx); assumption. Qed.

Lemma Consistent_sublist (l l' : list A) :
  (forall a, a ∈ l' -> a ∈ l) -> Predicates.Consistent cmp l -> Predicates.Consistent cmp l'.
Proof.
  intros Hsub [Htot Htrans]. split.
  - intros a b Ha Hb. apply Htot; auto.
  - intros a b c Ha Hb Hc. apply Htrans; auto.
Qed.

(** With a consistent comparator the head of the sorted list is not after any
    element. *)
Lemma head_insertSorted (x : A) (l : list A) :
  Predicates.Consistent cmp (x :: l) ->
  (forall h, head l = Some h -> forall y, y ∈ l -> (cmp h y <= 0)%Z) ->
  forall h, head (Js.insertSorted cmp x l) = Some h ->
  forall y, y ∈ x :: l -> (cmp h y <= 0)%Z.
Proof.
  intros Hc Hl h Hh y Hy.
  assert (Hxx : (cmp x x <= 0)%Z) by (apply (Consistent_refl _ _ Hc); left).
  destruct Hc as [Htot Htrans].
  destruct l as [|z l]; simpl in Hh.
  - injection Hh as <-. apply list_elem_of_singleton in Hy as ->. exact Hxx.
  - assert (Hz : z ∈ x :: z :: l) by (right; left).
    assert (Hx : x ∈ x :: z :: l) by left.
    destruct (cmp x z <=? 0)%Z eqn:E; injection Hh as <-.
    + apply Z.leb_le in E.
      apply elem_of_cons in Hy as [->|Hy]; [exact Hxx|].
      apply (Htrans x z y); [exact Hx|exact Hz|now right|exact E|].
      apply (Hl z); [reflexivity|exact Hy].
    + apply Z.leb_gt in E.
      apply elem_of_cons in Hy as [->|Hy].
      * destruct (Htot x z Hx Hz); [lia|assumption].
      * apply (Hl z); [reflexivity|exact Hy].
Qed.

Lemma head_sort (l : list A) :
  Predicates.Consistent cmp l ->
  forall h, head (Js.sort cmp l) = Some h ->
  forall y, y ∈ l -> (cmp h y <= 0)%Z.
Proof.
  induction l as [|x l IH]; intros Hc h Hh y Hy; [inversion Hy|].
  simpl in Hh.
  assert (Hc' : Predicates.Consistent cmp (x :: Js.sort cmp l)).
  { eapply Consistent_sublist; [|exact Hc].
    intros a Ha. apply elem_of_cons in Ha as [->|Ha]; [left|].
    right. exact (proj1 (elem_of_sort _ _) Ha). }
  assert (Hy' : y ∈ x :: Js.sort cmp l).
  { apply elem_of_cons in Hy as [->|Hy]; [left|].
    right. exact (proj2 (elem_of_sort _ _) Hy). }
  refine (head_insertSorted x (Js.sort cmp l) Hc' _ h Hh y Hy').
  intros h' Hh' y' Hy'0. apply IH; [|exact Hh'|exact (proj1 (elem_of_sort _ _) Hy'0)].
  eapply Consistent_sublist; [|exact Hc]. intros a Ha. now right.
Qed.

Lemma head_sort_None (l : list A) : head (Js.sort cmp l) = None -> l = [].
Proof.
  destruct l as [|x l]; [reflexivity|]. simpl.
  destruct (Js.sort cmp l) as [|z s]; simpl; [discriminate|].
  destruct (cmp x z <=? 0)%Z; discriminate.
Qed.

Lemma consistentb_sound (l : list A) :
  Predicates.consistentb cmp l = true -> Predicates.Consistent cmp l.
Proof.
  unfold Predicates.consistentb. rewrite forallb_forall. intros Hall. split.
  - intros a b Ha Hb.
    apply list_elem_of_In in Ha, Hb.
    specialize (Hall a Ha). rewrite forallb_forall in Hall.
    specialize (Hall b Hb). apply andb_true_iff in Hall as [Ht _].
    apply orb_true_iff in Ht as [Ht|Ht]; apply Z.leb_le in Ht; auto.
  - intros a b c Ha Hb Hc Hab Hbc.
    apply list_elem_of_In in Ha, Hb, Hc.
    specialize (Hall a Ha). rewrite forallb_forall in Hall.
    specialize (Hall b Hb). apply andb_true_iff in Hall as [_ Ht].
    rewrite forallb_forall in Ht. specialize (Ht c Hc).
    apply Z.leb_le in Hab, Hbc. rewrite Hab, Hbc in Ht. simpl in Ht.
    now apply Z.leb_le.
Qed.

End SortFacts.

(* ===================================================================== *)
(** * applyUpdates                                                        *)
(* ===================================================================== *)

Section ApplyUpdates.
Import Js Predicates WorkflowParser.

Lemma applyUpdate_length (lines : list string) (u : UpdateResult.t) :
  length (applyUpdate lines u) = length lines.
Proof.
  unfold applyUpdate. case_bool_decide; [apply length_insert|reflexivity].
Qed.

Lemma applyUpdate_other (lines : list string) (u : UpdateResult.t) (i : nat) :
  UpdateResult.line u <> i -> applyUpdate lines u !! i = lines !! i.
Proof.
  intros Hne. unfold applyUpdate.
  case_bool_decide; [now apply list_lookup_insert_ne|reflexivity].
Qed.

Lemma applyUpdate_Forall (P : string -> Prop) (lines : list string) (u : UpdateResult.t) :
  Forall P lines -> P (UpdateResult.updated u) -> Forall P (applyUpdate lines u).
Proof.
  intros Hl Hu. unfold applyUpdate.
  case_bool_decide; [now apply Forall_insert|assumption].
Qed.

Lemma fold_applyUpdate_length (us : list UpdateResult.t) (lines : list string) :
  length (fold_left applyUpdate us lines) = length lines.
Proof.
  revert lines. induction us as [|u us IH]; intros lines; simpl; [reflexivity|].
  now rewrite IH, applyUpdate_length.
Qed.

Lemma fold_applyUpdate_other (us : list UpdateResult.t) (lines : list string) (i : nat) :
  (forall u, u ∈ us -> UpdateResult.line u <> i) ->
  fold_left applyUpdate us lines !! i = lines !! i.
Proof.
  revert lines. induction us as [|u us IH]; intros lines Hne; simpl; [reflexivity|].
  rewrite IH by (intros u' Hu'; apply Hne; now right).
  apply applyUpdate_other, Hne. left.
Qed.

Lemma fold_applyUpdate_Forall (P : string -> Prop) (us : list UpdateResult.t)
    (lines : list string) :
  Forall P lines -> (forall u, u ∈ us -> P (UpdateResult.updated u)) ->
  Forall P (fold_left applyUpdate us lines).
Proof.
  revert lines. induction us as [|u us IH]; intros lines Hl Hu; simpl; [assumption|].
  apply IH.
  - apply applyUpdate_Forall; [assumption|]. apply Hu. left.
  - intros u' Hu'. apply Hu. now right.
Qed.

(** The lines of the patched text are the patched lines, when no replacement
    holds a line feed. *)
Lemma linesOf_applyUpdates (content : string) (updates : list UpdateResult.t) :
  Forall (fun u => sepFree LF (UpdateResult.updated u) = true) updates ->
  linesOf (applyUpdates content updates)
  = fold_left applyUpdate
      (sort (fun a b => (Z.of_nat (UpdateResult.line b) - Z.of_nat (UpdateResult.line a))%Z)
            updates)
      (linesOf content).
Proof.
  intros Hfree. unfold linesOf, applyUpdates.
  apply split_join.
  - intros Hnil. apply (f_equal length) in Hnil.
    rewrite fold_applyUpdate_length in Hnil.
    destruct (split LF content) eqn:E; [exact (split_not_nil _ _ E)|discriminate].
  - apply fold_applyUpdate_Forall; [apply split_sepFree|].
    intros u Hu. apply (proj1 (elem_of_sort _ _ _)) in Hu.
    rewrite Forall_forall in Hfree. apply Hfree. exact Hu.
Qed.

End ApplyUpdates.

(** C8. Applying the rewrite engine with an empty decision list returns the
    input text exactly, character for character. *)
Theorem applyUpdates_nil (content : string) :
  WorkflowParser.applyUpdates content [] = content.
Proof.
  unfold WorkflowParser.applyUpdates. simpl. apply join_split.
Qed.

(** C7 (amended). For every text and every decision list whose line indices
    are within bounds and whose replacement lines hold no line feed,
    applyUpdates returns a text with exactly as many lines as the input, and
    every line whose index no decision names is the input line at that
    index. *)
Theorem applyUpdates_frame (content : string) (updates : list UpdateResult.t) :
  Forall (fun u => UpdateResult.line u < length (Predicates.linesOf content)) updates ->
  Forall (fun u => Predicates.sepFree WorkflowParser.LF (UpdateResult.updated u) = true) updates ->
  length (Predicates.linesOf (WorkflowParser.applyUpdates content updates))
    = length (Predicates.linesOf content) /\
  forall i : nat,
    (forall u, u ∈ updates -> UpdateResult.line u <> i) ->
    Predicates.linesOf (WorkflowParser.applyUpdates content updates) !! i
      = Predicates.linesOf content !! i.
Proof.
  intros _ Hfree. rewrite (linesOf_applyUpdates content updates Hfree). split.
  - apply fold_applyUpdate_length.
  - intros i Hi. apply fold_applyUpdate_other.
    intros u Hu. apply Hi. exact (proj1 (elem_of_sort _ _ _) Hu).
Qed.

(** A text of three lines with one decision for its second line. *)
Lemma applyUpdates_frame_witness :
  WorkflowParser.applyUpdates Example.workflow Example.decisions = Example.patched /\
  length (Predicates.linesOf (WorkflowParser.applyUpdates Example.workflow Example.decisions))
    = 3 /\
  Predicates.linesOf (WorkflowParser.applyUpdates Example.workflow Example.decisions) !! 2
    = Some "  - run: make".
Proof.
  assert (Hb : Forall (fun u => UpdateResult.line u < length (Predicates.linesOf Example.workflow))
                 Example.decisions).
  { apply List.Forall_cons; [vm_compute; lia|apply List.Forall_nil]. }
  assert (Hf : Forall (fun u => Predicates.sepFree WorkflowParser.LF (UpdateResult.updated u) = true)
                 Example.decisions).
  { apply List.Forall_cons; [vm_compute; reflexivity|apply List.Forall_nil]. }
  destruct (applyUpdates_frame Example.workflow Example.decisions Hb Hf) as [Hlen Hother].
  split; [vm_compute; reflexivity|]. split.
  - rewrite Hlen. vm_compute. reflexivity.
  - rewrite (Hother 2); [vm_compute; reflexivity|].
    intros u Hu. apply list_elem_of_singleton in Hu as ->. vm_compute. lia.
Defined.

(** C7, as stated, fails: a replacement that holds a line feed is within
    bounds, and the patched text has one more line and another line 1. *)
Lemma applyUpdates_frame_counterexample :
  Forall (fun u => UpdateResult.line u < length (Predicates.linesOf Example.twoLines))
    Example.multilineDecision /\
  length (Predicates.linesOf Example.twoLines) = 2 /\
  length (Predicates.linesOf
            (WorkflowParser.applyUpdates Example.twoLines Example.multilineDecision)) = 3 /\
  (forall u, u ∈ Example.multilineDecision -> UpdateResult.line u <> 1) /\
  Predicates.linesOf Example.twoLines !! 1 = Some "b" /\
  Predicates.linesOf (WorkflowParser.applyUpdates Example.twoLines Example.multilineDecision) !! 1
    = Some "y".
Proof.
  split; [apply List.Forall_cons; [vm_compute; lia|apply List.Forall_nil]|].
  split; [vm_compute; reflexivity|].
  split; [vm_compute; reflexivity|].
  split; [|split; vm_compute; reflexivity].
  intros u Hu. apply list_elem_of_singleton in Hu as ->. vm_compute. lia.
Qed.

(** C10. A reference marked skip-pinning is rewritten to its own source line,
    whatever the version and the commit. *)
Theorem updateActionLine_skip (action : WorkflowAction.t) (newVersion newCommit : string) :
  WorkflowAction.hasSkipPinning action = true ->
  WorkflowParser.updateActionLine action newVersion newCommit
    = WorkflowAction.original action.
Proof.
  intros Hskip. unfold WorkflowParser.updateActionLine. now rewrite Hskip.
Qed.

Lemma updateActionLine_skip_witness :
  WorkflowParser.updateActionLine Example.skippedCheckout "v4.2.2" Example.checkoutCommit
    = "  - uses: actions/checkout@main # skip-pinning".
Proof.
  apply (updateActionLine_skip Example.skippedCheckout "v4.2.2" Example.checkoutCommit).
  vm_compute. reflexivity.
Defined.

(* ===================================================================== *)
(** * The rewrite decision                                                *)
(* ===================================================================== *)

Section Decision.
Import Predicates WorkflowParser Extension.

Lemma areVersionsEqual_true (v1 v2 : string) :
  areVersionsEqual v1 v2 = true <-> normalizeVersion v1 = normalizeVersion v2.
Proof. unfold areVersionsEqual. apply bool_decide_eq_true. Qed.

(** normalizeVersion gives every version but the empty one a leading [v], and
    leaves the empty one empty. *)
Lemma normalizeVersion_leading_v (version : string) :
  version <> EmptyString -> Js.startsWith "v" (normalizeVersion version) = true.
Proof.
  intros Hne. unfold normalizeVersion.
  destruct version as [|c s]; [congruence|].
  destruct (Js.startsWith "v" (String c s)) eqn:E; [exact E|reflexivity].
Qed.

Lemma normalizeVersion_empty : normalizeVersion EmptyString = EmptyString.
Proof. reflexivity. Qed.

Lemma decideUpdate_None (action : WorkflowAction.t) (updateInfo : ActionUpdate.t) :
  decideUpdate action updateInfo = None <-> UpToDate action updateInfo.
Proof.
  unfold decideUpdate, UpToDate.
  destruct (bool_decide (String.length (WorkflowAction.currentRef action) = 40)) eqn:Epin;
    [apply bool_decide_eq_true in Epin | apply bool_decide_eq_false in Epin].
  - destruct (areVersionsEqual _ _) eqn:Ever; simpl.
    + apply areVersionsEqual_true in Ever. tauto.
    + assert (Hv : ~ normalizeVersion
                       (extractVersionFromComment (WorkflowAction.currentComment action))
                     = normalizeVersion (ActionUpdate.latestVersion updateInfo)).
      { intros Hv. apply areVersionsEqual_true in Hv. congruence. }
      case_bool_decide as Ecom; simpl; [tauto|].
      split; [discriminate|]. intros [_ [?|?]]; contradiction.
  - simpl. split; [discriminate|]. tauto.
Qed.

End Decision.

(* ===================================================================== *)
(** * The resolver                                                        *)
(* ===================================================================== *)

Section Resolver.
Import Predicates GitHubApiService.
Context `{SemverLib} `{Network}.

(** The two filters of findLatestSemverRelease keep the qualifying releases. *)
Lemma filter_filter_qualifying (releases : list GitHubRelease.t) :
  filter (fun release => semver_valid (GitHubRelease.tag_name release) = true)
    (filter (fun release => GitHubRelease.prerelease release = false) releases)
  = qualifying releases.
Proof.
  unfold qualifying. induction releases as [|r l IH]; [reflexivity|].
  rewrite (filter_cons (fun release => GitHubRelease.prerelease release = false)).
  rewrite (filter_cons (fun r => GitHubRelease.prerelease r = false /\
                                 semver_valid (GitHubRelease.tag_name r) = true)).
  destruct (decide (GitHubRelease.prerelease r = false)) as [Hp|Hp].
  - rewrite filter_cons.
    destruct (decide (semver_valid (GitHubRelease.tag_name r) = true)) as [Hv|Hv].
    + rewrite decide_True by tauto. now rewrite IH.
    + rewrite decide_False by tauto. exact IH.
  - rewrite decide_False by tauto. exact IH.
Qed.

Lemma Consistent_tags (l : list GitHubRelease.t) :
  Consistent semver_compare (GitHubRelease.tag_name <$> l) ->
  Consistent (fun a b => semver_rcompare (GitHubRelease.tag_name a)
                                         (GitHubRelease.tag_name b)) l.
Proof.
  intros [Htot Htrans]. unfold semver_rcompare. split.
  - intros a b Ha Hb.
    destruct (Htot (GitHubRelease.tag_name a) (GitHubRelease.tag_name b));
      [now apply list_elem_of_fmap_2..| |]; tauto.
  - intros a b c Ha Hb Hc Hab Hbc.
    apply (Htrans (GitHubRelease.tag_name c) (GitHubRelease.tag_name b)
                  (GitHubRelease.tag_name a)); try assumption;
      now apply list_elem_of_fmap_2.
Qed.

(** What findLatestSemverRelease selects, under a consistent ordering of the
    qualifying tags. *)
Lemma findLatestSemverRelease_selects (releases : list GitHubRelease.t) :
  Consistent semver_compare (GitHubRelease.tag_name <$> qualifying releases) ->
  match findLatestSemverRelease releases with
  | Some latest =>
      latest ∈ qualifying releases /\
      forall r, r ∈ qualifying releases ->
        (semver_compare (GitHubRelease.tag_name r) (GitHubRelease.tag_name latest) <= 0)%Z
  | None => qualifying releases = []
  end.
Proof.
  intros Hcons. unfold findLatestSemverRelease.
  rewrite filter_filter_qualifying.
  apply Consistent_tags in Hcons.
  destruct (head (Js.sort _ (qualifying releases))) as [latest|] eqn:Eh.
  - split.
    + apply (elem_of_sort (fun a b => semver_rcompare (GitHubRelease.tag_name a)
                                        (GitHubRelease.tag_name b))).
      apply head_Some_elem_of. exact Eh.
    + intros r Hr. exact (head_sort _ _ Hcons latest Eh r Hr).
  - now apply head_sort_None in Eh.
Qed.

Lemma elem_of_qualifying (releases : list GitHubRelease.t) (r : GitHubRelease.t) :
  r ∈ qualifying releases <->
  r ∈ releases /\ GitHubRelease.prerelease r = false /\
  semver_valid (GitHubRelease.tag_name r) = true.
Proof. unfold qualifying. rewrite list_elem_of_filter. tauto. Qed.

End Resolver.

(** C3. For every list of releases, the releases tier selects a release that
    is not a pre-release and whose tag is a valid semantic version, and no
    such release of the list has a greater tag under the ordering of
    [semver.compare]; its tag is the display version returned.  When no
    release qualifies the tier yields nothing and the resolver goes on to the
    tags.  The ordering is the package's: it is taken to order the qualifying
    tags consistently. *)
Theorem findLatestSemverRelease_maximum `{SemverLib} `{Network}
    (releases : list GitHubRelease.t) :
  Predicates.Consistent semver_compare (GitHubRelease.tag_name <$> Predicates.qualifying releases) ->
  match GitHubApiService.findLatestSemverRelease releases with
  | Some latest =>
      latest ∈ releases /\
      GitHubRelease.prerelease latest = false /\
      semver_valid (GitHubRelease.tag_name latest) = true /\
      (forall r, r ∈ releases ->
         GitHubRelease.prerelease r = false ->
         semver_valid (GitHubRelease.tag_name r) = true ->
         (semver_compare (GitHubRelease.tag_name r) (GitHubRelease.tag_name latest) <= 0)%Z) /\
      (forall repository commit,
         GitHubApiService.getReleases repository = Return releases ->
         GitHubApiService.getCommitForTag repository (GitHubRelease.tag_name latest)
           = Return commit ->
         GitHubApiService.getLatestActionVersion repository
           = Return (Some (ActionUpdate.mk "" (GitHubRelease.tag_name latest) commit
                             repository)))
  | None =>
      (forall r, r ∈ releases ->
         ~ (GitHubRelease.prerelease r = false /\
            semver_valid (GitHubRelease.tag_name r) = true)) /\
      (forall repository result,
         GitHubApiService.getReleases repository = Return releases ->
         GitHubApiService.fromTagsOrBranch repository = Return result ->
         GitHubApiService.getLatestActionVersion repository = Return result)
  end.
Proof.
  intros Hcons.
  pose proof (findLatestSemverRelease_selects releases Hcons) as Hsel.
  destruct (GitHubApiService.findLatestSemverRelease releases) as [latest|] eqn:Efind.
  - destruct Hsel as [Hin Hmax].
    apply elem_of_qualifying in Hin as [Hin [Hp Hv]].
    split; [assumption|]. split; [assumption|]. split; [assumption|]. split.
    + intros r Hr Hrp Hrv. apply Hmax. apply elem_of_qualifying. tauto.
    + intros repository commit Hrel Hcommit.
      unfold GitHubApiService.getLatestActionVersion. rewrite Hrel. simpl.
      assert (Hlen : 0 < length releases).
      { destruct releases; [inversion Hin|simpl; lia]. }
      rewrite (bool_decide_eq_true_2 _ Hlen), Efind. simpl.
      rewrite Hcommit. reflexivity.
  - split.
    + intros r Hr Hq.
      assert (Hin : r ∈ Predicates.qualifying releases) by (apply elem_of_qualifying; tauto).
      rewrite Hsel in Hin. inversion Hin.
    + intros repository result Hrel Hrest.
      unfold GitHubApiService.getLatestActionVersion. rewrite Hrel. simpl.
      rewrite Efind.
      replace (if bool_decide (0 < length releases) then None else None)
        with (@None GitHubRelease.t) by (now destruct (bool_decide _)).
      rewrite Hrest. reflexivity.
Qed.

(** The release set of the specification: pre-release v5.0.0-beta and stable
    v4.9.0 select v4.9.0. *)
Lemma findLatestSemverRelease_maximum_witness :
  @GitHubApiService.findLatestSemverRelease Semver_lib Example.betaAndStable
    = Some Example.stable /\
  (forall r, r ∈ Example.betaAndStable ->
     GitHubRelease.prerelease r = false ->
     Semver.valid (GitHubRelease.tag_name r) = true ->
     (Semver.compare (GitHubRelease.tag_name r) "v4.9.0" <= 0)%Z).
Proof.
  assert (Hc : Predicates.Consistent (@semver_compare Semver_lib)
                 (GitHubRelease.tag_name <$> @Predicates.qualifying Semver_lib Example.betaAndStable)).
  { apply consistentb_sound. vm_compute. reflexivity. }
  pose proof (@findLatestSemverRelease_maximum Semver_lib Example.github
                Example.betaAndStable Hc) as Hmax.
  assert (E : @GitHubApiService.findLatestSemverRelease Semver_lib Example.betaAndStable
              = Some Example.stable) by (vm_compute; reflexivity).
  rewrite E in Hmax. split; [exact E|].
  apply Hmax.
Defined.

(** The releases of [actions/checkout] on the small GitHub: pre-releases and
    the tag that is not a version are left out, v4.2.2 is above v4.1.0. *)
Example findLatestSemverRelease_checkout :
  @GitHubApiService.findLatestSemverRelease Semver_lib
    [GitHubRelease.mk "v5.0.0-beta" "main" true;
     GitHubRelease.mk "v4.2.2" "main" false;
     GitHubRelease.mk "v4.9.0" "main" true;
     GitHubRelease.mk "nightly" "main" false;
     GitHubRelease.mk "v4.1.0" "main" false]
  = Some (GitHubRelease.mk "v4.2.2" "main" false).
Proof. vm_compute. reflexivity. Qed.



(** C5, at the release of [acme/draft]: the ref request fails, the tag list
    does not hold the tag, and the resolver returns an empty commit. *)
Example getCommitForTag_empty_commit :
  @GitHubApiService.getCommitForTag Example.github "acme/draft" "v9.0.0"
    = Return EmptyString /\
  @GitHubApiService.getLatestActionVersion Semver_lib Example.github "acme/draft"
    = Return (Some (ActionUpdate.mk "" "v9.0.0" EmptyString "acme/draft")).
Proof. split; vm_compute; reflexivity. Qed.

(* ===================================================================== *)
(** * Strings: prefixes, greedy classes, search                           *)
(* ===================================================================== *)

Section StringFacts.
Import Js Predicates.
#[local] Arguments String.append : simpl nomatch.

Lemma app_empty_r (s : string) : s +:+ EmptyString = s.
Proof. induction s as [|c s IH]; simpl; [reflexivity|now rewrite IH]. Qed.

Lemma app_assoc (a b c : string) : (a +:+ b) +:+ c = a +:+ (b +:+ c).
Proof. induction a as [|x a IH]; simpl; [reflexivity|now rewrite IH]. Qed.

Lemma all_app (p : ascii -> bool) (a b : string) :
  all p (a +:+ b) = all p a && all p b.
Proof.
  induction a as [|c a IH]; simpl; [reflexivity|].
  now rewrite IH, andb_assoc.
Qed.

Lemma all_impl (p q : ascii -> bool) (s : string) :
  (forall c, p c = true -> q c = true) -> all p s = true -> all q s = true.
Proof.
  intros Hpq. induction s as [|c s IH]; simpl; [reflexivity|].
  intros Hs. apply andb_true_iff in Hs as [Hc Hs].
  now rewrite (Hpq c Hc), (IH Hs).
Qed.

Lemma span_spec (p : ascii -> bool) (s a b : string) :
  span p s = (a, b) -> s = a +:+ b /\ all p a = true /\ stopsAt p b.
Proof.
  revert a b. induction s as [|c s IH]; simpl; intros a b E.
  - injection E as <- <-. repeat split.
  - destruct (p c) eqn:Ec.
    + destruct (span p s) as [a' b'] eqn:Es. injection E as <- <-.
      destruct (IH a' b' eq_refl) as [-> [Ha Hb]].
      split; [reflexivity|]. split; [|exact Hb].
      simpl. now rewrite Ec, Ha.
    + injection E as <- <-. split; [reflexivity|]. split; [reflexivity|exact Ec].
Qed.

Lemma span_app (p : ascii -> bool) (a b : string) :
  all p a = true -> stopsAt p b -> span p (a +:+ b) = (a, b).
Proof.
  intros Ha Hb. induction a as [|c a IH]; simpl in *.
  - destruct b as [|c b]; [reflexivity|]. simpl in *. now rewrite Hb.
  - apply andb_true_iff in Ha as [Hc Ha]. now rewrite Hc, (IH Ha).
Qed.

Lemma stripPrefix_app (p s : string) : stripPrefix p (p +:+ s) = Some s.
Proof.
  induction p as [|c p IH]; simpl; [reflexivity|]. now rewrite Ascii.eqb_refl.
Qed.

Lemma stripPrefix_Some (p s r : string) : stripPrefix p s = Some r -> s = p +:+ r.
Proof.
  revert s. induction p as [|c p IH]; intros s; simpl.
  - now intros [= ->].
  - destruct s as [|d s]; [discriminate|].
    destruct (Ascii.eqb c d) eqn:E; [|discriminate].
    apply Ascii.eqb_eq in E as ->. intros Hs. now rewrite (IH s Hs).
Qed.

Lemma includes_Contains (p s : string) : includes p s = true <-> Contains p s.
Proof.
  split.
  - induction s as [|c s IH]; simpl; unfold startsWith.
    + destruct (stripPrefix p EmptyString) as [r|] eqn:E; [|discriminate].
      intros _. exists EmptyString, r. simpl. now apply stripPrefix_Some.
    + destruct (stripPrefix p (String c s)) as [r|] eqn:E; simpl.
      * intros _. exists EmptyString, r. simpl. now apply stripPrefix_Some.
      * intros Hs. destruct (IH Hs) as [pre [post ->]].
        exists (String c pre), post. reflexivity.
  - intros [pre [post ->]]. induction pre as [|c pre IH]; simpl.
    + destruct (p +:+ post) eqn:E; simpl; unfold startsWith;
        rewrite <- E, stripPrefix_app; reflexivity.
    + rewrite IH. apply orb_true_r.
Qed.

Lemma stripPrefixCI_Some (p s r : string) :
  stripPrefixCI p s = Some r -> exists m, s = m +:+ r /\ eqCI p m = true.
Proof.
  revert s. induction p as [|c p IH]; intros s; simpl.
  - intros [= ->]. now exists EmptyString.
  - destruct s as [|d s]; [discriminate|].
    destruct (charEqCI c d) eqn:E; [|discriminate].
    intros Hs. destruct (IH s Hs) as [m [-> Hm]].
    exists (String d m). simpl. now rewrite E, Hm.
Qed.

Lemma stripPrefixCI_app (p m s : string) :
  eqCI p m = true -> stripPrefixCI p (m +:+ s) = Some s.
Proof.
  revert m. induction p as [|c p IH]; intros [|d m]; simpl; try discriminate.
  - reflexivity.
  - intros Hm. apply andb_true_iff in Hm as [Hc Hm]. rewrite Hc. now apply IH.
Qed.

Lemma testCI_ContainsCI (p s : string) : testCI p s = true <-> ContainsCI p s.
Proof.
  split.
  - induction s as [|c s IH]; simpl.
    + destruct (stripPrefixCI p EmptyString) as [r|] eqn:E; [|discriminate].
      intros _. destruct (stripPrefixCI_Some _ _ _ E) as [m [Hs Hm]].
      exists EmptyString, m, r. now split.
    + destruct (stripPrefixCI p (String c s)) as [r|] eqn:E; simpl.
      * intros _. destruct (stripPrefixCI_Some _ _ _ E) as [m [Hs Hm]].
        exists EmptyString, m, r. now split.
      * intros Hs. destruct (IH Hs) as [pre [m [post [-> Hm]]]].
        exists (String c pre), m, post. now split.
  - intros [pre [m [post [-> Hm]]]]. induction pre as [|c pre IH]; simpl.
    + destruct (m +:+ post) eqn:E; simpl;
        rewrite <- E, (stripPrefixCI_app _ _ _ Hm); reflexivity.
    + rewrite IH. apply orb_true_r.
Qed.

(** Canonicalize keeps white space white space and nothing else. *)
Lemma isWhiteSpace_canonicalize (c : ascii) :
  isWhiteSpace (canonicalize c) = isWhiteSpace c.
Proof. destruct c as [[] [] [] [] [] [] [] []]; reflexivity. Qed.

Lemma charEqCI_whiteSpace (p c : ascii) :
  charEqCI p c = true -> isWhiteSpace c = isWhiteSpace p.
Proof.
  unfold charEqCI. intros E. apply Ascii.eqb_eq in E.
  now rewrite <- (isWhiteSpace_canonicalize c), <- E, isWhiteSpace_canonicalize.
Qed.

Lemma isPrefixCI_cons (a : ascii) (p : string) (b : ascii) (s : string) :
  isPrefixCI (String a p) (String b s) = charEqCI a b && isPrefixCI p s.
Proof. unfold isPrefixCI. simpl. now destruct (charEqCI a b). Qed.

Lemma isPrefixCI_trimEnd (p s : string) :
  all (fun c => negb (isWhiteSpace c)) p = true ->
  isPrefixCI p (trimEnd s) = isPrefixCI p s.
Proof.
  revert p. induction s as [|c s IH]; intros p Hp; [reflexivity|].
  destruct p as [|a p]; [reflexivity|].
  simpl in Hp. apply andb_true_iff in Hp as [Ha Hp]. apply negb_true_iff in Ha.
  rewrite isPrefixCI_cons, <- (IH p Hp). simpl.
  destruct (trimEnd s) as [|d t] eqn:Et.
  - destruct (isWhiteSpace c) eqn:Ec.
    + destruct (charEqCI a c) eqn:Eac; [|reflexivity].
      apply charEqCI_whiteSpace in Eac. congruence.
    + now rewrite isPrefixCI_cons.
  - now rewrite isPrefixCI_cons.
Qed.

Lemma testCI_unfold (p : string) (c : ascii) (s : string) :
  testCI p (String c s) = isPrefixCI p (String c s) || testCI p s.
Proof. reflexivity. Qed.

Lemma testCI_trimEnd (a : ascii) (p s : string) :
  all (fun c => negb (isWhiteSpace c)) (String a p) = true ->
  testCI (String a p) (trimEnd s) = testCI (String a p) s.
Proof.
  intros Hp. induction s as [|c s IH]; [reflexivity|].
  rewrite testCI_unfold, <- IH, <- (isPrefixCI_trimEnd _ (String c s) Hp).
  simpl trimEnd.
  destruct (trimEnd s) as [|d t] eqn:Et.
  - destruct (isWhiteSpace c) eqn:Ec; reflexivity.
  - reflexivity.
Qed.

Lemma testCI_trimStart (a : ascii) (p s : string) :
  isWhiteSpace a = false ->
  testCI (String a p) (trimStart s) = testCI (String a p) s.
Proof.
  intros Ha. induction s as [|c s IH]; [reflexivity|].
  simpl trimStart. destruct (isWhiteSpace c) eqn:Ec; [|reflexivity].
  rewrite testCI_unfold, isPrefixCI_cons, IH.
  destruct (charEqCI a c) eqn:Eac; [|reflexivity].
  apply charEqCI_whiteSpace in Eac. congruence.
Qed.

Lemma testCI_trim (a : ascii) (p s : string) :
  all (fun c => negb (isWhiteSpace c)) (String a p) = true ->
  testCI (String a p) (trim s) = testCI (String a p) s.
Proof.
  intros Hp. unfold trim. rewrite (testCI_trimEnd _ _ _ Hp).
  apply testCI_trimStart. simpl in Hp.
  apply andb_true_iff in Hp as [Ha _]. now apply negb_true_iff in Ha.
Qed.

(** A token without white space is its own trim. *)
Lemma trimEnd_id (s : string) :
  all (fun c => negb (isWhiteSpace c)) s = true -> trimEnd s = s.
Proof.
  induction s as [|c s IH]; simpl; [reflexivity|].
  intros Hs. apply andb_true_iff in Hs as [Hc Hs]. apply negb_true_iff in Hc.
  rewrite (IH Hs), Hc. now destruct s.
Qed.

Lemma trim_id (s : string) :
  all (fun c => negb (isWhiteSpace c)) s = true -> trim s = s.
Proof.
  intros Hs. unfold trim.
  assert (E : trimStart s = s).
  { destruct s as [|c s]; [reflexivity|]. simpl in *.
    apply andb_true_iff in Hs as [Hc _]. apply negb_true_iff in Hc. now rewrite Hc. }
  rewrite E. now apply trimEnd_id.
Qed.

End StringFacts.

(* ===================================================================== *)
(** * ACTION_REGEX matches the grammar of a reference line                *)
(* ===================================================================== *)

Section Grammar.
Import Js Predicates WorkflowParser.
#[local] Arguments String.append : simpl nomatch.

Lemma plus_Some (p : ascii -> bool) (s a b : string) :
  plus p s = Some (a, b) ->
  a <> EmptyString /\ s = a +:+ b /\ all p a = true /\ stopsAt p b.
Proof.
  unfold plus. destruct (span p s) as [a' b'] eqn:E.
  destruct a' as [|c a']; [discriminate|]. intros [= <- <-].
  split; [discriminate|]. now apply span_spec.
Qed.

Lemma plus_app (p : ascii -> bool) (a b : string) :
  a <> EmptyString -> all p a = true -> stopsAt p b -> plus p (a +:+ b) = Some (a, b).
Proof.
  intros Hne Ha Hb. unfold plus. rewrite (span_app p a b Ha Hb).
  destruct a; [congruence|reflexivity].
Qed.

Lemma optionalMarker_sound (r : string) :
  exists marker, r = marker +:+ optionalMarker r /\ isMarker marker.
Proof.
  unfold optionalMarker.
  destruct (stripPrefix "-" r) as [t|] eqn:Et; simpl.
  - apply stripPrefix_Some in Et.
    destruct (plus isWhiteSpace t) as [[ws t']|] eqn:Ep.
    + apply plus_Some in Ep as [Hne [-> [Hws _]]].
      exists (String "-"%char ws). split; [now rewrite Et|].
      right. now exists ws.
    + exists EmptyString. split; [reflexivity|now left].
  - exists EmptyString. split; [reflexivity|now left].
Qed.

Lemma optionalMarker_complete (marker rest : string) :
  isMarker marker ->
  optionalMarker (marker +:+ "uses:" +:+ rest) = "uses:" +:+ rest.
Proof.
  intros [->|[ws [-> [Hne Hws]]]]; [reflexivity|].
  unfold optionalMarker.
  change (String "-"%char ws +:+ "uses:" +:+ rest)
    with ("-" +:+ (ws +:+ "uses:" +:+ rest)).
  rewrite stripPrefix_app. cbn [mbind option_bind].
  rewrite (plus_app isWhiteSpace ws ("uses:" +:+ rest) Hne Hws); reflexivity.
Qed.

Lemma isRefChar_not_blank (c : ascii) : isWhiteSpace c = true -> isRefChar c = false.
Proof. unfold isRefChar. now intros ->. Qed.

Lemma isPathChar_not_blank (c : ascii) : isPathChar c = true -> isWhiteSpace c = false.
Proof.
  unfold isPathChar. intros H. apply andb_true_iff in H as [_ H].
  now apply negb_true_iff in H.
Qed.

Lemma isRefChar_not_blank' (c : ascii) : isRefChar c = true -> isWhiteSpace c = false.
Proof.
  unfold isRefChar. intros H. apply andb_true_iff in H as [H _].
  now apply negb_true_iff in H.
Qed.

Lemma isTrailer_stops (trailer : string) (comment : option string) :
  isTrailer trailer comment -> stopsAt isRefChar trailer.
Proof.
  destruct comment as [c|]; simpl.
  - intros [ws1 [ws2 [-> [H1 _]]]].
    destruct ws1 as [|w ws1]; [reflexivity|]. simpl in *.
    apply andb_true_iff in H1 as [Hw _]. now apply isRefChar_not_blank.
  - now intros ->.
Qed.

Theorem ACTION_REGEX_sound (line indent path ref : string) (comment : option string) :
  ACTION_REGEX line = Some (indent, path, ref, comment) ->
  ReferenceLine line indent path ref comment.
Proof.
  unfold ACTION_REGEX.
  destruct (span isWhiteSpace line) as [ind r0] eqn:E0.
  apply span_spec in E0 as [-> [Hind _]].
  destruct (optionalMarker_sound r0) as [marker [Er0 Hmarker]].
  destruct (stripPrefix "uses:" (optionalMarker r0)) as [r1|] eqn:E1; [|discriminate].
  apply stripPrefix_Some in E1. cbn [mbind option_bind].
  destruct (plus isWhiteSpace r1) as [[ws r2]|] eqn:E2; [|discriminate].
  apply plus_Some in E2 as [Hwsne [-> [Hws _]]]. cbn [mbind option_bind].
  destruct (plus isPathChar r2) as [[fullPath r3]|] eqn:E3; [|discriminate].
  apply plus_Some in E3 as [Hpne [-> [Hpath _]]]. cbn [mbind option_bind].
  destruct (stripPrefix "@" r3) as [r4|] eqn:E4; [|discriminate].
  apply stripPrefix_Some in E4 as ->. cbn [mbind option_bind].
  destruct (plus isRefChar r4) as [[ref0 r5]|] eqn:E5; [|discriminate].
  apply plus_Some in E5 as [Hrne [-> [Href Hstop]]]. cbn [mbind option_bind].
  assert (Hline : forall trailer,
            r5 = trailer ->
            ind +:+ r0 = ind +:+ marker +:+ "uses:" +:+ ws +:+ fullPath +:+ "@" +:+
                         ref0 +:+ trailer).
  { intros trailer <-. rewrite Er0 at 1. now rewrite E1. }
  destruct r5 as [|c r5].
  - intros [= <- <- <- <-].
    exists marker, ws, EmptyString. repeat split; auto.
  - destruct (span isWhiteSpace (String c r5)) as [ws1 r6] eqn:E6.
    apply span_spec in E6 as [E6 [Hws1 _]].
    destruct (stripPrefix "#" r6) as [r7|] eqn:E7; [|discriminate].
    apply stripPrefix_Some in E7 as ->. cbn [mbind option_bind].
    destruct (span isWhiteSpace r7) as [ws2 c0] eqn:E8.
    apply span_spec in E8 as [-> [Hws2 Hc0]].
    destruct (all notLineTerminator c0) eqn:Elt; [|discriminate].
    intros [= <- <- <- <-].
    exists marker, ws, (ws1 +:+ "#" +:+ ws2 +:+ c0).
    split; [apply Hline; now rewrite E6|].
    repeat split; auto.
    exists ws1, ws2. repeat split; auto.
Qed.

Theorem ACTION_REGEX_complete (line indent path ref : string) (comment : option string) :
  ReferenceLine line indent path ref comment ->
  ACTION_REGEX line = Some (indent, path, ref, comment).
Proof.
  intros [marker [ws [trailer [-> [Hind [Hmarker [Hwsne [Hws [[Hpne Hpath] [[Hrne Href] Htr]]]]]]]]]].
  unfold ACTION_REGEX.
  assert (Hstop0 : stopsAt isWhiteSpace
            (marker +:+ "uses:" +:+ ws +:+ path +:+ "@" +:+ ref +:+ trailer)).
  { destruct Hmarker as [->|[ws' [-> _]]]; reflexivity. }
  rewrite (span_app isWhiteSpace indent _ Hind Hstop0).
  rewrite (optionalMarker_complete marker _ Hmarker).
  rewrite stripPrefix_app. cbn [mbind option_bind].
  assert (Hstop1 : stopsAt isWhiteSpace (path +:+ "@" +:+ ref +:+ trailer)).
  { destruct path as [|c path]; [congruence|]. simpl in *.
    apply andb_true_iff in Hpath as [Hc _]. now apply isPathChar_not_blank. }
  rewrite (plus_app isWhiteSpace ws _ Hwsne Hws Hstop1). cbn [mbind option_bind].
  rewrite (plus_app isPathChar path ("@" +:+ ref +:+ trailer) Hpne Hpath eq_refl). cbn [mbind option_bind].
  change ("@" +:+ ref +:+ trailer) with ("@" +:+ (ref +:+ trailer)).
  rewrite stripPrefix_app. cbn [mbind option_bind].
  rewrite (plus_app isRefChar ref trailer Hrne Href (isTrailer_stops _ _ Htr)). cbn [mbind option_bind].
  destruct comment as [c|]; cbn [isTrailer] in Htr.
  - destruct Htr as [ws1 [ws2 [-> [Hws1 [Hws2 [Hstopc Hlt]]]]]].
    remember (ws1 +:+ "#" +:+ ws2 +:+ c) as trailer eqn:Et.
    destruct trailer as [|x t]; [destruct ws1; discriminate|].
    rewrite Et.
    rewrite (span_app isWhiteSpace ws1 ("#" +:+ ws2 +:+ c) Hws1 eq_refl).
    change ("#" +:+ ws2 +:+ c) with ("#" +:+ (ws2 +:+ c)).
    rewrite stripPrefix_app. cbn [mbind option_bind].
    rewrite (span_app isWhiteSpace ws2 c Hws2 Hstopc).
    now rewrite Hlt.
  - now rewrite Htr.
Qed.

(** A path or ref token is its own trim. *)
Lemma trim_path_token (path : string) : isPathToken path -> trim path = path.
Proof.
  intros [_ Hpath]. apply trim_id.
  apply (all_impl isPathChar); [|exact Hpath].
  intros c Hc. apply isPathChar_not_blank in Hc. now rewrite Hc.
Qed.

Lemma trim_ref_token (ref : string) : isRefToken ref -> trim ref = ref.
Proof.
  intros [_ Href]. apply trim_id.
  apply (all_impl isRefChar); [|exact Href].
  intros c Hc. apply isRefChar_not_blank' in Hc. now rewrite Hc.
Qed.

(** What parseWorkflow extracts from a line is the line read by the grammar. *)
Lemma parseLine_Some (i : nat) (line : string) (action : WorkflowAction.t) :
  parseLine i line = Some action <->
  exists comment,
    ReferenceLine line (WorkflowAction.indentation action) (WorkflowAction.fullPath action)
      (WorkflowAction.currentRef action) comment /\
    WorkflowAction.line action = i /\
    WorkflowAction.original action = line /\
    WorkflowAction.repository action = deriveRepository (WorkflowAction.fullPath action) /\
    WorkflowAction.currentComment action = trim (default EmptyString comment) /\
    WorkflowAction.hasSkipPinning action
      = SKIP_PINNING_REGEX (default EmptyString comment).
Proof.
  unfold parseLine. split.
  - destruct (ACTION_REGEX line) as [[[[ind path] ref] comment]|] eqn:E; [|discriminate].
    apply ACTION_REGEX_sound in E. simpl. intros [= <-]. simpl.
    pose proof E as [_ [_ [_ [_ [_ [_ [_ [_ [Hp [Hr _]]]]]]]]]].
    exists comment. rewrite (trim_path_token _ Hp), (trim_ref_token _ Hr).
    repeat split; auto.
  - intros [comment [Hline [Hi [Ho [Hrepo [Hc Hs]]]]]].
    pose proof Hline as [_ [_ [_ [_ [_ [_ [_ [_ [Hp [Hr _]]]]]]]]]].
    rewrite (ACTION_REGEX_complete _ _ _ _ _ Hline). simpl.
    rewrite (trim_path_token _ Hp), (trim_ref_token _ Hr).
    destruct action; simpl in *. now subst.
Qed.

End Grammar.

(* ===================================================================== *)
(** * The repository of a path                                            *)
(* ===================================================================== *)

Section Repository.
Import Js Predicates WorkflowParser.
#[local] Arguments String.append : simpl nomatch.

Lemma ownerRepoPrefix_Some (path g r : string) :
  ownerRepoPrefix path = Some (g, r) ->
  exists owner repo,
    isSegment owner /\ isSegment repo /\ g = owner +:+ "/" +:+ repo /\
    path = g +:+ r /\ stopsAt notSlash r.
Proof.
  unfold ownerRepoPrefix.
  destruct (plus notSlash path) as [[owner r0]|] eqn:E0; [|discriminate].
  apply plus_Some in E0 as [Hone [-> [Howner _]]]. cbn [mbind option_bind].
  destruct (stripPrefix "/" r0) as [r1|] eqn:E1; [|discriminate].
  apply stripPrefix_Some in E1 as ->. cbn [mbind option_bind].
  destruct (plus notSlash r1) as [[repo r2]|] eqn:E2; [|discriminate].
  apply plus_Some in E2 as [Hrne [-> [Hrepo Hstop]]]. cbn [mbind option_bind].
  intros [= <- <-]. exists owner, repo.
  repeat split; auto. now rewrite !app_assoc.
Qed.

Lemma ownerRepoPrefix_app (owner repo r : string) :
  isSegment owner -> isSegment repo -> stopsAt notSlash r ->
  ownerRepoPrefix ((owner +:+ "/" +:+ repo) +:+ r) = Some (owner +:+ "/" +:+ repo, r).
Proof.
  intros [Hone Howner] [Hrne Hrepo] Hstop. unfold ownerRepoPrefix.
  rewrite !app_assoc.
  rewrite (plus_app notSlash owner ("/" +:+ repo +:+ r) Hone Howner eq_refl).
  cbn [mbind option_bind].
  change ("/" +:+ repo +:+ r) with ("/" +:+ (repo +:+ r)).
  rewrite stripPrefix_app. cbn [mbind option_bind].
  now rewrite (plus_app notSlash repo r Hrne Hrepo Hstop).
Qed.

Lemma REUSABLE_WORKFLOW_REGEX_Some (path g : string) :
  REUSABLE_WORKFLOW_REGEX path = Some g -> ReusableWorkflowPath path g.
Proof.
  unfold REUSABLE_WORKFLOW_REGEX.
  destruct (ownerRepoPrefix path) as [[g1 r]|] eqn:E; [|discriminate].
  apply ownerRepoPrefix_Some in E as [owner [repo [Ho [Hr [-> [-> _]]]]]].
  cbn [mbind option_bind].
  destruct (stripPrefix "/.github/workflows/" r) as [file|] eqn:Ef; [|discriminate].
  apply stripPrefix_Some in Ef as ->. cbn [mbind option_bind].
  destruct (all notLineTerminator file); [|discriminate].
  intros [= <-]. now exists owner, repo, file.
Qed.

Lemma SUB_ACTION_REGEX_Some (path g : string) :
  SUB_ACTION_REGEX path = Some g -> SubPath path g.
Proof.
  unfold SUB_ACTION_REGEX.
  destruct (ownerRepoPrefix path) as [[g1 r]|] eqn:E; [|discriminate].
  apply ownerRepoPrefix_Some in E as [owner [repo [Ho [Hr [-> [-> _]]]]]].
  cbn [mbind option_bind].
  destruct (stripPrefix "/" r) as [rest|] eqn:Ef; [|discriminate].
  apply stripPrefix_Some in Ef as ->. cbn [mbind option_bind].
  destruct rest as [|c rest]; [discriminate|].
  destruct (all notLineTerminator (String c rest)); [|discriminate].
  intros [= <-]. exists owner, repo, (String c rest).
  split; [exact Ho|]. split; [exact Hr|]. split; [discriminate|]. split; reflexivity.
Qed.

Lemma isPathChar_notLineTerminator (c : ascii) :
  isPathChar c = true -> notLineTerminator c = true.
Proof. destruct c as [[] [] [] [] [] [] [] []]; vm_compute; congruence. Qed.

Lemma path_suffix_notLineTerminator (a b : string) :
  all isPathChar (a +:+ b) = true -> all notLineTerminator b = true.
Proof.
  rewrite all_app. intros H. apply andb_true_iff in H as [_ H].
  apply (all_impl isPathChar); [apply isPathChar_notLineTerminator|exact H].
Qed.

Lemma REUSABLE_WORKFLOW_REGEX_complete (path g : string) :
  isPathToken path -> ReusableWorkflowPath path g ->
  REUSABLE_WORKFLOW_REGEX path = Some g.
Proof.
  intros [_ Hpath] [owner [repo [file [Ho [Hr [-> ->]]]]]].
  unfold REUSABLE_WORKFLOW_REGEX.
  rewrite (ownerRepoPrefix_app owner repo ("/.github/workflows/" +:+ file) Ho Hr eq_refl).
  cbn [mbind option_bind].
  rewrite stripPrefix_app. cbn [mbind option_bind].
  assert (Hfile : all notLineTerminator file = true).
  { rewrite <- app_assoc in Hpath. now apply path_suffix_notLineTerminator in Hpath. }
  now rewrite Hfile.
Qed.

Lemma SUB_ACTION_REGEX_complete (path g : string) :
  isPathToken path -> SubPath path g -> SUB_ACTION_REGEX path = Some g.
Proof.
  intros [_ Hpath] [owner [repo [rest [Ho [Hr [Hrest [-> ->]]]]]]].
  unfold SUB_ACTION_REGEX.
  rewrite (ownerRepoPrefix_app owner repo ("/" +:+ rest) Ho Hr eq_refl).
  cbn [mbind option_bind].
  rewrite stripPrefix_app. cbn [mbind option_bind].
  assert (Hlt : all notLineTerminator rest = true).
  { rewrite <- app_assoc in Hpath. now apply path_suffix_notLineTerminator in Hpath. }
  rewrite Hlt. destruct rest; [congruence|reflexivity].
Qed.

Lemma ReusableWorkflowPath_Contains (path g : string) :
  ReusableWorkflowPath path g -> Contains ".github/workflows" path.
Proof.
  intros [owner [repo [file [_ [_ [-> ->]]]]]].
  exists ((owner +:+ "/" +:+ repo) +:+ "/"), ("/" +:+ file).
  now rewrite !app_assoc.
Qed.

Lemma includes_false (p s : string) : includes p s = false <-> ~ Contains p s.
Proof.
  rewrite <- includes_Contains. destruct (includes p s); split; congruence.
Qed.

End Repository.

(** C4. For every recognized path token, the repository is derived by this
    precedence: a path [owner/repo/.github/workflows/<file>] gives
    [owner/repo]; else a path with something after [owner/repo/] and no
    occurrence of [.github/workflows] gives its first two segments; otherwise
    the path itself is the repository.  A reference line with this path is
    extracted with the path unchanged as fullPath and the derived repository. *)
Theorem repository_identity (path : string) :
  Predicates.isPathToken path ->
  (forall identity,
     Predicates.ReusableWorkflowPath path identity ->
     WorkflowParser.deriveRepository path = identity) /\
  (forall identity,
     Predicates.SubPath path identity ->
     ~ Predicates.Contains ".github/workflows" path ->
     WorkflowParser.deriveRepository path = identity) /\
  ((forall identity, ~ Predicates.ReusableWorkflowPath path identity) ->
   (forall identity, Predicates.SubPath path identity -> Predicates.Contains ".github/workflows" path) ->
   WorkflowParser.deriveRepository path = path) /\
  (forall i line indent ref comment,
     Predicates.ReferenceLine line indent path ref comment ->
     exists action,
       WorkflowParser.parseLine i line = Some action /\
       WorkflowAction.fullPath action = path /\
       WorkflowAction.repository action = WorkflowParser.deriveRepository path).
Proof.
  intros Hpath.
  assert (Hderive : WorkflowParser.deriveRepository path
                    = match WorkflowParser.REUSABLE_WORKFLOW_REGEX path with
                      | Some g1 => g1
                      | None =>
                          match WorkflowParser.SUB_ACTION_REGEX path with
                          | Some g1 =>
                              if negb (Js.includes ".github/workflows" path)
                              then g1 else path
                          | None => path
                          end
                      end).
  { unfold WorkflowParser.deriveRepository. now rewrite (trim_path_token path Hpath). }
  split; [|split; [|split]]; [rewrite Hderive..|].
  - intros identity Hre.
    now rewrite (REUSABLE_WORKFLOW_REGEX_complete path identity Hpath Hre).
  - intros identity Hsub Hnot.
    destruct (WorkflowParser.REUSABLE_WORKFLOW_REGEX path) as [g|] eqn:Ere.
    + apply REUSABLE_WORKFLOW_REGEX_Some, ReusableWorkflowPath_Contains in Ere.
      contradiction.
    + rewrite (SUB_ACTION_REGEX_complete path identity Hpath Hsub).
      apply includes_false in Hnot. now rewrite Hnot.
  - intros Hnre Hsub.
    destruct (WorkflowParser.REUSABLE_WORKFLOW_REGEX path) as [g|] eqn:Ere.
    + apply REUSABLE_WORKFLOW_REGEX_Some in Ere. now apply Hnre in Ere.
    + destruct (WorkflowParser.SUB_ACTION_REGEX path) as [g|] eqn:Esub; [|reflexivity].
      apply SUB_ACTION_REGEX_Some, Hsub, includes_Contains in Esub.
      now rewrite Esub.
  - intros i line indent ref comment Hline.
    exists {| WorkflowAction.line := i;
              WorkflowAction.original := line;
              WorkflowAction.repository := WorkflowParser.deriveRepository path;
              WorkflowAction.fullPath := path;
              WorkflowAction.currentRef := ref;
              WorkflowAction.currentComment := Js.trim (default EmptyString comment);
              WorkflowAction.hasSkipPinning :=
                WorkflowParser.SKIP_PINNING_REGEX (default EmptyString comment);
              WorkflowAction.indentation := indent |}.
    split; [|split; reflexivity].
    apply parseLine_Some. exists comment. simpl. repeat split; auto.
Qed.

(** The sub-action path of the specification: [acme/toolkit/dist/setup] has
    the repository [acme/toolkit]. *)
Lemma repository_identity_witness :
  WorkflowParser.deriveRepository "acme/toolkit/dist/setup" = "acme/toolkit".
Proof.
  assert (Hpath : Predicates.isPathToken "acme/toolkit/dist/setup").
  { split; [discriminate|vm_compute; reflexivity]. }
  apply (repository_identity "acme/toolkit/dist/setup" Hpath).
  - exists "acme", "toolkit", "dist/setup".
    repeat split; try discriminate; vm_compute; reflexivity.
  - apply includes_false. vm_compute. reflexivity.
Defined.

Example deriveRepository_examples :
  WorkflowParser.deriveRepository "acme/tools/.github/workflows/deploy.yml" = "acme/tools" /\
  WorkflowParser.deriveRepository "actions/checkout" = "actions/checkout" /\
  WorkflowParser.deriveRepository "acme/mono/pkg/.github/workflows/ci.yml"
    = "acme/mono/pkg/.github/workflows/ci.yml" /\
  WorkflowAction.fullPath <$>
    WorkflowParser.parseLine 3 "      - uses: acme/toolkit/dist/setup@v2 # tag v2.1.0"
    = Some "acme/toolkit/dist/setup".
Proof. repeat split; vm_compute; reflexivity. Qed.

(* ===================================================================== *)
(** * The skip-pinning marker and the update loop                         *)
(* ===================================================================== *)

Section Skip.
Import Js Predicates WorkflowParser Extension.
Context `{SemverLib} `{Network}.
Variable isCancellationRequested : nat -> bool.

Lemma SKIP_PINNING_REGEX_trim (comment : string) :
  SKIP_PINNING_REGEX (trim comment) = SKIP_PINNING_REGEX comment.
Proof. unfold SKIP_PINNING_REGEX. apply testCI_trim. vm_compute. reflexivity. Qed.

Lemma elem_of_parseLines (action : WorkflowAction.t) (lines : list string) (i : nat) :
  action ∈ parseLines i lines ->
  exists j line, parseLine j line = Some action.
Proof.
  revert i. induction lines as [|line lines IH]; intros i Hin; simpl in Hin.
  - inversion Hin.
  - destruct (parseLine i line) as [a|] eqn:E; [|now apply (IH (S i))].
    apply elem_of_cons in Hin as [->|Hin]; [now exists i, line|now apply (IH (S i))].
Qed.

Lemma processAction_calls (st : LoopState) (action : WorkflowAction.t) :
  calls (processAction st action) = calls st ++ [action].
Proof.
  unfold processAction.
  destruct (GitHubApiService.getLatestActionVersion _) as [[info|]|e]; simpl;
    [destruct (decideUpdate action info)|..]; reflexivity.
Qed.

Lemma updateLoop_calls (actions : list WorkflowAction.t) (i : nat) (st st' : LoopState) :
  updateLoop isCancellationRequested i actions st = inl st' \/
  updateLoop isCancellationRequested i actions st = inr st' ->
  forall action, action ∈ calls st' -> action ∈ calls st \/ action ∈ actions.
Proof.
  revert i st. induction actions as [|a actions IH]; intros i st Hloop action Hin; simpl in Hloop.
  - destruct Hloop as [Hloop|Hloop]; [discriminate|]. injection Hloop as <-. now left.
  - destruct (isCancellationRequested i).
    + destruct Hloop as [Hloop|Hloop]; [|discriminate]. injection Hloop as <-. now left.
    + destruct (IH (S i) (processAction st a) Hloop action Hin) as [Hc|Ha].
      * rewrite processAction_calls in Hc.
        apply elem_of_app in Hc as [Hc|Hc]; [now left|].
        apply list_elem_of_singleton in Hc as ->. right. left.
      * right. now right.
Qed.

Lemma elem_of_actionsToUpdate (actions : list WorkflowAction.t) (action : WorkflowAction.t) :
  action ∈ actionsToUpdate actions <->
  action ∈ actions /\ WorkflowAction.hasSkipPinning action = false.
Proof. unfold actionsToUpdate. rewrite list_elem_of_filter. tauto. Qed.

Lemma updateWorkflow_calls (content : string) (st : LoopState) :
  loopState (updateWorkflow isCancellationRequested content) = Some st ->
  forall action, action ∈ calls st -> action ∈ actionsToUpdate (parseWorkflow content).
Proof.
  unfold updateWorkflow.
  destruct (parseWorkflow content) as [|a0 actions]; [discriminate|].
  destruct (actionsToUpdate (a0 :: actions)) as [|b0 todo] eqn:Etodo; [discriminate|].
  destruct (updateLoop isCancellationRequested 0 (b0 :: todo) (mkLoop [] [] []))
    as [st0|st0] eqn:Eloop.
  - intros [= <-] action Hin.
    destruct (updateLoop_calls _ _ _ _ (or_introl Eloop) action Hin) as [Hc|Ha];
      [inversion Hc|exact Ha].
  - assert (Hst0 : forall action, action ∈ calls st0 -> action ∈ b0 :: todo).
    { intros action Hin.
      destruct (updateLoop_calls _ _ _ _ (or_intror Eloop) action Hin) as [Hc|Ha];
        [inversion Hc|exact Ha]. }
    destruct (updates st0); intros [= <-]; exact Hst0.
Qed.

End Skip.

(** C6. For every line recognized as a reference, hasSkipPinning is true if
    and only if the trailing comment contains [skip-pinning], in any case of
    its letters; the line of the specification is extracted with the flag
    set; the references given to the loop are the extracted ones without the
    flag, and getLatestActionVersion is called for no other reference. *)
Theorem skip_pinning_flag `{SemverLib} `{Network}
    (isCancellationRequested : nat -> bool) (content : string) :
  (forall i line action,
     WorkflowParser.parseLine i line = Some action ->
     (WorkflowAction.hasSkipPinning action = true <->
      Predicates.ContainsCI "skip-pinning" (WorkflowAction.currentComment action))) /\
  WorkflowAction.hasSkipPinning <$>
    WorkflowParser.parseLine 0 "  - uses: a/b@c1d2 # skip-pinning" = Some true /\
  (forall action,
     action ∈ Extension.actionsToUpdate (WorkflowParser.parseWorkflow content) <->
     action ∈ WorkflowParser.parseWorkflow content /\
     WorkflowAction.hasSkipPinning action = false) /\
  (forall st,
     Predicates.loopState (Extension.updateWorkflow isCancellationRequested content) = Some st ->
     forall action,
       action ∈ Extension.calls st ->
       action ∈ WorkflowParser.parseWorkflow content /\
       WorkflowAction.hasSkipPinning action = false).
Proof.
  split; [|split; [|split]].
  - intros i line action Hparse.
    apply parseLine_Some in Hparse as [comment [_ [_ [_ [_ [-> ->]]]]]].
    rewrite <- SKIP_PINNING_REGEX_trim.
    unfold WorkflowParser.SKIP_PINNING_REGEX. apply testCI_ContainsCI.
  - vm_compute. reflexivity.
  - intros action. apply elem_of_actionsToUpdate.
  - intros st Hst action Hin.
    apply elem_of_actionsToUpdate.
    exact (updateWorkflow_calls isCancellationRequested content st Hst action Hin).
Qed.

(** A workflow with a skipped and a tagged reference: only the tagged one is
    resolved, and the skipped line is left as it is. *)
Example updateWorkflow_skips :
  match @Extension.updateWorkflow Semver_lib Example.github Example.neverCancelled
          Example.twoReferences with
  | Extension.Updated updatedContent st =>
      WorkflowAction.original <$> Extension.calls st = ["  - uses: acme/tools@v1"] /\
      updatedContent = Example.twoReferencesPatched
  | _ => False
  end.
Proof. vm_compute. split; reflexivity. Qed.

(** C2, at two lines the parser recognizes.  A list item with two blanks
    after its dash loses the dash; a line that is no list item and whose
    comment holds [- uses:] gains one. *)
Example updateActionLine_marker :
  (action ← WorkflowParser.parseLine 4 "  -  uses: actions/checkout@v4";
   Some (WorkflowParser.updateActionLine action "v4.2.2" Example.checkoutCommit))
    = Some "  uses: actions/checkout@11bd71901bbe5b1630ceea73d27597364c9af683 # tag v4.2.2" /\
  (action ← WorkflowParser.parseLine 5 "    uses: actions/checkout@v4 # was - uses: a/b@v3";
   Some (WorkflowParser.updateActionLine action "v4.2.2" Example.checkoutCommit))
    = Some "    - uses: actions/checkout@11bd71901bbe5b1630ceea73d27597364c9af683 # tag v4.2.2".
Proof. split; vm_compute; reflexivity. Qed.

(** On a list item written with one blank after the dash the rewritten line
    has the fixed format. *)
Example updateActionLine_format :
  (action ← WorkflowParser.parseLine 4 "  - uses: acme/tools/.github/workflows/deploy.yml@v2 # old";
   Some (WorkflowParser.updateActionLine action "v2.0.0" Example.toolsCommit))
    = Some "  - uses: acme/tools/.github/workflows/deploy.yml@8f152de45cc393bb48ce5d89d36b731f54556e65 # tag v2.0.0".
Proof. vm_compute. reflexivity. Qed.

(* ===================================================================== *)
(** * The version in a comment                                            *)
(* ===================================================================== *)

Section Version.
Import Js Predicates WorkflowParser.
#[local] Arguments String.append : simpl nomatch.

Lemma length_append (a b : string) :
  String.length (a +:+ b) = String.length a + String.length b.
Proof. induction a as [|c a IH]; simpl; [reflexivity|now rewrite IH]. Qed.

(** versionSuffix never runs out of rounds: any fuel of at least the length
    of the text gives the same match. *)
Lemma versionSuffix_fuel (n m : nat) (s : string) :
  String.length s <= n -> String.length s <= m ->
  versionSuffix n s = versionSuffix m s.
Proof.
  revert m s. induction n as [|n IH]; intros m s Hn Hm.
  - destruct s; [|simpl in Hn; lia]. now destruct m.
  - destruct m as [|m]; [destruct s; [reflexivity|simpl in Hm; lia]|].
    destruct s as [|c t]; [reflexivity|]. simpl.
    destruct (Ascii.eqb c "." || Ascii.eqb c "-"); [|reflexivity].
    destruct (plus isWordChar t) as [[w t']|] eqn:E; [|reflexivity].
    apply plus_Some in E as [_ [-> _]].
    simpl in Hn, Hm. rewrite length_append in Hn, Hm.
    do 2 f_equal. apply IH; lia.
Qed.

Example extractVersionFromComment_examples :
  extractVersionFromComment "tag v4.2.2" = "v4.2.2" /\
  extractVersionFromComment "pinned to TAG  V1.20.3-rc.1+build, was 1.19.0" = "V1.20.3-rc.1" /\
  extractVersionFromComment "see 1.2 and v12.3.4.-x" = "v12.3.4" /\
  extractVersionFromComment "skip-pinning" = "" /\
  areVersionsEqual "v4.2.2" "4.2.2" = true /\
  areVersionsEqual "" "v" = false.
Proof. repeat split; vm_compute; reflexivity. Qed.

End Version.

(* ===================================================================== *)
(** * The precedence of Semantic Versioning is an ordering                *)
(* ===================================================================== *)

Section Precedence.
Import Predicates Semver.

Lemma Lawful_N : Lawful N.compare.
Proof.
  split.
  - intros x y. apply N.compare_antisym.
  - intros x y z E. now apply N.compare_eq_iff in E as ->.
  - intros x y z Hxy Hyz. apply N.compare_lt_iff.
    apply (N.lt_trans x y z); now apply N.compare_lt_iff.
Qed.

Lemma Lawful_string : Lawful String.compare.
Proof.
  split.
  - intros x y. apply String.compare_antisym.
  - intros x y z E. now apply String.compare_eq_iff in E as ->.
  - intros x y z Hxy Hyz.
    assert (Hle : String.le x z).
    { transitivity y; unfold String.le, String.leb; [now rewrite Hxy|now rewrite Hyz]. }
    unfold String.le, String.leb in Hle.
    destruct (String.compare x z) eqn:Exz; [|reflexivity|now simpl in Hle].
    apply String.compare_eq_iff in Exz as ->.
    rewrite String.compare_antisym, Hyz in Hxy. discriminate.
Qed.

Lemma Lawful_on {A B : Type} (f : A -> B) (c : B -> B -> comparison) :
  Lawful c -> Lawful (fun x y => c (f x) (f y)).
Proof.
  intros [Ha He Hl]. split.
  - intros x y. apply Ha.
  - intros x y z. apply He.
  - intros x y z. apply Hl.
Qed.

Lemma Lawful_then {A : Type} (c1 c2 : A -> A -> comparison) :
  Lawful c1 -> Lawful c2 -> Lawful (fun x y => thenCompare (c1 x y) (c2 x y)).
Proof.
  intros [Ha1 He1 Hl1] [Ha2 He2 Hl2]. split.
  - intros x y. rewrite (Ha1 x y), (Ha2 x y). now destruct (c1 x y).
  - intros x y z. unfold thenCompare.
    destruct (c1 x y) eqn:E1; try discriminate.
    intros E2. rewrite (He1 x y z E1). destruct (c1 y z); auto.
  - intros x y z. unfold thenCompare.
    destruct (c1 x y) eqn:Exy; try discriminate;
      destruct (c1 y z) eqn:Eyz; try discriminate; intros Hxy Hyz.
    + rewrite (He1 x y z Exy), Eyz. now apply (Hl2 x y z).
    + now rewrite (He1 x y z Exy), Eyz.
    + assert (Ezy : c1 z y = Eq) by (now rewrite Ha1, Eyz).
      assert (Ezx : c1 z x = c1 y x) by (now apply He1).
      rewrite (Ha1 x y), Exy in Ezx. simpl in Ezx.
      now rewrite (Ha1 z x), Ezx.
    + now rewrite (Hl1 x y z Exy Eyz).
Qed.

Lemma Lawful_identifier : Lawful compareIdentifiers.
Proof.
  destruct Lawful_N as [Ha He Hl]. destruct Lawful_string as [Ha' He' Hl'].
  split.
  - intros [x|x] [y|y]; simpl; auto.
  - intros [x|x] [y|y] [z|z]; simpl; try discriminate; auto.
  - intros [x|x] [y|y] [z|z]; simpl; try discriminate; auto.
    + apply Hl.
    + apply Hl'.
Qed.

#[local] Existing Instance Lawful_identifier.

Lemma compareIdentifierLists_antisym (a b : list identifier) :
  compareIdentifierLists b a = CompOpp (compareIdentifierLists a b).
Proof.
  revert b. induction a as [|x a IH]; intros [|y b]; simpl; try reflexivity.
  rewrite (lawful_antisym (c := compareIdentifiers) x y), IH.
  now destruct (compareIdentifiers x y).
Qed.

Lemma compareIdentifierLists_eq (a b c : list identifier) :
  compareIdentifierLists a b = Eq ->
  compareIdentifierLists a c = compareIdentifierLists b c.
Proof.
  revert b c. induction a as [|x a IH]; intros [|y b] c; simpl; try discriminate.
  - reflexivity.
  - unfold thenCompare. destruct (compareIdentifiers x y) eqn:E; try discriminate.
    intros Hab. destruct c as [|z c]; simpl; [reflexivity|].
    rewrite (lawful_eq (c := compareIdentifiers) x y z E).
    unfold thenCompare. destruct (compareIdentifiers y z); auto.
Qed.

Lemma compareIdentifierLists_lt (a b c : list identifier) :
  compareIdentifierLists a b = Lt -> compareIdentifierLists b c = Lt ->
  compareIdentifierLists a c = Lt.
Proof.
  revert b c. induction a as [|x a IH]; intros [|y b] [|z c]; simpl;
    try discriminate; try reflexivity.
  unfold thenCompare.
  destruct (compareIdentifiers x y) eqn:Exy; try discriminate;
    destruct (compareIdentifiers y z) eqn:Eyz; try discriminate; intros Hab Hbc.
  - rewrite (lawful_eq (c := compareIdentifiers) x y z Exy), Eyz. now apply (IH b c).
  - now rewrite (lawful_eq (c := compareIdentifiers) x y z Exy), Eyz.
  - assert (Ezy : compareIdentifiers z y = Eq).
    { now rewrite (lawful_antisym (c := compareIdentifiers) y z), Eyz. }
    pose proof (lawful_eq (c := compareIdentifiers) z y x Ezy) as Ezx.
    rewrite (lawful_antisym (c := compareIdentifiers) x y), Exy in Ezx. simpl in Ezx.
    now rewrite (lawful_antisym (c := compareIdentifiers) z x), Ezx.
  - now rewrite (lawful_lt (c := compareIdentifiers) x y z Exy Eyz).
Qed.

Lemma Lawful_pre : Lawful comparePre.
Proof.
  split.
  - intros x y. unfold comparePre.
    destruct (prerelease x) as [|a pa] eqn:Ex, (prerelease y) as [|b pb] eqn:Ey;
      try reflexivity.
    apply compareIdentifierLists_antisym.
  - intros x y z. unfold comparePre.
    destruct (prerelease x) as [|a pa], (prerelease y) as [|b pb];
      try discriminate; [reflexivity|].
    intros E. destruct (prerelease z) as [|c pc]; [reflexivity|].
    now apply compareIdentifierLists_eq.
  - intros x y z. unfold comparePre.
    destruct (prerelease x) as [|a pa], (prerelease y) as [|b pb],
             (prerelease z) as [|c pc]; try discriminate; try reflexivity.
    apply compareIdentifierLists_lt.
Qed.

Lemma Lawful_version :
  Lawful (fun x y => thenCompare (compareMain x y) (comparePre x y)).
Proof.
  apply Lawful_then; [|exact Lawful_pre].
  unfold compareMain.
  apply (Lawful_then (fun x y => N.compare (major x) (major y))
           (fun x y => thenCompare (N.compare (minor x) (minor y))
                         (N.compare (patch x) (patch y)))).
  - apply (Lawful_on major), Lawful_N.
  - apply (Lawful_then (fun x y => N.compare (minor x) (minor y))
             (fun x y => N.compare (patch x) (patch y)));
      [apply (Lawful_on minor)|apply (Lawful_on patch)]; apply Lawful_N.
Qed.

Lemma Lawful_le_trans {A : Type} (c : A -> A -> comparison) (x y z : A) :
  Lawful c -> c x y <> Gt -> c y z <> Gt -> c x z <> Gt.
Proof.
  intros [Ha He Hl] Hxy Hyz.
  destruct (c x y) eqn:Exy; [| |congruence].
  - now rewrite (He x y z Exy).
  - destruct (c y z) eqn:Eyz; [| |congruence].
    + assert (Ezy : c z y = Eq) by (now rewrite Ha, Eyz).
      pose proof (He z y x Ezy) as Ezx. rewrite (Ha x y), Exy in Ezx.
      rewrite (Ha z x), Ezx. discriminate.
    + now rewrite (Hl x y z Exy Eyz).
Qed.

Lemma sign_le (c : comparison) : (sign c <= 0)%Z <-> c <> Gt.
Proof. destruct c; simpl; split; intros; try lia; congruence. Qed.

(** On valid versions [Semver.compare] is a consistent comparator. *)
Lemma Semver_compare_Consistent (l : list string) :
  Forall (fun s => Semver.valid s = true) l -> Consistent Semver.compare l.
Proof.
  intros Hvalid. rewrite Forall_forall in Hvalid.
  assert (Hparse : forall s, s ∈ l -> exists v, parse s = Some v).
  { intros s Hs. specialize (Hvalid s Hs). unfold valid in Hvalid.
    destruct (parse s) as [v|]; [now exists v|discriminate]. }
  pose proof Lawful_version as Hlaw. split.
  - intros a b Ha Hb.
    destruct (Hparse a Ha) as [x Ex], (Hparse b Hb) as [y Ey].
    unfold compare. rewrite Ex, Ey. rewrite !sign_le.
    rewrite (lawful_antisym (Lawful := Hlaw) x y).
    destruct (thenCompare (compareMain x y) (comparePre x y)); simpl;
      [left|left|right]; discriminate.
  - intros a b c Ha Hb Hc.
    destruct (Hparse a Ha) as [x Ex], (Hparse b Hb) as [y Ey], (Hparse c Hc) as [z Ez].
    unfold compare. rewrite Ex, Ey, Ez. rewrite !sign_le.
    apply (Lawful_le_trans _ x y z Hlaw).
Qed.

End Precedence.

(** With the precedence of Semantic Versioning 2.0.0 for [semver], the
    releases tier selects a greatest stable release of every list. *)
Corollary findLatestSemverRelease_semver (releases : list GitHubRelease.t) :
  match @GitHubApiService.findLatestSemverRelease Semver_lib releases with
  | Some latest =>
      latest ∈ releases /\
      GitHubRelease.prerelease latest = false /\
      Semver.valid (GitHubRelease.tag_name latest) = true /\
      forall r, r ∈ releases ->
        GitHubRelease.prerelease r = false ->
        Semver.valid (GitHubRelease.tag_name r) = true ->
        (Semver.compare (GitHubRelease.tag_name r) (GitHubRelease.tag_name latest) <= 0)%Z
  | None =>
      forall r, r ∈ releases ->
        ~ (GitHubRelease.prerelease r = false /\
           Semver.valid (GitHubRelease.tag_name r) = true)
  end.
Proof.
  assert (Hc : Predicates.Consistent (@semver_compare Semver_lib)
                 (GitHubRelease.tag_name <$> @Predicates.qualifying Semver_lib releases)).
  { apply Semver_compare_Consistent. apply Forall_forall. intros s Hs.
    apply list_elem_of_fmap in Hs as [r [-> Hr]].
    apply (@elem_of_qualifying Semver_lib) in Hr. tauto. }
  pose proof (@findLatestSemverRelease_selects Semver_lib releases Hc) as Hsel.
  destruct (@GitHubApiService.findLatestSemverRelease Semver_lib releases) as [latest|].
  - destruct Hsel as [Hin Hmax].
    apply (@elem_of_qualifying Semver_lib) in Hin as [Hin [Hp Hv]].
    split; [assumption|]. split; [assumption|]. split; [assumption|].
    intros r Hr Hrp Hrv. apply Hmax. apply (@elem_of_qualifying Semver_lib). tauto.
  - intros r Hr Hq.
    assert (Hin : r ∈ @Predicates.qualifying Semver_lib releases).
    { apply (@elem_of_qualifying Semver_lib). tauto. }
    rewrite Hsel in Hin. inversion Hin.
Qed.

(* ===================================================================== *)
(** * The rewritten line and the decision on examples                     *)
(* ===================================================================== *)

(** The line updateActionLine builds for a reference without the marker: the
    dash is written exactly when the source line contains [- uses:]. *)
Lemma updateActionLine_line (action : WorkflowAction.t) (newVersion newCommit : string) :
  WorkflowAction.hasSkipPinning action = false ->
  WorkflowParser.updateActionLine action newVersion newCommit
  = WorkflowAction.indentation action +:+
    (if Js.includes "- uses:" (WorkflowAction.original action) then "- " else "") +:+
    "uses: " +:+ WorkflowAction.fullPath action +:+ "@" +:+ newCommit +:+
    " # tag " +:+ newVersion.
Proof.
  intros Hskip. unfold WorkflowParser.updateActionLine. rewrite Hskip.
  destruct (Js.includes "- uses:" (WorkflowAction.original action)); reflexivity.
Qed.

(** A ref that is a tag gets a decision even when the resolved version is the
    same string; a ref of 40 characters whose comment names the resolved
    version, with or without its [v], gets none, whatever the commit. *)
Example decideUpdate_examples :
  is_Some (Extension.decideUpdate Example.taggedCheckout
             (ActionUpdate.mk "" "v4" Example.checkoutCommit "actions/checkout")) /\
  Extension.decideUpdate Example.pinnedCheckout
    (ActionUpdate.mk "" "v4.2.2" Example.toolsCommit "actions/checkout") = None /\
  Extension.decideUpdate Example.pinnedCheckout
    (ActionUpdate.mk "" "4.2.2" Example.toolsCommit "actions/checkout") = None /\
  is_Some (Extension.decideUpdate Example.pinnedCheckout
             (ActionUpdate.mk "" "v4.3.0" Example.toolsCommit "actions/checkout")).
Proof.
  split; [vm_compute; eauto|]. split; [vm_compute; reflexivity|].
  split; [vm_compute; reflexivity|vm_compute; eauto].
Qed.

(* ===================================================================== *)
(** * applyUpdates, line by line                                          *)
(* ===================================================================== *)

Section ApplyUpdatesLookup.
Import Js Predicates WorkflowParser.

Lemma applyUpdates_fold (content : string) (updates : list UpdateResult.t) :
  applyUpdates content updates
  = join (String LF EmptyString)
      (fold_left applyUpdate (sort byLineDescending updates) (linesOf content)).
Proof. reflexivity. Qed.

(** The sort is stable on each line: it keeps the order of the updates that
    name the same line. *)
Lemma filter_insertSorted_line (i : nat) (x : UpdateResult.t) (l : list UpdateResult.t) :
  filter (fun u => UpdateResult.line u = i) (insertSorted byLineDescending x l)
  = filter (fun u => UpdateResult.line u = i) (x :: l).
Proof.
  induction l as [|y l IH]; [reflexivity|]. simpl.
  destruct (byLineDescending x y <=? 0)%Z eqn:E; [reflexivity|].
  apply Z.leb_gt in E. unfold byLineDescending in E.
  rewrite (filter_cons _ y), IH, !filter_cons.
  destruct (decide (UpdateResult.line x = i)) as [Hx|Hx];
    destruct (decide (UpdateResult.line y = i)) as [Hy|Hy]; try reflexivity.
  lia.
Qed.

Lemma filter_sort_line (i : nat) (l : list UpdateResult.t) :
  filter (fun u => UpdateResult.line u = i) (sort byLineDescending l)
  = filter (fun u => UpdateResult.line u = i) l.
Proof.
  induction l as [|x l IH]; [reflexivity|]. simpl.
  rewrite filter_insertSorted_line, !filter_cons, IH. reflexivity.
Qed.

Lemma applyUpdate_same (lines : list string) (u : UpdateResult.t) :
  applyUpdate lines u !! UpdateResult.line u
  = if decide (UpdateResult.line u < length lines)
    then Some (UpdateResult.updated u) else None.
Proof.
  unfold applyUpdate. destruct (decide (UpdateResult.line u < length lines)) as [Hlt|Hge].
  - rewrite bool_decide_eq_true_2 by exact Hlt. now apply list_lookup_insert_eq.
  - rewrite bool_decide_eq_false_2 by exact Hge. apply lookup_ge_None. lia.
Qed.

Lemma fold_applyUpdate_lookup (us : list UpdateResult.t) (lines : list string) (i : nat) :
  fold_left applyUpdate us lines !! i
  = match lastFor i us with
    | Some u => if decide (i < length lines) then Some (UpdateResult.updated u) else None
    | None => lines !! i
    end.
Proof.
  unfold lastFor. revert lines. induction us as [|u us IH]; intros lines; [reflexivity|].
  simpl fold_left. rewrite IH, applyUpdate_length, filter_cons.
  destruct (decide (UpdateResult.line u = i)) as [<-|Hne].
  - rewrite last_cons.
    destruct (last (filter _ us)) as [w|]; [reflexivity|]. apply applyUpdate_same.
  - destruct (last (filter _ us)) as [w|]; [reflexivity|]. now apply applyUpdate_other.
Qed.

Lemma lastFor_sort (i : nat) (l : list UpdateResult.t) :
  lastFor i (sort byLineDescending l) = lastFor i l.
Proof. unfold lastFor. now rewrite filter_sort_line. Qed.

Lemma patched_lines_lookup (updates : list UpdateResult.t) (lines : list string) (i : nat) :
  fold_left applyUpdate (sort byLineDescending updates) lines !! i
  = match lastFor i updates with
    | Some u => if decide (i < length lines) then Some (UpdateResult.updated u) else None
    | None => lines !! i
    end.
Proof. now rewrite fold_applyUpdate_lookup, lastFor_sort. Qed.

Lemma fold_applyUpdate_out_of_range (us : list UpdateResult.t) (lines : list string) :
  (forall u, u ∈ us -> length lines <= UpdateResult.line u) ->
  fold_left applyUpdate us lines = lines.
Proof.
  induction us as [|u us IH]; intros Hout; [reflexivity|]. simpl.
  assert (E : applyUpdate lines u = lines).
  { unfold applyUpdate. rewrite bool_decide_eq_false_2; [reflexivity|].
    specialize (Hout u ltac:(left)). lia. }
  rewrite E. apply IH. intros u' Hu'. apply Hout. now right.
Qed.

(** Updates with different lines: at most one names line [i], in any order. *)
Lemma lastFor_Permutation (i : nat) (l l' : list UpdateResult.t) :
  l ≡ₚ l' -> NoDup (UpdateResult.line <$> l) -> lastFor i l = lastFor i l'.
Proof.
  intros Hperm Hnd. unfold lastFor.
  assert (Hf : filter (fun u => UpdateResult.line u = i) l
               ≡ₚ filter (fun u => UpdateResult.line u = i) l') by (now rewrite Hperm).
  assert (Hshort : forall k : list UpdateResult.t,
            NoDup (UpdateResult.line <$> k) ->
            length (filter (fun u => UpdateResult.line u = i) k) <= 1).
  { induction k as [|x k IHk]; intros Hk; [simpl; lia|].
    rewrite fmap_cons in Hk. apply NoDup_cons in Hk as [Hx Hk].
    rewrite filter_cons. destruct (decide (UpdateResult.line x = i)) as [Ex|Ex];
      [|now apply IHk].
    destruct (filter (fun u => UpdateResult.line u = i) k) as [|y k'] eqn:Ek;
      [simpl; lia|].
    exfalso. apply Hx.
    assert (Hy : y ∈ filter (fun u => UpdateResult.line u = i) k) by (rewrite Ek; left).
    apply list_elem_of_filter in Hy as [Ey Hy].
    rewrite Ex, <- Ey. now apply list_elem_of_fmap_2. }
  specialize (Hshort l Hnd).
  destruct (filter (fun u => UpdateResult.line u = i) l) as [|x [|y k]].
  - apply Permutation_nil_l in Hf. now rewrite Hf.
  - apply Permutation_singleton_l in Hf. now rewrite Hf.
  - simpl in Hshort. lia.
Qed.

End ApplyUpdatesLookup.

(** X1. The lines of the patched text, one by one, when no replacement holds
    a line feed: a line named by some update is the replacement of the last
    update of the list that names it; any other line is the input line. *)
Theorem applyUpdates_lookup (content : string) (updates : list UpdateResult.t) (i : nat) :
  Forall (fun u => Predicates.sepFree WorkflowParser.LF (UpdateResult.updated u) = true)
    updates ->
  Predicates.linesOf (WorkflowParser.applyUpdates content updates) !! i
  = match Predicates.lastFor i updates with
    | Some u =>
        if decide (i < length (Predicates.linesOf content))
        then Some (UpdateResult.updated u) else None
    | None => Predicates.linesOf content !! i
    end.
Proof.
  intros Hfree. rewrite (linesOf_applyUpdates content updates Hfree).
  apply patched_lines_lookup.
Qed.

(** Two updates for one line, the second one wins; the update past the end
    changes nothing. *)
Lemma applyUpdates_lookup_witness :
  Predicates.linesOf (WorkflowParser.applyUpdates Example.workflow Example.rivalDecisions) !! 1
    = Some "  - uses: a/b@4567 # tag v3.0.0" /\
  Predicates.linesOf (WorkflowParser.applyUpdates Example.workflow Example.rivalDecisions) !! 9
    = None.
Proof.
  assert (Hf : Forall (fun u => Predicates.sepFree WorkflowParser.LF
                                  (UpdateResult.updated u) = true)
                 Example.rivalDecisions).
  { repeat (apply List.Forall_cons; [vm_compute; reflexivity|]). apply List.Forall_nil. }
  split.
  - rewrite (applyUpdates_lookup Example.workflow Example.rivalDecisions 1 Hf).
    vm_compute. reflexivity.
  - rewrite (applyUpdates_lookup Example.workflow Example.rivalDecisions 9 Hf).
    vm_compute. reflexivity.
Defined.

(** X2. Updates whose line index is past the end of the text are skipped: if
    all are, applyUpdates returns the text as it is. *)
Theorem applyUpdates_out_of_range (content : string) (updates : list UpdateResult.t) :
  (forall u, u ∈ updates -> length (Predicates.linesOf content) <= UpdateResult.line u) ->
  WorkflowParser.applyUpdates content updates = content.
Proof.
  intros Hout. rewrite applyUpdates_fold.
  rewrite fold_applyUpdate_out_of_range.
  - apply join_split.
  - intros u Hu. apply Hout. exact (proj1 (elem_of_sort _ _ _) Hu).
Qed.

Lemma applyUpdates_out_of_range_witness :
  WorkflowParser.applyUpdates Example.workflow Example.lateDecision = Example.workflow.
Proof.
  apply (applyUpdates_out_of_range Example.workflow Example.lateDecision).
  intros u Hu. apply list_elem_of_singleton in Hu as ->. vm_compute. lia.
Defined.

(** X3. When the updates name different lines, their order in the list does
    not matter. *)
Theorem applyUpdates_Permutation (content : string) (updates updates' : list UpdateResult.t) :
  updates ≡ₚ updates' ->
  NoDup (UpdateResult.line <$> updates) ->
  WorkflowParser.applyUpdates content updates = WorkflowParser.applyUpdates content updates'.
Proof.
  intros Hperm Hnd. rewrite !applyUpdates_fold. f_equal.
  apply list_eq. intros i. rewrite !patched_lines_lookup.
  now rewrite (lastFor_Permutation i updates updates' Hperm Hnd).
Qed.

Lemma applyUpdates_Permutation_witness :
  WorkflowParser.applyUpdates Example.workflow Example.twoDecisions
  = WorkflowParser.applyUpdates Example.workflow (reverse Example.twoDecisions).
Proof.
  apply (applyUpdates_Permutation Example.workflow Example.twoDecisions
           (reverse Example.twoDecisions)).
  - symmetry. apply reverse_Permutation.
  - vm_compute. apply NoDup_cons. split; [|apply NoDup_singleton].
    intros Hin. apply list_elem_of_singleton in Hin. discriminate.
Defined.

(* ===================================================================== *)
(** * parseWorkflow: the references of a text                             *)
(* ===================================================================== *)

Section ParseWorkflow.
Import Js Predicates WorkflowParser.
#[local] Arguments String.append : simpl nomatch.

Lemma parseLine_line (i : nat) (line : string) (action : WorkflowAction.t) :
  parseLine i line = Some action ->
  WorkflowAction.line action = i /\ WorkflowAction.original action = line.
Proof.
  intros Hp. apply parseLine_Some in Hp as [comment [_ [Hi [Ho _]]]]. now split.
Qed.

Lemma elem_of_parseLines_iff (lines : list string) (i : nat) (action : WorkflowAction.t) :
  action ∈ parseLines i lines <->
  exists j line, lines !! j = Some line /\ parseLine (i + j) line = Some action.
Proof.
  revert i. induction lines as [|l lines IH]; intros i; simpl.
  - split; [intros Hin; inversion Hin|]. intros [j [line [Hj _]]]. discriminate.
  - assert (Hrest : action ∈ parseLines (S i) lines <->
                    exists j line, (l :: lines) !! S j = Some line /\
                                   parseLine (i + S j) line = Some action).
    { rewrite IH. split; intros [j [line [Hj Hp]]]; exists j, line;
        (split; [exact Hj|]); now replace (i + S j) with (S i + j) in * by lia. }
    destruct (parseLine i l) as [a|] eqn:E.
    + rewrite elem_of_cons, Hrest. split.
      * intros [->|[j [line [Hj Hp]]]].
        -- exists 0, l. split; [reflexivity|]. now rewrite Nat.add_0_r.
        -- now exists (S j), line.
      * intros [[|j] [line [Hj Hp]]].
        -- left. simpl in Hj. injection Hj as <-. rewrite Nat.add_0_r in Hp. congruence.
        -- right. now exists j, line.
    + rewrite Hrest. split.
      * intros [j [line [Hj Hp]]]. now exists (S j), line.
      * intros [[|j] [line [Hj Hp]]].
        -- simpl in Hj. injection Hj as <-. rewrite Nat.add_0_r in Hp. congruence.
        -- now exists j, line.
Qed.

Lemma parseLines_lower (lines : list string) (i : nat) :
  Forall (fun a => i <= WorkflowAction.line a) (parseLines i lines).
Proof.
  apply Forall_forall. intros a Ha.
  apply elem_of_parseLines_iff in Ha as [j [line [_ Hp]]].
  apply parseLine_line in Hp as [-> _]. lia.
Qed.

Lemma parseLines_sorted (lines : list string) (i : nat) :
  StronglySorted (fun a b => WorkflowAction.line a < WorkflowAction.line b)
    (parseLines i lines).
Proof.
  revert i. induction lines as [|l lines IH]; intros i; simpl; [constructor|].
  destruct (parseLine i l) as [a|] eqn:E; [|apply IH].
  constructor; [apply IH|].
  apply parseLine_line in E as [Ei _].
  eapply Forall_impl; [apply (parseLines_lower lines (S i))|].
  intros b Hb. simpl in Hb. lia.
Qed.

End ParseWorkflow.

(** X4. parseWorkflow returns the references in the order of their lines,
    with strictly increasing line numbers; a reference is returned exactly
    when the line at its number is recognized as that reference, and its
    [original] is that line. *)
Theorem parseWorkflow_lines (content : string) :
  StronglySorted (fun a b => WorkflowAction.line a < WorkflowAction.line b)
    (WorkflowParser.parseWorkflow content) /\
  forall action,
    action ∈ WorkflowParser.parseWorkflow content <->
    Predicates.linesOf content !! WorkflowAction.line action
      = Some (WorkflowAction.original action) /\
    WorkflowParser.parseLine (WorkflowAction.line action) (WorkflowAction.original action)
      = Some action.
Proof.
  split; [apply parseLines_sorted|].
  intros action. unfold WorkflowParser.parseWorkflow.
  rewrite elem_of_parseLines_iff. split.
  - intros [j [line [Hj Hp]]]. simpl in Hp.
    destruct (parseLine_line _ _ _ Hp) as [-> ->]. now split.
  - intros [Hl Hp]. now exists (WorkflowAction.line action), (WorkflowAction.original action).
Qed.

Example parseWorkflow_example :
  (fun a => (WorkflowAction.line a, WorkflowAction.repository a,
             WorkflowAction.currentRef a, WorkflowAction.hasSkipPinning a))
    <$> WorkflowParser.parseWorkflow Example.twoReferences
  = [(1, "actions/checkout", "main", true); (2, "acme/tools", "v1", false)].
Proof. vm_compute. reflexivity. Qed.

(* ===================================================================== *)
(** * The repository is the head of the path                              *)
(* ===================================================================== *)

Section RepositoryPrefix.
Import Js Predicates WorkflowParser.
#[local] Arguments String.append : simpl nomatch.

Lemma deriveRepository_prefix (path : string) :
  isPathToken path ->
  exists rest,
    path = deriveRepository path +:+ rest /\
    (rest = EmptyString \/ exists sub, rest = "/" +:+ sub).
Proof.
  intros Hpath. unfold deriveRepository. rewrite (trim_path_token path Hpath).
  destruct (REUSABLE_WORKFLOW_REGEX path) as [g|] eqn:Ere.
  - apply REUSABLE_WORKFLOW_REGEX_Some in Ere as [owner [repo [file [_ [_ [-> ->]]]]]].
    exists ("/.github/workflows/" +:+ file). split; [reflexivity|].
    right. now exists (".github/workflows/" +:+ file).
  - destruct (SUB_ACTION_REGEX path) as [g|] eqn:Esub.
    + destruct (negb (includes ".github/workflows" path)).
      * apply SUB_ACTION_REGEX_Some in Esub as [owner [repo [rest [_ [_ [_ [-> ->]]]]]]].
        exists ("/" +:+ rest). split; [reflexivity|]. right. now exists rest.
      * exists EmptyString. split; [now rewrite app_empty_r|now left].
    + exists EmptyString. split; [now rewrite app_empty_r|now left].
Qed.

End RepositoryPrefix.

(** X5. For every extracted reference the repository is the head of the full
    path: the full path is the repository itself, or the repository, a slash
    and a sub-path. *)
Theorem repository_prefix_of_fullPath (i : nat) (line : string) (action : WorkflowAction.t) :
  WorkflowParser.parseLine i line = Some action ->
  exists rest,
    WorkflowAction.fullPath action = WorkflowAction.repository action +:+ rest /\
    (rest = EmptyString \/ exists sub, rest = "/" +:+ sub).
Proof.
  intros Hp. apply parseLine_Some in Hp as [comment [Hline [_ [_ [-> _]]]]].
  destruct Hline as [_ [_ [_ [_ [_ [_ [_ [_ [Hpath _]]]]]]]]].
  now apply deriveRepository_prefix.
Qed.

Lemma repository_prefix_of_fullPath_witness :
  exists action rest,
    WorkflowParser.parseLine 3 "    uses: acme/tools/.github/workflows/deploy.yml@v2"
      = Some action /\
    WorkflowAction.repository action = "acme/tools" /\
    WorkflowAction.fullPath action = WorkflowAction.repository action +:+ rest.
Proof.
  destruct (WorkflowParser.parseLine 3
              "    uses: acme/tools/.github/workflows/deploy.yml@v2") as [action|] eqn:E;
    [|vm_compute in E; discriminate].
  destruct (repository_prefix_of_fullPath _ _ _ E) as [rest [Hrest _]].
  exists action, rest. split; [reflexivity|]. split; [|exact Hrest].
  vm_compute in E. injection E as <-. reflexivity.
Defined.

(* ===================================================================== *)
(** * The rewritten line is a reference line again                        *)
(* ===================================================================== *)

Section RoundTrip.
Import Js Predicates WorkflowParser Extension.
#[local] Arguments String.append : simpl nomatch.

Lemma all_notLineTerminator_tag (version : string) :
  all notLineTerminator version = true ->
  all notLineTerminator ("tag " +:+ version) = true.
Proof. intros Hv. rewrite all_app, Hv. reflexivity. Qed.

(** The line updateActionLine writes, read by the grammar. *)
Lemma rewritten_ReferenceLine (action : WorkflowAction.t) (newVersion newCommit : string) :
  WorkflowAction.hasSkipPinning action = false ->
  isBlank (WorkflowAction.indentation action) = true ->
  isPathToken (WorkflowAction.fullPath action) ->
  isRefToken newCommit ->
  all notLineTerminator newVersion = true ->
  ReferenceLine (updateActionLine action newVersion newCommit)
    (WorkflowAction.indentation action) (WorkflowAction.fullPath action) newCommit
    (Some ("tag " +:+ newVersion)).
Proof.
  intros Hskip Hind Hpath Href Hver.
  rewrite (updateActionLine_line action newVersion newCommit Hskip).
  exists (if includes "- uses:" (WorkflowAction.original action) then "- " else ""),
         " ", (" # tag " +:+ newVersion).
  split; [now destruct (includes _ _)|].
  split; [exact Hind|]. split.
  { destruct (includes _ _); [right|now left].
    exists " ". repeat split. discriminate. }
  split; [discriminate|]. split; [reflexivity|].
  split; [exact Hpath|]. split; [exact Href|].
  exists " ", " ". repeat split. now apply all_notLineTerminator_tag.
Qed.

Lemma parse_rewritten (i j : nat) (line : string) (action : WorkflowAction.t)
    (newVersion newCommit : string) :
  parseLine i line = Some action ->
  WorkflowAction.hasSkipPinning action = false ->
  isRefToken newCommit ->
  all notLineTerminator newVersion = true ->
  parseLine j (updateActionLine action newVersion newCommit)
  = Some {| WorkflowAction.line := j;
            WorkflowAction.original := updateActionLine action newVersion newCommit;
            WorkflowAction.repository := WorkflowAction.repository action;
            WorkflowAction.fullPath := WorkflowAction.fullPath action;
            WorkflowAction.currentRef := newCommit;
            WorkflowAction.currentComment := trim ("tag " +:+ newVersion);
            WorkflowAction.hasSkipPinning := SKIP_PINNING_REGEX ("tag " +:+ newVersion);
            WorkflowAction.indentation := WorkflowAction.indentation action |}.
Proof.
  intros Hp Hskip Href Hver.
  apply parseLine_Some in Hp as [comment [Hline [_ [_ [Hrepo _]]]]].
  pose proof Hline as [_ [_ [_ [_ [Hind [_ [_ [_ [Hpath _]]]]]]]]].
  apply parseLine_Some. exists (Some ("tag " +:+ newVersion)). simpl.
  split; [now apply rewritten_ReferenceLine|]. repeat split. exact Hrepo.
Qed.

Lemma isVersionChar_not_blank (c : ascii) : isVersionChar c = true -> isWhiteSpace c = false.
Proof. destruct c as [[] [] [] [] [] [] [] []]; vm_compute; congruence. Qed.

Lemma isDigit_isVersionChar (c : ascii) : isDigit c = true -> isVersionChar c = true.
Proof. destruct c as [[] [] [] [] [] [] [] []]; vm_compute; congruence. Qed.

Lemma isWordChar_isVersionChar (c : ascii) : isWordChar c = true -> isVersionChar c = true.
Proof. unfold isVersionChar. now intros ->. Qed.

Lemma charEqCI_v_isVersionChar (c : ascii) :
  charEqCI "v" c = true -> isVersionChar c = true.
Proof. destruct c as [[] [] [] [] [] [] [] []]; vm_compute; congruence. Qed.

Lemma versionSuffix_chars (n : nat) (s : string) :
  all isVersionChar (versionSuffix n s) = true.
Proof.
  revert s. induction n as [|n IH]; intros s; [reflexivity|].
  destruct s as [|c t]; [reflexivity|]. simpl.
  destruct (Ascii.eqb c "." || Ascii.eqb c "-") eqn:Ec; [|reflexivity].
  destruct (plus isWordChar t) as [[w t']|] eqn:E; [|reflexivity].
  apply plus_Some in E as [_ [_ [Hw _]]].
  simpl. rewrite all_app, IH, (all_impl _ _ _ isWordChar_isVersionChar Hw).
  unfold isVersionChar. apply orb_true_iff in Ec as [->| ->]; simpl;
    now rewrite ?orb_true_r.
Qed.

Lemma versionCore_chars (s g : string) :
  versionCore s = Some g -> g <> EmptyString /\ all isVersionChar g = true.
Proof.
  unfold versionCore.
  destruct (plus isDigit s) as [[d1 r1]|] eqn:E1; [|discriminate].
  apply plus_Some in E1 as [Hd1 [_ [Hall1 _]]]. cbn [mbind option_bind].
  destruct (stripPrefix "." r1) as [r2|]; [|discriminate]. cbn [mbind option_bind].
  destruct (plus isDigit r2) as [[d2 r3]|] eqn:E2; [|discriminate].
  apply plus_Some in E2 as [_ [_ [Hall2 _]]]. cbn [mbind option_bind].
  destruct (stripPrefix "." r3) as [r4|]; [|discriminate]. cbn [mbind option_bind].
  destruct (plus isDigit r4) as [[d3 r5]|] eqn:E3; [|discriminate].
  apply plus_Some in E3 as [_ [_ [Hall3 _]]]. cbn [mbind option_bind].
  intros [= <-]. split; [destruct d1; [congruence|discriminate]|].
  repeat (progress (rewrite ?all_app; cbn [all])).
  rewrite versionSuffix_chars.
  rewrite (all_impl _ _ _ isDigit_isVersionChar Hall1),
          (all_impl _ _ _ isDigit_isVersionChar Hall2),
          (all_impl _ _ _ isDigit_isVersionChar Hall3).
  reflexivity.
Qed.

Lemma versionGroup_chars (s g : string) :
  versionGroup s = Some g -> g <> EmptyString /\ all isVersionChar g = true.
Proof.
  unfold versionGroup. destruct s as [|c t]; [discriminate|].
  destruct (charEqCI "v" c) eqn:Ec; [|apply versionCore_chars].
  destruct (versionCore t) as [v|] eqn:Et; [|apply versionCore_chars].
  intros [= <-]. split; [discriminate|]. simpl.
  rewrite (charEqCI_v_isVersionChar c Ec).
  now apply versionCore_chars in Et as [_ ->].
Qed.

Lemma trimEnd_app (a b : string) :
  trimEnd b <> EmptyString -> trimEnd (a +:+ b) = a +:+ trimEnd b.
Proof.
  intros Hb. induction a as [|c a IH]; [reflexivity|]. simpl. rewrite IH.
  destruct (a +:+ trimEnd b) eqn:E; [|reflexivity].
  destruct a; simpl in E; [congruence|discriminate].
Qed.

(** The comment updateActionLine writes for a version of the pattern gives
    that version back. *)
Lemma extractVersion_tag (version : string) :
  versionGroup version = Some version ->
  extractVersionFromComment (trim ("tag " +:+ version)) = version.
Proof.
  intros Hv. destruct (versionGroup_chars _ _ Hv) as [Hne Hchars].
  assert (Hblank : all (fun c => negb (isWhiteSpace c)) version = true).
  { apply (all_impl isVersionChar); [|exact Hchars].
    intros c Hc. now rewrite (isVersionChar_not_blank c Hc). }
  assert (Htrim : trim ("tag " +:+ version) = "tag " +:+ version).
  { unfold trim. change (trimStart ("tag " +:+ version)) with ("tag " +:+ version).
    rewrite trimEnd_app; rewrite (trimEnd_id version Hblank); [reflexivity|exact Hne]. }
  rewrite Htrim. unfold extractVersionFromComment.
  assert (Hat : versionAt ("tag " +:+ version) = Some version).
  { unfold versionAt.
    change (stripPrefixCI "tag" ("tag " +:+ version)) with (Some (" " +:+ version)).
    cbn [mbind option_bind].
    rewrite (plus_app isWhiteSpace " " version); [| discriminate | reflexivity |].
    - cbn [mbind option_bind]. now rewrite Hv.
    - destruct version as [|c v]; [exact I|]. simpl in *.
      apply andb_true_iff in Hblank as [Hc _]. now apply negb_true_iff in Hc. }
  change ("tag " +:+ version) with (String "t" ("ag " +:+ version)).
  unfold versionMatch; fold versionMatch.
  change (String "t" ("ag " +:+ version)) with ("tag " +:+ version).
  now rewrite Hat.
Qed.

End RoundTrip.

(** X6. The line updateActionLine writes for an extracted reference that is
    not skip-marked is extracted again as a reference with the same
    indentation, full path and repository, the new commit as its ref and the
    standard comment, whenever the commit is a ref token and the version holds
    no line terminator. *)
Theorem rewritten_line_parses (i j : nat) (line : string) (action : WorkflowAction.t)
    (newVersion newCommit : string) :
  WorkflowParser.parseLine i line = Some action ->
  WorkflowAction.hasSkipPinning action = false ->
  Predicates.isRefToken newCommit ->
  Js.all WorkflowParser.notLineTerminator newVersion = true ->
  exists again,
    WorkflowParser.parseLine j (WorkflowParser.updateActionLine action newVersion newCommit)
      = Some again /\
    WorkflowAction.indentation again = WorkflowAction.indentation action /\
    WorkflowAction.fullPath again = WorkflowAction.fullPath action /\
    WorkflowAction.repository again = WorkflowAction.repository action /\
    WorkflowAction.currentRef again = newCommit /\
    WorkflowAction.currentComment again = Js.trim ("tag " +:+ newVersion).
Proof.
  intros Hp Hskip Href Hver.
  eexists. split; [exact (parse_rewritten i j line action _ _ Hp Hskip Href Hver)|].
  repeat split.
Qed.

Lemma rewritten_line_parses_witness :
  exists action again,
    WorkflowParser.parseLine 4 "  -  uses: acme/toolkit/dist/setup@v4 # old" = Some action /\
    WorkflowParser.parseLine 4
      (WorkflowParser.updateActionLine action "v4.2.2" Example.checkoutCommit) = Some again /\
    WorkflowAction.fullPath again = "acme/toolkit/dist/setup" /\
    WorkflowAction.currentRef again = Example.checkoutCommit.
Proof.
  destruct (WorkflowParser.parseLine 4 "  -  uses: acme/toolkit/dist/setup@v4 # old")
    as [action|] eqn:E; [|vm_compute in E; discriminate].
  assert (Hskip : WorkflowAction.hasSkipPinning action = false).
  { vm_compute in E. injection E as <-. reflexivity. }
  assert (Href : Predicates.isRefToken Example.checkoutCommit).
  { split; [discriminate|vm_compute; reflexivity]. }
  destruct (rewritten_line_parses 4 4 _ action "v4.2.2" Example.checkoutCommit
              E Hskip Href eq_refl) as [again [Hagain [_ [Hpath [_ [Hcur _]]]]]].
  exists action, again. split; [reflexivity|]. split; [exact Hagain|].
  split; [|exact Hcur].
  rewrite Hpath. vm_compute in E. injection E as <-. reflexivity.
Defined.

(** X7. A second run is quiet: once a reference has been rewritten to a commit
    of 40 characters, the rewritten line gets no decision from a resolution to
    the same commit, nor from a resolution to the same version (with or
    without its leading [v]) when the version is one the comment pattern
    reads back. *)
Theorem rewritten_line_up_to_date (i j : nat) (line : string) (action again : WorkflowAction.t)
    (newVersion newCommit : string) (updateInfo : ActionUpdate.t) :
  WorkflowParser.parseLine i line = Some action ->
  WorkflowAction.hasSkipPinning action = false ->
  Predicates.isRefToken newCommit ->
  String.length newCommit = 40 ->
  Js.all WorkflowParser.notLineTerminator newVersion = true ->
  WorkflowParser.parseLine j (WorkflowParser.updateActionLine action newVersion newCommit)
    = Some again ->
  ActionUpdate.latestCommit updateInfo = newCommit \/
  (WorkflowParser.versionGroup newVersion = Some newVersion /\
   WorkflowParser.areVersionsEqual newVersion (ActionUpdate.latestVersion updateInfo) = true) ->
  Extension.decideUpdate again updateInfo = None.
Proof.
  intros Hp Hskip Href Hlen Hver Hagain Hsame.
  rewrite (parse_rewritten i j line action _ _ Hp Hskip Href Hver) in Hagain.
  injection Hagain as <-.
  apply decideUpdate_None. split; [exact Hlen|]. simpl.
  destruct Hsame as [Hc|[Hv He]]; [now right|left].
  rewrite (extractVersion_tag newVersion Hv). now apply areVersionsEqual_true.
Qed.

Lemma rewritten_line_up_to_date_witness :
  exists action again,
    WorkflowParser.parseLine 4 "  - uses: actions/checkout@v4" = Some action /\
    WorkflowParser.parseLine 4
      (WorkflowParser.updateActionLine action "v4.2.2" Example.checkoutCommit) = Some again /\
    Extension.decideUpdate again Example.checkoutUpdate = None /\
    Extension.decideUpdate again
      (ActionUpdate.mk "" "4.2.2" Example.toolsCommit "actions/checkout") = None.
Proof.
  destruct (WorkflowParser.parseLine 4 "  - uses: actions/checkout@v4")
    as [action|] eqn:E; [|vm_compute in E; discriminate].
  assert (Hskip : WorkflowAction.hasSkipPinning action = false).
  { vm_compute in E. injection E as <-. reflexivity. }
  assert (Href : Predicates.isRefToken Example.checkoutCommit).
  { split; [discriminate|vm_compute; reflexivity]. }
  destruct (WorkflowParser.parseLine 4
              (WorkflowParser.updateActionLine action "v4.2.2" Example.checkoutCommit))
    as [again|] eqn:E2.
  2:{ vm_compute in E. injection E as <-. vm_compute in E2. discriminate. }
  exists action, again. split; [reflexivity|]. split; [exact E2|]. split.
  - apply (rewritten_line_up_to_date 4 4 _ action again "v4.2.2" Example.checkoutCommit
             Example.checkoutUpdate E Hskip Href eq_refl eq_refl E2).
    left. reflexivity.
  - apply (rewritten_line_up_to_date 4 4 _ action again "v4.2.2" Example.checkoutCommit
             (ActionUpdate.mk "" "4.2.2" Example.toolsCommit "actions/checkout")
             E Hskip Href eq_refl eq_refl E2).
    right. split; vm_compute; reflexivity.
Defined.

(** X8. The comment written for a version that the comment pattern matches
    whole is read back as that version. *)
Theorem extractVersion_of_written_comment (version : string) :
  WorkflowParser.versionGroup version = Some version ->
  WorkflowParser.extractVersionFromComment ("tag " +:+ version) = version /\
  WorkflowParser.extractVersionFromComment (Js.trim ("tag " +:+ version)) = version.
Proof.
  intros Hv. pose proof (extractVersion_tag version Hv) as Htrim.
  split; [|exact Htrim].
  destruct (versionGroup_chars _ _ Hv) as [Hne Hchars].
  assert (Hblank : Js.all (fun c => negb (Js.isWhiteSpace c)) version = true).
  { apply (all_impl Predicates.isVersionChar); [|exact Hchars].
    intros c Hc. now rewrite (isVersionChar_not_blank c Hc). }
  assert (E : Js.trim ("tag " +:+ version) = "tag " +:+ version).
  { unfold Js.trim.
    change (Js.trimStart ("tag " +:+ version)) with ("tag " +:+ version).
    rewrite trimEnd_app; rewrite (trimEnd_id version Hblank); [reflexivity|exact Hne]. }
  now rewrite <- E.
Qed.

Lemma extractVersion_of_written_comment_witness :
  WorkflowParser.extractVersionFromComment "tag v1.20.3-rc.1" = "v1.20.3-rc.1".
Proof.
  apply (extractVersion_of_written_comment "v1.20.3-rc.1"). vm_compute. reflexivity.
Defined.

(* ===================================================================== *)
(** * Equal versions                                                      *)
(* ===================================================================== *)

Section Versions.
Import Js Predicates WorkflowParser.
#[local] Arguments String.append : simpl nomatch.

Lemma startsWith_v_cons (s : string) : startsWith "v" ("v" +:+ s) = true.
Proof. reflexivity. Qed.

Lemma normalizeVersion_cases (version : string) :
  (version = EmptyString /\ normalizeVersion version = EmptyString) \/
  (startsWith "v" version = true /\ normalizeVersion version = version) \/
  (version <> EmptyString /\ startsWith "v" version = false /\
   normalizeVersion version = "v" +:+ version).
Proof.
  destruct version as [|c s]; [now left|right].
  unfold normalizeVersion. destruct (startsWith "v" (String c s)) eqn:E.
  - left. now split.
  - right. repeat split. discriminate.
Qed.

Lemma startsWith_v_nonempty (s : string) : startsWith "v" s = true -> s <> EmptyString.
Proof. destruct s; [discriminate|discriminate]. Qed.

End Versions.

(** X9. Two versions are equal for areVersionsEqual exactly when they are the
    same text, or one of them is the other, not empty and without a leading
    [v], with a [v] put in front. *)
Theorem areVersionsEqual_iff (version1 version2 : string) :
  WorkflowParser.areVersionsEqual version1 version2 = true <->
  version1 = version2 \/
  (version2 <> EmptyString /\ Js.startsWith "v" version2 = false /\
   version1 = "v" +:+ version2) \/
  (version1 <> EmptyString /\ Js.startsWith "v" version1 = false /\
   version2 = "v" +:+ version1).
Proof.
  rewrite areVersionsEqual_true.
  destruct (normalizeVersion_cases version1) as [[E1 N1]|[[S1 N1]|[E1 [S1 N1]]]];
    destruct (normalizeVersion_cases version2) as [[E2 N2]|[[S2 N2]|[E2 [S2 N2]]]];
    rewrite N1, N2.
  - subst. tauto.
  - subst version1. split.
    + intros <-. discriminate.
    + intros [<-|[[_ [H _]]|[H _]]]; congruence.
  - subst version1. split; [discriminate|].
    intros [<-|[[_ [_ H]]|[H _]]]; congruence.
  - subst version2. split.
    + intros ->. discriminate.
    + intros [->|[[H _]|[_ [H _]]]]; congruence.
  - split; [now left|]. intros [->|[[_ [H _]]|[_ [H _]]]]; congruence.
  - split.
    + intros ->. right. left. now repeat split.
    + intros [->|[[_ [_ ->]]|[_ [H _]]]]; congruence.
  - subst version2. split; [discriminate|].
    intros [->|[[H _]|[_ [_ H]]]]; congruence.
  - split.
    + intros <-. right. right. now repeat split.
    + intros [->|[[_ [H _]]|[_ [_ ->]]]]; congruence.
  - split.
    + intros E. left.
      apply (f_equal (fun s => match s with String _ r => r | EmptyString => s end)) in E.
      exact E.
    + intros [E|[[_ [_ E]]|[_ [_ E]]]]; [now rewrite E|exfalso..].
      * rewrite E, startsWith_v_cons in S1. discriminate.
      * rewrite E, startsWith_v_cons in S2. discriminate.
Qed.

(* ===================================================================== *)
(** * The resolver: tags, errors, the default branch                      *)
(* ===================================================================== *)

Section ResolverMore.
Import Predicates GitHubApiService.
Context `{SemverLib} `{Network}.

Lemma Consistent_tag_names (l : list GitHubTag.t) :
  Consistent semver_compare (GitHubTag.name <$> l) ->
  Consistent (fun a b => semver_rcompare (GitHubTag.name a) (GitHubTag.name b)) l.
Proof.
  intros [Htot Htrans]. unfold semver_rcompare. split.
  - intros a b Ha Hb.
    destruct (Htot (GitHubTag.name a) (GitHubTag.name b));
      [now apply list_elem_of_fmap_2..| |]; tauto.
  - intros a b c Ha Hb Hc Hab Hbc.
    apply (Htrans (GitHubTag.name c) (GitHubTag.name b) (GitHubTag.name a));
      try assumption; now apply list_elem_of_fmap_2.
Qed.

Lemma findLatestSemverTag_selects (tags : list GitHubTag.t) :
  Consistent semver_compare (GitHubTag.name <$> validTags tags) ->
  match findLatestSemverTag tags with
  | Some latest =>
      latest ∈ validTags tags /\
      forall t, t ∈ validTags tags ->
        (semver_compare (GitHubTag.name t) (GitHubTag.name latest) <= 0)%Z
  | None => validTags tags = []
  end.
Proof.
  intros Hcons. unfold findLatestSemverTag. fold (validTags tags).
  apply Consistent_tag_names in Hcons.
  destruct (head (Js.sort _ (validTags tags))) as [latest|] eqn:Eh.
  - split.
    + apply (elem_of_sort (fun a b => semver_rcompare (GitHubTag.name a) (GitHubTag.name b))).
      apply head_Some_elem_of. exact Eh.
    + intros t Ht. exact (head_sort _ _ Hcons latest Eh t Ht).
  - now apply head_sort_None in Eh.
Qed.

Lemma elem_of_validTags (tags : list GitHubTag.t) (t : GitHubTag.t) :
  t ∈ validTags tags <-> t ∈ tags /\ semver_valid (GitHubTag.name t) = true.
Proof. unfold validTags. rewrite list_elem_of_filter. tauto. Qed.

(** getLatestActionVersion after the releases answer, when no release is
    selected. *)
Lemma getLatestActionVersion_no_release (repository : string)
    (releases : list GitHubRelease.t) :
  getReleases repository = Return releases ->
  findLatestSemverRelease releases = None ->
  getLatestActionVersion repository
  = tryCatch (fromTagsOrBranch repository)
      (fun error => Throw ("Failed to get latest version for " +:+ repository +:+
                           ": Error: " +:+ error)).
Proof.
  intros Hrel Hnone. unfold getLatestActionVersion. rewrite Hrel. simpl.
  rewrite Hnone. now destruct (bool_decide (0 < length releases)).
Qed.

Lemma getCommitForTag_Throw (repository tagName e : string) :
  getCommitForTag repository tagName = Throw e -> getTags repository = Throw e.
Proof.
  unfold getCommitForTag.
  destruct (requestRef _) as [tagRef|e0]; simpl.
  - destruct (bool_decide (GitRef.object_type tagRef = "tag")); simpl; [|discriminate].
    destruct (requestTagObject _) as [sha|e1]; simpl; [discriminate|].
    destruct (getTags repository); simpl; [discriminate|congruence].
  - destruct (getTags repository); simpl; [discriminate|congruence].
Qed.

Lemma fromTagsOrBranch_Return (repository : string) (r : option ActionUpdate.t) :
  fromTagsOrBranch repository = Return r ->
  exists update, r = Some update /\
    ActionUpdate.repository update = repository /\
    ActionUpdate.currentVersion update = EmptyString.
Proof.
  unfold fromTagsOrBranch.
  destruct (getTags repository) as [[|t tags]|e]; simpl; [| |discriminate].
  - destruct (getDefaultBranch repository) as [b|e]; simpl; [|discriminate].
    destruct (getLatestCommit repository b) as [c|e]; simpl; [|discriminate].
    intros [= <-]. eexists. repeat split.
  - destruct (findLatestSemverTag (t :: tags)); intros [= <-]; eexists; repeat split.
Qed.

End ResolverMore.

(** X10. The tags tier: when no release is selected and the tag list is not
    empty, the resolver returns the tag with a valid version above which no
    valid tag stands, with the commit of its list entry; when no tag name is a
    valid version it returns the first tag of the list. *)
Theorem tags_tier `{SemverLib} `{Network} (repository : string)
    (releases : list GitHubRelease.t) (first : GitHubTag.t) (rest : list GitHubTag.t) :
  GitHubApiService.getReleases repository = Return releases ->
  GitHubApiService.findLatestSemverRelease releases = None ->
  GitHubApiService.getTags repository = Return (first :: rest) ->
  Predicates.Consistent semver_compare
    (GitHubTag.name <$> Predicates.validTags (first :: rest)) ->
  exists chosen,
    GitHubApiService.getLatestActionVersion repository
      = Return (Some (ActionUpdate.mk "" (GitHubTag.name chosen)
                        (GitHubTag.commit_sha chosen) repository)) /\
    chosen ∈ first :: rest /\
    ((semver_valid (GitHubTag.name chosen) = true /\
      forall t, t ∈ first :: rest -> semver_valid (GitHubTag.name t) = true ->
        (semver_compare (GitHubTag.name t) (GitHubTag.name chosen) <= 0)%Z)
     \/
     (chosen = first /\
      forall t, t ∈ first :: rest -> semver_valid (GitHubTag.name t) = false)).
Proof.
  intros Hrel Hnone Htags Hcons.
  rewrite (getLatestActionVersion_no_release repository releases Hrel Hnone).
  unfold GitHubApiService.fromTagsOrBranch. rewrite Htags. simpl.
  pose proof (findLatestSemverTag_selects (first :: rest) Hcons) as Hsel.
  destruct (GitHubApiService.findLatestSemverTag (first :: rest)) as [latest|].
  - destruct Hsel as [Hin Hmax]. apply elem_of_validTags in Hin as [Hin Hv].
    exists latest. split; [reflexivity|]. split; [exact Hin|]. left.
    split; [exact Hv|]. intros t Ht Htv. apply Hmax. now apply elem_of_validTags.
  - exists first. split; [reflexivity|]. split; [left|]. right.
    split; [reflexivity|]. intros t Ht.
    destruct (semver_valid (GitHubTag.name t)) eqn:Ev; [|reflexivity].
    assert (Hin : t ∈ Predicates.validTags (first :: rest)).
    { now apply elem_of_validTags. }
    rewrite Hsel in Hin. inversion Hin.
Qed.

(** [acme/tagged] has no release and the tags nightly, v1.2.0, v1.10.0. *)
Lemma tags_tier_witness :
  exists chosen,
    @GitHubApiService.getLatestActionVersion Semver_lib Example.tagsOnly "acme/tagged"
      = Return (Some (ActionUpdate.mk "" (GitHubTag.name chosen)
                        (GitHubTag.commit_sha chosen) "acme/tagged")) /\
    chosen ∈ [GitHubTag.mk "nightly" Example.trunkCommit;
              GitHubTag.mk "v1.2.0" Example.checkoutCommit;
              GitHubTag.mk "v1.10.0" Example.toolsCommit] /\
    ((@semver_valid Semver_lib (GitHubTag.name chosen) = true /\
      forall t, t ∈ [GitHubTag.mk "nightly" Example.trunkCommit;
                     GitHubTag.mk "v1.2.0" Example.checkoutCommit;
                     GitHubTag.mk "v1.10.0" Example.toolsCommit] ->
        @semver_valid Semver_lib (GitHubTag.name t) = true ->
        (@semver_compare Semver_lib (GitHubTag.name t) (GitHubTag.name chosen) <= 0)%Z)
     \/
     (chosen = GitHubTag.mk "nightly" Example.trunkCommit /\
      forall t, t ∈ [GitHubTag.mk "nightly" Example.trunkCommit;
                     GitHubTag.mk "v1.2.0" Example.checkoutCommit;
                     GitHubTag.mk "v1.10.0" Example.toolsCommit] ->
        @semver_valid Semver_lib (GitHubTag.name t) = false)).
Proof.
  apply (@tags_tier Semver_lib Example.tagsOnly "acme/tagged" []).
  - vm_compute. reflexivity.
  - vm_compute. reflexivity.
  - vm_compute. reflexivity.
  - apply consistentb_sound. vm_compute. reflexivity.
Defined.

(** The two cases on the second host. *)
Lemma tags_tier_examples :
  @GitHubApiService.getLatestActionVersion Semver_lib Example.tagsOnly "acme/tagged"
    = Return (Some (ActionUpdate.mk "" "v1.10.0" Example.toolsCommit "acme/tagged")) /\
  @GitHubApiService.getLatestActionVersion Semver_lib Example.tagsOnly "acme/named"
    = Return (Some (ActionUpdate.mk "" "latest" Example.trunkCommit "acme/named")).
Proof. split; vm_compute; reflexivity. Qed.

(** X11. getLatestActionVersion never returns null: what it returns is an
    update for the repository asked for, with an empty currentVersion; what it
    throws is the message of the failed request under the prefix
    "Failed to get latest version for <repository>: ". *)
Theorem getLatestActionVersion_outcome `{SemverLib} `{Network} (repository : string) :
  (forall r,
     GitHubApiService.getLatestActionVersion repository = Return r ->
     exists update, r = Some update /\
       ActionUpdate.repository update = repository /\
       ActionUpdate.currentVersion update = EmptyString) /\
  (forall msg,
     GitHubApiService.getLatestActionVersion repository = Throw msg ->
     exists error,
       msg = "Failed to get latest version for " +:+ repository +:+ ": Error: " +:+ error).
Proof.
  unfold GitHubApiService.getLatestActionVersion.
  destruct (GitHubApiService.getReleases repository) as [releases|e]; simpl.
  2:{ split; [discriminate|]. intros msg [= <-]. now exists e. }
  destruct (if bool_decide (0 < length releases)
            then GitHubApiService.findLatestSemverRelease releases else None)
    as [latest|].
  - destruct (GitHubApiService.getCommitForTag repository _) as [c|e]; simpl.
    + split; [|discriminate]. intros r [= <-]. eexists. repeat split.
    + split; [discriminate|]. intros msg [= <-]. now exists e.
  - destruct (GitHubApiService.fromTagsOrBranch repository) as [r0|e] eqn:E; simpl.
    + split; [|discriminate]. intros r [= <-].
      exact (fromTagsOrBranch_Return repository r0 E).
    + split; [discriminate|]. intros msg [= <-]. now exists e.
Qed.

(** X12. getCommitForTag falls back on the tag list: it throws only when the
    request for the tag list throws, with that message; whenever the tag list
    can be fetched it returns. *)
Theorem getCommitForTag_fallback `{Network} (repository tagName : string) :
  (forall e,
     GitHubApiService.getCommitForTag repository tagName = Throw e ->
     GitHubApiService.getTags repository = Throw e) /\
  (forall tags,
     GitHubApiService.getTags repository = Return tags ->
     exists sha, GitHubApiService.getCommitForTag repository tagName = Return sha).
Proof.
  split; [intros e; apply getCommitForTag_Throw|].
  intros tags Htags.
  destruct (GitHubApiService.getCommitForTag repository tagName) as [sha|e] eqn:E.
  - now exists sha.
  - apply getCommitForTag_Throw in E. congruence.
Qed.

(* ===================================================================== *)
(** * The loop of updateWorkflowCommand                                   *)
(* ===================================================================== *)

Section LoopMore.
Import Js Predicates WorkflowParser Extension.
Context `{SemverLib} `{Network}.
Variable isCancellationRequested : nat -> bool.

Lemma processAction_eq (st : LoopState) (action : WorkflowAction.t) :
  processAction st action
  = mkLoop (updates st ++ omap decisionFor [action])
           (errors st ++ omap errorFor [action])
           (calls st ++ [action]).
Proof.
  unfold processAction, decisionFor, errorFor. simpl.
  destruct (GitHubApiService.getLatestActionVersion _) as [[info|]|e]; simpl;
    [destruct (decideUpdate action info)|..]; simpl; rewrite ?app_nil_r; reflexivity.
Qed.

Lemma updateLoop_prefix (k : nat) :
  forall (actions : list WorkflowAction.t) (i : nat) (st : LoopState),
    k <= length actions ->
    (forall j, j < k -> isCancellationRequested (i + j) = false) ->
    updateLoop isCancellationRequested i actions st
    = updateLoop isCancellationRequested (i + k) (drop k actions)
        (mkLoop (updates st ++ omap decisionFor (take k actions))
                (errors st ++ omap errorFor (take k actions))
                (calls st ++ take k actions)).
Proof.
  induction k as [|k IH]; intros actions i st Hk Hrun.
  - rewrite Nat.add_0_r, drop_0, take_0. simpl. rewrite !app_nil_r. now destruct st.
  - destruct actions as [|a rest]; [simpl in Hk; lia|].
    simpl in Hk. cbn [updateLoop].
    rewrite <- (Nat.add_0_r i) at 1. rewrite (Hrun 0) by lia.
    rewrite (IH rest (S i) (processAction st a)) by
      (try lia; intros j Hj; rewrite <- (Hrun (S j)) by lia; f_equal; lia).
    rewrite processAction_eq. cbn [updates errors calls].
    rewrite <- !List.app_assoc, <- !omap_app.
    replace (S i + k) with (i + S k) by lia. reflexivity.
Qed.

Lemma updateLoop_inr (actions : list WorkflowAction.t) :
  forall (i : nat) (st st' : LoopState),
    updateLoop isCancellationRequested i actions st = inr st' ->
    st' = mkLoop (updates st ++ omap decisionFor actions)
                 (errors st ++ omap errorFor actions)
                 (calls st ++ actions).
Proof.
  induction actions as [|a rest IH]; intros i st st' Hloop; cbn [updateLoop] in Hloop.
  - injection Hloop as <-. simpl. rewrite !app_nil_r. now destruct st.
  - destruct (isCancellationRequested i); [discriminate|].
    apply IH in Hloop. rewrite Hloop, processAction_eq. cbn [updates errors calls].
    now rewrite <- !List.app_assoc, <- !omap_app.
Qed.

Lemma decisionFor_line (action : WorkflowAction.t) (u : UpdateResult.t) :
  decisionFor action = Some u -> UpdateResult.line u = WorkflowAction.line action.
Proof.
  unfold decisionFor.
  destruct (GitHubApiService.getLatestActionVersion _) as [[info|]|e]; try discriminate.
  unfold decideUpdate. destruct (_ && _); [discriminate|]. now intros [= <-].
Qed.

Lemma sorted_lines_NoDup (l : list WorkflowAction.t) :
  StronglySorted (fun a b => WorkflowAction.line a < WorkflowAction.line b) l ->
  NoDup (WorkflowAction.line <$> l).
Proof.
  induction 1 as [|a l Hs IH Hall]; [constructor|].
  rewrite fmap_cons. constructor; [|exact IH].
  rewrite list_elem_of_fmap. intros [b [Eb Hb]].
  rewrite Forall_forall in Hall. specialize (Hall b Hb). lia.
Qed.

Lemma decision_lines_sublist (l : list WorkflowAction.t) :
  (UpdateResult.line <$> omap decisionFor l) `sublist_of` (WorkflowAction.line <$> l).
Proof.
  induction l as [|a l IH]; [constructor|].
  change (omap decisionFor (a :: l)) with (omap decisionFor ([a] ++ l)).
  rewrite omap_app. simpl. destruct (decisionFor a) as [u|] eqn:E; simpl.
  - rewrite (decisionFor_line a u E). now constructor.
  - now constructor.
Qed.

Lemma lastFor_NoDup (us : list UpdateResult.t) (u : UpdateResult.t) :
  NoDup (UpdateResult.line <$> us) -> u ∈ us ->
  lastFor (UpdateResult.line u) us = Some u.
Proof.
  unfold lastFor. induction us as [|x us IH]; intros Hnd Hin; [inversion Hin|].
  rewrite fmap_cons in Hnd. apply NoDup_cons in Hnd as [Hx Hnd].
  rewrite filter_cons. apply elem_of_cons in Hin as [->|Hin].
  - destruct (decide (UpdateResult.line x = UpdateResult.line x)) as [_|E]; [|congruence].
    destruct (filter _ us) as [|y k] eqn:Ek; [reflexivity|].
    exfalso. apply Hx.
    assert (Hy : y ∈ filter (fun v => UpdateResult.line v = UpdateResult.line x) us)
      by (rewrite Ek; left).
    apply list_elem_of_filter in Hy as [Ey Hy].
    rewrite <- Ey. now apply list_elem_of_fmap_2.
  - destruct (decide (UpdateResult.line x = UpdateResult.line u)) as [E|_];
      [|now apply IH].
    exfalso. apply Hx. rewrite E. now apply list_elem_of_fmap_2.
Qed.

Lemma lastFor_None (us : list UpdateResult.t) (i : nat) :
  (forall u, u ∈ us -> UpdateResult.line u <> i) -> lastFor i us = None.
Proof.
  intros Hno. unfold lastFor.
  destruct (last _) as [u|] eqn:E; [|reflexivity].
  apply last_Some_elem_of, list_elem_of_filter in E as [Ei Hu].
  now destruct (Hno u Hu).
Qed.

Lemma parsed_line_lt (lines : list string) (action : WorkflowAction.t) :
  action ∈ parseLines 0 lines -> WorkflowAction.line action < length lines.
Proof.
  intros Ha. apply elem_of_parseLines_iff in Ha as [j [line [Hj Hp]]].
  apply parseLine_line in Hp as [-> _]. apply lookup_lt_Some in Hj. lia.
Qed.

End LoopMore.

(** X14. When cancellation is not requested, the loop resolves every
    reference it is given, in order: a failed resolution adds one message to
    the errors and the loop goes on; the updates are the decisions of the
    references that resolve and are not up to date, in the order of the
    references. *)
Theorem updateLoop_runs_all `{SemverLib} `{Network}
    (isCancellationRequested : nat -> bool) (i : nat)
    (actions : list WorkflowAction.t) (st : Extension.LoopState) :
  (forall j, j < length actions -> isCancellationRequested (i + j) = false) ->
  Extension.updateLoop isCancellationRequested i actions st
  = inr (Extension.mkLoop
           (Extension.updates st ++ omap Predicates.decisionFor actions)
           (Extension.errors st ++ omap Predicates.errorFor actions)
           (Extension.calls st ++ actions)).
Proof.
  intros Hrun.
  rewrite (updateLoop_prefix isCancellationRequested (length actions)) by (lia || exact Hrun).
  now rewrite drop_all, firstn_all.
Qed.

(** A missing repository, a tagged reference and a pinned one that is up to
    date: one error, one update, three calls. *)
Lemma updateLoop_runs_all_witness :
  @Extension.updateLoop Semver_lib Example.github Example.neverCancelled 0
    [Example.goneAction; Example.taggedCheckout; Example.pinnedCheckout] Example.emptyLoop
  = inr (Extension.mkLoop
           [UpdateResult.mk 7 "      - uses: actions/checkout@v4"
              ("      - uses: actions/checkout@" +:+ Example.checkoutCommit +:+ " # tag v4.2.2")
              "actions/checkout" "v4" "v4.2.2" Example.checkoutCommit]
           ["Failed to update acme/gone: Error: Failed to get latest version for acme/gone: Error: GitHub API error: 404 - Not Found"]
           [Example.goneAction; Example.taggedCheckout; Example.pinnedCheckout]).
Proof.
  rewrite (@updateLoop_runs_all Semver_lib Example.github Example.neverCancelled 0
             [Example.goneAction; Example.taggedCheckout; Example.pinnedCheckout]
             Example.emptyLoop).
  - vm_compute. reflexivity.
  - intros j _. reflexivity.
Defined.

(** X15. When cancellation is first seen at the start of iteration [k], the
    loop returns with what the first [k] references gave; no later reference
    is resolved. *)
Theorem updateLoop_cancelled `{SemverLib} `{Network}
    (isCancellationRequested : nat -> bool) (i k : nat)
    (actions : list WorkflowAction.t) (st : Extension.LoopState) :
  k < length actions ->
  (forall j, j < k -> isCancellationRequested (i + j) = false) ->
  isCancellationRequested (i + k) = true ->
  Extension.updateLoop isCancellationRequested i actions st
  = inl (Extension.mkLoop
           (Extension.updates st ++ omap Predicates.decisionFor (take k actions))
           (Extension.errors st ++ omap Predicates.errorFor (take k actions))
           (Extension.calls st ++ take k actions)).
Proof.
  intros Hk Hrun Hstop.
  rewrite (updateLoop_prefix isCancellationRequested k) by (lia || exact Hrun).
  destruct (drop k actions) as [|a rest] eqn:Ed.
  - apply (f_equal length) in Ed. rewrite length_drop in Ed. simpl in Ed. lia.
  - cbn [Extension.updateLoop]. now rewrite Hstop.
Qed.

Lemma updateLoop_cancelled_witness :
  @Extension.updateLoop Semver_lib Example.github Example.cancelledAtSecond 0
    [Example.goneAction; Example.taggedCheckout; Example.pinnedCheckout] Example.emptyLoop
  = inl (Extension.mkLoop []
           ["Failed to update acme/gone: Error: Failed to get latest version for acme/gone: Error: GitHub API error: 404 - Not Found"]
           [Example.goneAction]).
Proof.
  rewrite (@updateLoop_cancelled Semver_lib Example.github Example.cancelledAtSecond 0 1
             [Example.goneAction; Example.taggedCheckout; Example.pinnedCheckout]
             Example.emptyLoop).
  - vm_compute. reflexivity.
  - simpl. lia.
  - intros j Hj. destruct j; [reflexivity|lia].
  - reflexivity.
Defined.

(* ===================================================================== *)
(** * Which documents count as workflows                                  *)
(* ===================================================================== *)

Section WorkflowFiles.
Import Js Predicates WorkflowParser.
#[local] Arguments String.append : simpl nomatch.

Lemma EndsWith_nil (suffix : string) : suffix <> EmptyString -> ~ EndsWith suffix EmptyString.
Proof.
  intros Hs [stem E]. destruct stem; simpl in E; [now symmetry in E|discriminate].
Qed.

Lemma EndsWith_cons (suffix : string) (c : ascii) (s : string) :
  EndsWith suffix (String c s) <-> String c s = suffix \/ EndsWith suffix s.
Proof.
  split.
  - intros [[|c' stem] E]; simpl in E; [now left|].
    injection E as _ ->. right. now exists stem.
  - intros [E|[stem ->]]; [now exists EmptyString|now exists (String c stem)].
Qed.

Lemma YML_REGEX_EndsWith (filePath : string) :
  YML_REGEX filePath = true <-> EndsWith ".yml" filePath \/ EndsWith ".yaml" filePath.
Proof.
  induction filePath as [|c s IH].
  - split; [discriminate|]. intros [E|E]; apply EndsWith_nil in E; easy.
  - cbn [YML_REGEX]. rewrite orb_true_iff, IH, !EndsWith_cons.
    unfold ymlSuffixAt. rewrite orb_true_iff, !bool_decide_eq_true. tauto.
Qed.

Lemma Contains_longer (pre p s : string) : Contains (pre +:+ p) s -> Contains p s.
Proof.
  intros [a [b ->]]. exists (a +:+ pre), b. now rewrite !app_assoc.
Qed.

Lemma Contains_join (sep x : string) (l : list string) :
  x ∈ l -> exists pre post, join sep l = pre +:+ x +:+ post.
Proof.
  induction l as [|a l IH]; intros Hin; [inversion Hin|].
  apply elem_of_cons in Hin as [->|Hin].
  - destruct l as [|b l]; simpl.
    + exists EmptyString, EmptyString. now rewrite app_empty_r.
    + now exists EmptyString, (sep +:+ join sep (b :: l)).
  - destruct (IH Hin) as [pre [post E]].
    destruct l as [|b l]; [inversion Hin|].
    change (join sep (a :: b :: l)) with (a +:+ sep +:+ join sep (b :: l)).
    rewrite E. exists (a +:+ sep +:+ pre), post. now rewrite !app_assoc.
Qed.

Lemma Contains_trans (p x s : string) : Contains p x -> Contains x s -> Contains p s.
Proof.
  intros [a [b ->]] [c [d ->]]. exists (c +:+ a), (b +:+ d). now rewrite !app_assoc.
Qed.

End WorkflowFiles.

(** X17. isWorkflowFile accepts exactly the paths that end in [.yml] or
    [.yaml] and contain [workflows/] somewhere: the test for
    [.github/workflows/] adds nothing, and a path outside [.github] is
    accepted as well. *)
Theorem isWorkflowFile_iff (filePath : string) :
  WorkflowParser.isWorkflowFile filePath = true <->
  (Predicates.EndsWith ".yml" filePath \/ Predicates.EndsWith ".yaml" filePath) /\
  Predicates.Contains "workflows/" filePath.
Proof.
  unfold WorkflowParser.isWorkflowFile.
  rewrite andb_true_iff, orb_true_iff, YML_REGEX_EndsWith, !includes_Contains.
  split; [|tauto]. intros [Hy [Hc|Hc]]; (split; [exact Hy|]); [|exact Hc].
  exact (Contains_longer ".github/" "workflows/" filePath Hc).
Qed.

Example isWorkflowFile_examples :
  WorkflowParser.isWorkflowFile "/repo/.github/workflows/ci.yml" = true /\
  WorkflowParser.isWorkflowFile "/home/me/myworkflows/notes.yaml" = true /\
  WorkflowParser.isWorkflowFile "/repo/.github/workflows/ci.yml.bak" = false /\
  WorkflowParser.isWorkflowFile "/repo/.github/workflows/CI.YML" = false /\
  WorkflowParser.isWorkflowFile "/repo/.github/action.yml" = false.
Proof. vm_compute. repeat split. Qed.

(** X18. A text in which parseWorkflow finds a reference contains [uses:],
    so for such a text isLikelyWorkflowFile asks only for [jobs:] or
    [on:]. *)
Theorem parsed_text_is_likely (content : string) (action : WorkflowAction.t) :
  action ∈ WorkflowParser.parseWorkflow content ->
  Js.includes "uses:" content = true /\
  Extension.isLikelyWorkflowFile content
    = (Js.includes "jobs:" content || Js.includes "on:" content).
Proof.
  intros Hin.
  assert (Huses : Js.includes "uses:" content = true).
  { apply includes_Contains.
    apply elem_of_parseLines_iff in Hin as [j [line [Hj Hp]]].
    apply parseLine_Some in Hp as [comment [[marker [ws [trailer [Hline _]]]] _]].
    apply (Contains_trans _ line).
    - rewrite Hline.
      exists (WorkflowAction.indentation action +:+ marker),
             (ws +:+ WorkflowAction.fullPath action +:+ "@" +:+
              WorkflowAction.currentRef action +:+ trailer).
      now rewrite !app_assoc.
    - rewrite <- (join_split WorkflowParser.LF content).
      apply Contains_join. exact (list_elem_of_lookup_2 _ _ _ Hj). }
  split; [exact Huses|]. unfold Extension.isLikelyWorkflowFile. now rewrite Huses.
Qed.

Lemma parsed_text_is_likely_witness :
  Js.includes "uses:" Example.twoReferences = true /\
  Extension.isLikelyWorkflowFile Example.twoReferences
    = (Js.includes "jobs:" Example.twoReferences || Js.includes "on:" Example.twoReferences).
Proof.
  apply (parsed_text_is_likely Example.twoReferences Example.toolsAction).
  vm_compute. right. left.
Defined.

(* ===================================================================== *)
(** * Lines that are not references                                       *)
(* ===================================================================== *)

Section NotReferences.
Import Js Predicates WorkflowParser.
#[local] Arguments String.append : simpl nomatch.

Lemma snoc_eq_app (a b r : string) (c : ascii) :
  a +:+ String c EmptyString = b +:+ r -> r <> EmptyString ->
  exists r', r = r' +:+ String c EmptyString /\ a = b +:+ r'.
Proof.
  revert a. induction b as [|x b IH]; intros a E Hr.
  - exists a. now split.
  - destruct a as [|y a]; simpl in E.
    + injection E as _ E. destruct b; [now destruct r|discriminate].
    + injection E as -> E. destruct (IH a E Hr) as [r' [-> ->]]. now exists r'.
Qed.

Lemma commented_line_None (i : nat) (ws rest : string) :
  isBlank ws = true -> parseLine i (ws +:+ String "#" rest) = None.
Proof.
  intros Hws. unfold parseLine, ACTION_REGEX.
  rewrite (span_app isWhiteSpace ws (String "#" rest) Hws eq_refl). reflexivity.
Qed.

End NotReferences.

(** X19. A line that ends in a carriage return is extracted as a reference
    only when it ends in [#] followed by blanks, and then its comment is
    empty: in a text with CR LF line ends, a reference with no [#] or with a
    comment is not found. *)
Theorem carriage_return_line (i : nat) (line : string) (action : WorkflowAction.t) :
  WorkflowParser.parseLine i (line +:+ String Predicates.CR EmptyString) = Some action ->
  WorkflowAction.currentComment action = EmptyString /\
  exists pre ws, line = pre +:+ "#" +:+ ws /\ Predicates.isBlank ws = true.
Proof.
  intros Hparse.
  apply parseLine_Some in Hparse
    as [comment [[marker [ws [trailer [Hline [_ [_ [_ [_ [_ [[Hne Href] Htr]]]]]]]]]]
                 [_ [_ [_ [Hcom _]]]]]].
  destruct comment as [c|]; cbn [Predicates.isTrailer] in Htr.
  - destruct Htr as [ws1 [ws2 [-> [_ [Hb2 [_ Hnl]]]]]].
    destruct c as [|c0 c].
    + split; [exact Hcom|].
      rewrite app_empty_r in Hline.
      destruct ws2 as [|w ws2].
      * rewrite app_empty_r in Hline. rewrite <- !app_assoc in Hline.
        apply snoc_eq_app in Hline as [r' [E _]]; [|discriminate].
        destruct r' as [|x [|y r']]; discriminate.
      * rewrite <- !app_assoc in Hline.
        apply snoc_eq_app in Hline as [ws' [E ->]]; [|discriminate].
        eexists _, ws'. split; [apply app_assoc|].
        unfold Predicates.isBlank in *. rewrite E, all_app in Hb2.
        now apply andb_true_iff in Hb2 as [Hb2 _].
    + exfalso. rewrite <- !app_assoc in Hline.
      apply snoc_eq_app in Hline as [c' [E _]]; [|discriminate].
      rewrite E, all_app in Hnl. apply andb_true_iff in Hnl as [_ Hnl]. discriminate.
  - exfalso. subst trailer. rewrite app_empty_r in Hline. rewrite <- !app_assoc in Hline.
    apply snoc_eq_app in Hline as [r' [E _]]; [|exact Hne].
    rewrite E, all_app in Href. apply andb_true_iff in Href as [_ Href]. discriminate.
Qed.

Lemma carriage_return_line_witness :
  WorkflowAction.currentComment
    {| WorkflowAction.line := 1;
       WorkflowAction.original := "  - uses: a/b@v1 # " +:+ String Predicates.CR EmptyString;
       WorkflowAction.repository := "a/b";
       WorkflowAction.fullPath := "a/b";
       WorkflowAction.currentRef := "v1";
       WorkflowAction.currentComment := "";
       WorkflowAction.hasSkipPinning := false;
       WorkflowAction.indentation := "  " |} = EmptyString /\
  exists pre ws, "  - uses: a/b@v1 # " = pre +:+ "#" +:+ ws /\ Predicates.isBlank ws = true.
Proof.
  apply (carriage_return_line 1 "  - uses: a/b@v1 # ").
  vm_compute. reflexivity.
Defined.

(** A text with CR LF line ends: only the reference on the last line, which
    has no carriage return, is found. *)
Example parseWorkflow_crlf :
  WorkflowAction.original <$>
    WorkflowParser.parseWorkflow
      ("steps:" +:+ String Predicates.CR (String WorkflowParser.LF
       "  - uses: a/b@v1" +:+ String Predicates.CR (String WorkflowParser.LF
       "  - uses: c/d@0123 # tag v1.2.3" +:+ String Predicates.CR (String WorkflowParser.LF
       "  - uses: e/f@v2"))))
  = ["  - uses: e/f@v2"].
Proof. vm_compute. reflexivity. Qed.

(** X20. A line whose first character after the indentation is [#] is not a
    reference: a reference that is commented out is neither resolved nor
    rewritten. *)
Theorem commented_line (content : string) (j : nat) (ws rest : string) :
  Predicates.isBlank ws = true ->
  Predicates.linesOf content !! j = Some (ws +:+ "#" +:+ rest) ->
  (forall i, WorkflowParser.parseLine i (ws +:+ "#" +:+ rest) = None) /\
  forall action, action ∈ WorkflowParser.parseWorkflow content ->
    WorkflowAction.line action <> j.
Proof.
  intros Hws Hj. split; [intros i; exact (commented_line_None i ws rest Hws)|].
  intros action Hin Ej.
  apply elem_of_parseLines_iff in Hin as [k [line [Hk Hp]]].
  pose proof (parseLine_line _ _ _ Hp) as [Ek _]. simpl in Ek.
  assert (Ekj : k = j) by lia. rewrite Ekj in Hk, Hp.
  unfold Predicates.linesOf in Hj. rewrite Hj in Hk. injection Hk as <-.
  change (ws +:+ "#" +:+ rest) with (ws +:+ String "#" rest) in Hp.
  now rewrite commented_line_None in Hp.
Qed.

Lemma commented_line_witness :
  (forall i, WorkflowParser.parseLine i ("  " +:+ "#" +:+ " - uses: a/b@v1") = None) /\
  forall action,
    action ∈ WorkflowParser.parseWorkflow
               ("steps:" +:+ String WorkflowParser.LF "  # - uses: a/b@v1") ->
    WorkflowAction.line action <> 1.
Proof.
  apply (commented_line ("steps:" +:+ String WorkflowParser.LF "  # - uses: a/b@v1")
           1 "  " " - uses: a/b@v1").
  - reflexivity.
  - vm_compute. reflexivity.
Defined.

(* ===================================================================== *)
(** * The version of a comment, written and read again                    *)
(* ===================================================================== *)

Section VersionFixpoint.
Import Js Predicates WorkflowParser.
#[local] Arguments String.append : simpl nomatch.

Lemma versionSuffix_head (n : nat) (s : string) :
  match versionSuffix n s with
  | EmptyString => True
  | String c _ => c = "."%char \/ c = "-"%char
  end.
Proof.
  destruct n as [|n], s as [|c t]; simpl; try exact I.
  destruct (Ascii.eqb c "." || Ascii.eqb c "-")%bool eqn:E; [|exact I].
  destruct (plus isWordChar t) as [[w t']|]; [|exact I]. simpl.
  apply orb_true_iff in E as [E|E]; apply Ascii.eqb_eq in E; auto.
Qed.

Lemma versionSuffix_stops (p : ascii -> bool) (n : nat) (s : string) :
  p "."%char = false -> p "-"%char = false -> stopsAt p (versionSuffix n s).
Proof.
  intros Hdot Hdash. pose proof (versionSuffix_head n s) as Hh.
  destruct (versionSuffix n s) as [|c r]; [exact I|].
  simpl. now destruct Hh as [->| ->].
Qed.

Lemma versionSuffix_again (n : nat) :
  forall (m : nat) (s : string),
    String.length (versionSuffix n s) <= m ->
    versionSuffix m (versionSuffix n s) = versionSuffix n s.
Proof.
  induction n as [|n IH]; intros m s Hm; [now destruct m|].
  destruct s as [|c t]; [now destruct m|].
  cbn [versionSuffix] in *.
  destruct (Ascii.eqb c "." || Ascii.eqb c "-")%bool eqn:E; [|now destruct m].
  destruct (plus isWordChar t) as [[w t']|] eqn:Ew; [|now destruct m].
  apply plus_Some in Ew as [Hne [_ [Hw _]]].
  change (String c w +:+ versionSuffix n t') with (String c (w +:+ versionSuffix n t')) in *.
  destruct m as [|m]; [simpl in Hm; lia|].
  cbn [versionSuffix]. rewrite E.
  rewrite (plus_app isWordChar w (versionSuffix n t') Hne Hw)
    by (apply versionSuffix_stops; reflexivity).
  change (String c w +:+ ?x) with (String c (w +:+ x)).
  rewrite IH; [reflexivity|].
  simpl in Hm. rewrite length_append in Hm. lia.
Qed.

#[local] Ltac strip_dot :=
  match goal with
  | |- context [stripPrefix "." (String "."%char ?x)] =>
      change (stripPrefix "." (String "."%char x)) with (Some x); cbn [mbind option_bind]
  end.

Lemma versionCore_again (s g : string) : versionCore s = Some g -> versionCore g = Some g.
Proof.
  unfold versionCore at 1.
  destruct (plus isDigit s) as [[d1 r1]|] eqn:E1; [|discriminate]. cbn [mbind option_bind].
  destruct (stripPrefix "." r1) as [r2|] eqn:E2; [|discriminate]. cbn [mbind option_bind].
  destruct (plus isDigit r2) as [[d2 r3]|] eqn:E3; [|discriminate]. cbn [mbind option_bind].
  destruct (stripPrefix "." r3) as [r4|] eqn:E4; [|discriminate]. cbn [mbind option_bind].
  destruct (plus isDigit r4) as [[d3 r5]|] eqn:E5; [|discriminate]. cbn [mbind option_bind].
  intros [= <-].
  apply plus_Some in E1 as [H1 [_ [A1 _]]].
  apply plus_Some in E3 as [H3 [_ [A3 _]]].
  apply plus_Some in E5 as [H5 [_ [A5 _]]].
  unfold versionCore.
  rewrite (plus_app isDigit d1 _ H1 A1) by reflexivity. cbn [mbind option_bind].
  strip_dot.
  rewrite (plus_app isDigit d2 _ H3 A3) by reflexivity. cbn [mbind option_bind].
  strip_dot.
  rewrite (plus_app isDigit d3 _ H5 A5) by (apply versionSuffix_stops; reflexivity).
  cbn [mbind option_bind].
  rewrite versionSuffix_again by apply le_n. reflexivity.
Qed.

Lemma isDigit_not_v (c : ascii) : isDigit c = true -> charEqCI "v" c = false.
Proof. destruct c as [[] [] [] [] [] [] [] []]; vm_compute; congruence. Qed.

Lemma charEqCI_v_not_digit (c : ascii) : charEqCI "v" c = true -> isDigit c = false.
Proof. destruct c as [[] [] [] [] [] [] [] []]; vm_compute; congruence. Qed.

Lemma versionCore_head (s g : string) :
  versionCore s = Some g ->
  match s, g with
  | String c _, String c' _ => c = c' /\ isDigit c = true
  | _, _ => False
  end.
Proof.
  unfold versionCore.
  destruct (plus isDigit s) as [[d1 r1]|] eqn:E1; [|discriminate]. cbn [mbind option_bind].
  destruct (stripPrefix "." r1) as [r2|]; [|discriminate]. cbn [mbind option_bind].
  destruct (plus isDigit r2) as [[d2 r3]|]; [|discriminate]. cbn [mbind option_bind].
  destruct (stripPrefix "." r3) as [r4|]; [|discriminate]. cbn [mbind option_bind].
  destruct (plus isDigit r4) as [[d3 r5]|]; [|discriminate]. cbn [mbind option_bind].
  intros [= <-].
  apply plus_Some in E1 as [H1 [-> [A1 _]]].
  destruct d1 as [|c d1]; [contradiction|]. simpl in A1 |- *.
  apply andb_true_iff in A1 as [A1 _]. now split.
Qed.

Lemma versionGroup_again (s g : string) : versionGroup s = Some g -> versionGroup g = Some g.
Proof.
  destruct s as [|c t]; [discriminate|]. unfold versionGroup at 1.
  assert (Hcore : versionCore (String c t) = Some g -> versionGroup g = Some g).
  { intros Hg. pose proof (versionCore_head _ _ Hg) as Hh.
    destruct g as [|c' g']; [contradiction|]. destruct Hh as [<- Hd].
    unfold versionGroup. rewrite (isDigit_not_v c Hd).
    exact (versionCore_again _ _ Hg). }
  destruct (charEqCI "v" c) eqn:Ev; [|exact Hcore].
  destruct (versionCore t) as [v|] eqn:Et; [|exact Hcore].
  intros [= <-]. unfold versionGroup. rewrite Ev.
  now rewrite (versionCore_again _ _ Et).
Qed.

Lemma versionAt_group (s g : string) :
  versionAt s = Some g -> versionGroup g = Some g.
Proof.
  unfold versionAt.
  destruct (stripPrefixCI "tag" s) as [r|]; cbn [mbind option_bind];
    [|apply versionGroup_again].
  destruct (plus isWhiteSpace r) as [[w r']|]; cbn [mbind option_bind];
    [|apply versionGroup_again].
  destruct (versionGroup r') as [v|] eqn:E; [|apply versionGroup_again].
  intros [= <-]. exact (versionGroup_again _ _ E).
Qed.

Lemma versionMatch_group (comment g : string) :
  versionMatch comment = Some g -> versionGroup g = Some g.
Proof.
  induction comment as [|c comment IH]; cbn [versionMatch].
  - destruct (versionAt EmptyString) as [v|] eqn:E; [|discriminate].
    intros [= <-]. exact (versionAt_group _ _ E).
  - destruct (versionAt (String c comment)) as [v|] eqn:E; [|exact IH].
    intros [= <-]. exact (versionAt_group _ _ E).
Qed.

End VersionFixpoint.

(** X21. The version read from a comment is empty or is itself a whole match
    of the version pattern, made of word characters, dots and hyphens; the
    comment [tag <version>] written for it is read back as the same
    version. *)
Theorem extractVersion_written_again (comment : string) :
  (WorkflowParser.extractVersionFromComment comment = EmptyString \/
   WorkflowParser.versionGroup (WorkflowParser.extractVersionFromComment comment)
     = Some (WorkflowParser.extractVersionFromComment comment) /\
   Js.all Predicates.isVersionChar (WorkflowParser.extractVersionFromComment comment) = true) /\
  WorkflowParser.extractVersionFromComment
    (Js.trim ("tag " +:+ WorkflowParser.extractVersionFromComment comment))
  = WorkflowParser.extractVersionFromComment comment.
Proof.
  remember (WorkflowParser.extractVersionFromComment comment) as v eqn:Ev.
  unfold WorkflowParser.extractVersionFromComment in Ev.
  destruct (WorkflowParser.versionMatch comment) as [g|] eqn:E; subst v.
  - apply versionMatch_group in E. split.
    + right. split; [exact E|]. exact (proj2 (versionGroup_chars _ _ E)).
    + exact (extractVersion_tag g E).
  - split; [now left|]. vm_compute. reflexivity.
Qed.

Example extractVersion_examples :
  WorkflowParser.extractVersionFromComment "pinned to Tag  V1.2.3-rc.1+build" = "V1.2.3-rc.1" /\
  WorkflowParser.extractVersionFromComment "tag v4" = "" /\
  WorkflowParser.extractVersionFromComment "see 10.0.0.1.." = "10.0.0.1" /\
  WorkflowParser.areVersionsEqual "V1.2.3" "v1.2.3" = false.
Proof. vm_compute. repeat split. Qed.

(* ===================================================================== *)
(** * A second run of the command                                         *)
(* ===================================================================== *)

Section SecondRun.
Import Js Predicates WorkflowParser Extension.
Context `{SemverLib} `{Network}.
#[local] Arguments String.append : simpl nomatch.

Lemma decisionFor_Some (action : WorkflowAction.t) (u : UpdateResult.t) :
  decisionFor action = Some u ->
  exists updateInfo,
    GitHubApiService.getLatestActionVersion (WorkflowAction.repository action)
      = Return (Some updateInfo) /\
    UpdateResult.line u = WorkflowAction.line action /\
    UpdateResult.updated u
      = updateActionLine action (ActionUpdate.latestVersion updateInfo)
          (ActionUpdate.latestCommit updateInfo).
Proof.
  unfold decisionFor.
  destruct (GitHubApiService.getLatestActionVersion _) as [[info|]|e]; try discriminate.
  unfold decideUpdate. destruct (_ && _); [discriminate|]. intros [= <-].
  exists info. repeat split.
Qed.

Lemma sepFree_rewritten (i : nat) (line : string) (action : WorkflowAction.t)
    (newVersion newCommit : string) :
  parseLine i line = Some action ->
  sepFree LF line = true ->
  WorkflowAction.hasSkipPinning action = false ->
  isRefToken newCommit ->
  all notLineTerminator newVersion = true ->
  sepFree LF (updateActionLine action newVersion newCommit) = true.
Proof.
  intros Hp Hline Hskip [_ Href] Hver.
  apply parseLine_Some in Hp as [comment [[marker [ws [trailer [E _]]]] _]].
  unfold sepFree in *. rewrite E, !all_app in Hline.
  apply andb_true_iff in Hline as [Hind Hline].
  apply andb_true_iff in Hline as [_ Hline].
  apply andb_true_iff in Hline as [_ Hline].
  apply andb_true_iff in Hline as [_ Hline].
  apply andb_true_iff in Hline as [Hpath _].
  rewrite (updateActionLine_line action _ _ Hskip), !all_app, Hind, Hpath.
  rewrite (all_impl isRefChar _ newCommit) by
    (exact Href || (intros c Hc; destruct c as [[] [] [] [] [] [] [] []];
                    vm_compute in Hc |- *; congruence)).
  rewrite (all_impl notLineTerminator _ newVersion) by
    (exact Hver || (intros c Hc; destruct c as [[] [] [] [] [] [] [] []];
                    vm_compute in Hc |- *; congruence)).
  now destruct (includes "- uses:" (WorkflowAction.original action)).
Qed.

Lemma updateWorkflow_Updated_inv (isCancellationRequested : nat -> bool)
    (content updatedContent : string) (st : LoopState) :
  updateWorkflow isCancellationRequested content = Updated updatedContent st ->
  updates st = omap decisionFor (actionsToUpdate (parseWorkflow content)) /\
  updates st <> [] /\
  updatedContent = applyUpdates content (updates st).
Proof.
  unfold updateWorkflow.
  destruct (parseWorkflow content) as [|a0 actions]; [discriminate|].
  destruct (actionsToUpdate (a0 :: actions)) as [|b0 todo]; [discriminate|].
  destruct (updateLoop isCancellationRequested 0 (b0 :: todo) (mkLoop [] [] []))
    as [st0|st0] eqn:Eloop; [discriminate|].
  apply updateLoop_inr in Eloop. cbn [updates errors calls] in Eloop.
  rewrite !app_nil_l in Eloop.
  destruct (updates st0) as [|u0 us] eqn:Eups; [discriminate|].
  intros [= <- <-]. rewrite Eups. split; [|split; [discriminate|reflexivity]].
  rewrite <- Eups, Eloop. reflexivity.
Qed.

Lemma lastFor_Some (i : nat) (us : list UpdateResult.t) (u : UpdateResult.t) :
  lastFor i us = Some u -> u ∈ us /\ UpdateResult.line u = i.
Proof.
  unfold lastFor. intros E.
  apply last_Some_elem_of, list_elem_of_filter in E. tauto.
Qed.

Lemma lastFor_None_inv (i : nat) (us : list UpdateResult.t) (u : UpdateResult.t) :
  lastFor i us = None -> u ∈ us -> UpdateResult.line u <> i.
Proof.
  unfold lastFor. intros E Hu Ei. apply last_None in E.
  assert (Hin : u ∈ filter (fun v => UpdateResult.line v = i) us)
    by (now apply list_elem_of_filter).
  rewrite E in Hin. inversion Hin.
Qed.

Lemma omap_None {A B : Type} (f : A -> option B) (l : list A) :
  (forall a, a ∈ l -> f a = None) -> omap f l = [].
Proof.
  induction l as [|a l IH]; intros Hl; [reflexivity|].
  change (omap f (a :: l)) with (omap f ([a] ++ l)). rewrite omap_app. simpl.
  rewrite (Hl a) by left. simpl. apply IH. intros b Hb. apply Hl. now right.
Qed.

Lemma second_run_decisions (isCancellationRequested : nat -> bool)
    (content updatedContent : string) (st : LoopState) :
  updateWorkflow isCancellationRequested content = Updated updatedContent st ->
  (forall action updateInfo,
     action ∈ actionsToUpdate (parseWorkflow content) ->
     GitHubApiService.getLatestActionVersion (WorkflowAction.repository action)
       = Return (Some updateInfo) ->
     String.length (ActionUpdate.latestCommit updateInfo) = 40 /\
     isRefToken (ActionUpdate.latestCommit updateInfo) /\
     all notLineTerminator (ActionUpdate.latestVersion updateInfo) = true) ->
  forall action,
    action ∈ actionsToUpdate (parseWorkflow updatedContent) ->
    decisionFor action = None.
Proof.
  intros Hrun Hwf action' Hin'.
  apply updateWorkflow_Updated_inv in Hrun as [Hups [_ ->]].
  destruct st as [ups errs cs]. cbn [updates] in *.
  assert (Hold : forall a, a ∈ actionsToUpdate (parseWorkflow content) ->
            exists j line, linesOf content !! j = Some line /\
              sepFree LF line = true /\ parseLine j line = Some a /\
              WorkflowAction.hasSkipPinning a = false).
  { intros a Ha. apply elem_of_actionsToUpdate in Ha as [Ha Hskip].
    apply elem_of_parseLines_iff in Ha as [j [line [Hj Hp]]].
    exists j, line. repeat split; [exact Hj| |exact Hp|exact Hskip].
    exact (Forall_lookup_1 _ _ _ _ (split_sepFree LF content) Hj). }
  assert (Hu : forall u, u ∈ ups ->
            exists a info j line,
              a ∈ actionsToUpdate (parseWorkflow content) /\
              parseLine j line = Some a /\ sepFree LF line = true /\
              WorkflowAction.hasSkipPinning a = false /\
              GitHubApiService.getLatestActionVersion (WorkflowAction.repository a)
                = Return (Some info) /\
              UpdateResult.line u = WorkflowAction.line a /\
              UpdateResult.updated u
                = updateActionLine a (ActionUpdate.latestVersion info)
                    (ActionUpdate.latestCommit info)).
  { intros u Hin. rewrite Hups in Hin.
    apply list_elem_of_omap in Hin as [a [Ha Hdec]].
    apply decisionFor_Some in Hdec as [info [Hres [Hl Hupd]]].
    destruct (Hold a Ha) as [j [line [_ [Hfree [Hp Hskip]]]]].
    exists a, info, j, line. repeat split; assumption. }
  assert (Hfree : Forall (fun u => sepFree LF (UpdateResult.updated u) = true) ups).
  { apply Forall_forall. intros u Hin.
    destruct (Hu u Hin) as [a [info [j [line [Ha [Hp [Hline [Hskip [Hres [_ ->]]]]]]]]]].
    destruct (Hwf a info Ha Hres) as [_ [Href Hver]].
    exact (sepFree_rewritten j line a _ _ Hp Hline Hskip Href Hver). }
  apply elem_of_actionsToUpdate in Hin' as [Hin' Hskip'].
  apply elem_of_parseLines_iff in Hin' as [j [line' [Hj Hp']]]. simpl in Hp'.
  fold (linesOf (applyUpdates content ups)) in Hj.
  rewrite (linesOf_applyUpdates content ups Hfree) in Hj.
  fold byLineDescending in Hj. rewrite patched_lines_lookup in Hj.
  destruct (lastFor j ups) as [u|] eqn:Elast.
  - destruct (decide (j < length (linesOf content))) as [_|_]; [|discriminate].
    injection Hj as <-. apply lastFor_Some in Elast as [Hin _].
    destruct (Hu u Hin) as [a [info [k [line [Ha [Hp [_ [Hskip [Hres [_ Hupd]]]]]]]]]].
    destruct (Hwf a info Ha Hres) as [Hlen [Href Hver]].
    rewrite Hupd, (parse_rewritten k j line a _ _ Hp Hskip Href Hver) in Hp'.
    injection Hp' as <-. unfold decisionFor. cbn [WorkflowAction.repository].
    rewrite Hres. apply decideUpdate_None. split; [exact Hlen|]. now right.
  - destruct (decisionFor action') as [u|] eqn:Edec; [exfalso|reflexivity].
    assert (Hin : action' ∈ actionsToUpdate (parseWorkflow content)).
    { apply elem_of_actionsToUpdate. split; [|exact Hskip'].
      apply elem_of_parseLines_iff. now exists j, line'. }
    apply (lastFor_None_inv j ups u Elast).
    + rewrite Hups. apply list_elem_of_omap. now exists action'.
    + apply decisionFor_Some in Edec as [_ [_ [-> _]]].
      now apply parseLine_line in Hp' as [-> _].
Qed.

End SecondRun.

(** X22. A second run edits nothing: when the command has edited the
    document, and every resolution of its references gave a commit of 40
    characters without white space or [#] and a version without line
    terminator, then in the new text no reference without the skip flag gets a
    decision, and the command run on the new text never comes to an edit. *)
Theorem second_run_is_quiet `{SemverLib} `{Network}
    (isCancellationRequested : nat -> bool) (content updatedContent : string)
    (st : Extension.LoopState) :
  Extension.updateWorkflow isCancellationRequested content
    = Extension.Updated updatedContent st ->
  (forall action updateInfo,
     action ∈ Extension.actionsToUpdate (WorkflowParser.parseWorkflow content) ->
     GitHubApiService.getLatestActionVersion (WorkflowAction.repository action)
       = Return (Some updateInfo) ->
     String.length (ActionUpdate.latestCommit updateInfo) = 40 /\
     Predicates.isRefToken (ActionUpdate.latestCommit updateInfo) /\
     Js.all WorkflowParser.notLineTerminator (ActionUpdate.latestVersion updateInfo) = true) ->
  (forall action,
     action ∈ Extension.actionsToUpdate (WorkflowParser.parseWorkflow updatedContent) ->
     Predicates.decisionFor action = None) /\
  forall isCancellationRequested' updatedContent' st',
    Extension.updateWorkflow isCancellationRequested' updatedContent
      <> Extension.Updated updatedContent' st'.
Proof.
  intros Hrun Hwf.
  pose proof (second_run_decisions isCancellationRequested content updatedContent st
                Hrun Hwf) as Hquiet.
  split; [exact Hquiet|].
  intros cancel' content' st' Hrun'.
  apply updateWorkflow_Updated_inv in Hrun' as [Hups [Hne _]].
  apply Hne. rewrite Hups. now apply omap_None.
Qed.

Lemma second_run_is_quiet_witness :
  (forall action,
     action ∈ Extension.actionsToUpdate
                (WorkflowParser.parseWorkflow Example.twoReferencesPatched) ->
     @Predicates.decisionFor Semver_lib Example.github action = None) /\
  forall isCancellationRequested' updatedContent' st',
    @Extension.updateWorkflow Semver_lib Example.github isCancellationRequested'
      Example.twoReferencesPatched
      <> Extension.Updated updatedContent' st'.
Proof.
  apply (@second_run_is_quiet Semver_lib Example.github Example.neverCancelled
           Example.twoReferences Example.twoReferencesPatched Example.twoReferencesState).
  - vm_compute. reflexivity.
  - intros action updateInfo Hin Hres.
    assert (E : Extension.actionsToUpdate (WorkflowParser.parseWorkflow Example.twoReferences)
                = [Example.toolsAction]) by (vm_compute; reflexivity).
    rewrite E in Hin. apply list_elem_of_singleton in Hin. subst action.
    assert (E' : @GitHubApiService.getLatestActionVersion Semver_lib Example.github
                   (WorkflowAction.repository Example.toolsAction)
                 = Return (Some (ActionUpdate.mk "" "v2.0.0" Example.toolsCommit "acme/tools")))
      by (vm_compute; reflexivity).
    rewrite E' in Hres. injection Hres as <-.
    split; [vm_compute; reflexivity|]. split; [|vm_compute; reflexivity].
    split; [discriminate|vm_compute; reflexivity].
Defined.

(** The second run on the example: the skipped reference is skipped, the
    pinned one is up to date. *)
Example second_run_example :
  @Extension.updateWorkflow Semver_lib Example.github Example.neverCancelled
    Example.twoReferencesPatched
  = Extension.NothingToUpdate
      (Extension.mkLoop [] []
         [{| WorkflowAction.line := 2;
             WorkflowAction.original :=
               "  - uses: acme/tools@" +:+ Example.toolsCommit +:+ " # tag v2.0.0";
             WorkflowAction.repository := "acme/tools";
             WorkflowAction.fullPath := "acme/tools";
             WorkflowAction.currentRef := Example.toolsCommit;
             WorkflowAction.currentComment := "tag v2.0.0";
             WorkflowAction.hasSkipPinning := false;
             WorkflowAction.indentation := "  " |}]).
Proof. vm_compute. reflexivity. Qed.

(* ===================================================================== *)
(** * The messages of the loop                                            *)
(* ===================================================================== *)

Section LoopErrors.
Import Js Predicates WorkflowParser Extension.
Context `{SemverLib} `{Network}.
Variable isCancellationRequested : nat -> bool.

Lemma getLatestActionVersion_Throw (repository msg : string) :
  GitHubApiService.getLatestActionVersion repository = Throw msg ->
  exists error,
    msg = "Failed to get latest version for " +:+ repository +:+ ": Error: " +:+ error.
Proof.
  unfold GitHubApiService.getLatestActionVersion.
  destruct (GitHubApiService.getReleases repository) as [releases|e]; simpl.
  2:{ intros [= <-]. now exists e. }
  destruct (if bool_decide (0 < length releases)
            then GitHubApiService.findLatestSemverRelease releases else None)
    as [latest|].
  - destruct (GitHubApiService.getCommitForTag repository _) as [c|e]; simpl;
      [discriminate|]. intros [= <-]. now exists e.
  - destruct (GitHubApiService.fromTagsOrBranch repository) as [r0|e]; simpl;
      [discriminate|]. intros [= <-]. now exists e.
Qed.

Lemma updateLoop_result (actions : list WorkflowAction.t) :
  forall (i : nat) (st st' : LoopState),
    updateLoop isCancellationRequested i actions st = inl st' \/
    updateLoop isCancellationRequested i actions st = inr st' ->
    exists k,
      st' = mkLoop (updates st ++ omap decisionFor (take k actions))
                   (errors st ++ omap errorFor (take k actions))
                   (calls st ++ take k actions).
Proof.
  induction actions as [|a rest IH]; intros i st st' Hloop; cbn [updateLoop] in Hloop.
  - exists 0. destruct Hloop as [Hloop|Hloop]; [discriminate|].
    injection Hloop as <-. simpl. rewrite !app_nil_r. now destruct st.
  - destruct (isCancellationRequested i).
    + exists 0. destruct Hloop as [Hloop|Hloop]; [|discriminate].
      injection Hloop as <-. simpl. rewrite !app_nil_r. now destruct st.
    + destruct (IH _ _ _ Hloop) as [k ->]. exists (S k).
      rewrite processAction_eq. cbn [updates errors calls take].
      rewrite <- !List.app_assoc, <- !omap_app. reflexivity.
Qed.

End LoopErrors.

(** X23. Every message the loop adds to the errors belongs to one of the
    references it was given and reads
    "Failed to update <repository>: Error: Failed to get latest version for
    <repository>: Error: " followed by the message of the failed request. *)
Theorem updateLoop_error_messages `{SemverLib} `{Network}
    (isCancellationRequested : nat -> bool) (i : nat)
    (actions : list WorkflowAction.t) (st st' : Extension.LoopState) (msg : string) :
  Extension.updateLoop isCancellationRequested i actions st = inl st' \/
  Extension.updateLoop isCancellationRequested i actions st = inr st' ->
  msg ∈ Extension.errors st' ->
  msg ∈ Extension.errors st \/
  exists action error,
    action ∈ actions /\
    msg = "Failed to update " +:+ WorkflowAction.repository action +:+
          ": Error: Failed to get latest version for " +:+
          WorkflowAction.repository action +:+ ": Error: " +:+ error.
Proof.
  intros Hloop Hmsg.
  apply updateLoop_result in Hloop as [k ->]. cbn [Extension.errors] in Hmsg.
  apply elem_of_app in Hmsg as [Hmsg|Hmsg]; [now left|right].
  apply list_elem_of_omap in Hmsg as [action [Hin Herr]].
  assert (Hin' : action ∈ actions).
  { rewrite <- (take_drop k actions). apply elem_of_app. now left. }
  unfold Predicates.errorFor in Herr.
  destruct (GitHubApiService.getLatestActionVersion _) as [r|e] eqn:E; [discriminate|].
  injection Herr as <-.
  apply getLatestActionVersion_Throw in E as [error ->].
  exists action, error. split; [exact Hin'|].
  reflexivity.
Qed.

Lemma updateLoop_error_messages_witness :
  "Failed to update acme/gone: Error: Failed to get latest version for acme/gone: Error: GitHub API error: 404 - Not Found"
    ∈ Extension.errors Example.emptyLoop \/
  exists action error,
    action ∈ [Example.goneAction; Example.taggedCheckout; Example.pinnedCheckout] /\
    "Failed to update acme/gone: Error: Failed to get latest version for acme/gone: Error: GitHub API error: 404 - Not Found"
    = "Failed to update " +:+ WorkflowAction.repository action +:+
      ": Error: Failed to get latest version for " +:+
      WorkflowAction.repository action +:+ ": Error: " +:+ error.
Proof.
  apply (@updateLoop_error_messages Semver_lib Example.github Example.neverCancelled 0
           [Example.goneAction; Example.taggedCheckout; Example.pinnedCheckout]
           Example.emptyLoop
           (Extension.mkLoop
              [UpdateResult.mk 7 "      - uses: actions/checkout@v4"
                 ("      - uses: actions/checkout@" +:+ Example.checkoutCommit +:+ " # tag v4.2.2")
                 "actions/checkout" "v4" "v4.2.2" Example.checkoutCommit]
              ["Failed to update acme/gone: Error: Failed to get latest version for acme/gone: Error: GitHub API error: 404 - Not Found"]
              [Example.goneAction; Example.taggedCheckout; Example.pinnedCheckout])).
  - right. vm_compute. reflexivity.
  - left.
Defined.

(* ===================================================================== *)
(** * The version of a comment and the decision                           *)
(* ===================================================================== *)

Section VersionGrammar.
Import Js Predicates WorkflowParser.
#[local] Arguments String.append : simpl nomatch.

#[local] Ltac norm_app := repeat (progress (rewrite ?app_assoc; cbn [String.append])).

Lemma span_all_app (p : ascii -> bool) (a b : string) :
  all p a = true -> span p (a +:+ b) = (a +:+ (span p b).1, (span p b).2).
Proof.
  induction a as [|c a IH]; intros Ha.
  - simpl. now destruct (span p b).
  - simpl in Ha. apply andb_true_iff in Ha as [Hc Ha].
    change (String c a +:+ b) with (String c (a +:+ b)). cbn [span].
    rewrite Hc, (IH Ha). reflexivity.
Qed.

Lemma plus_all_app (p : ascii -> bool) (a b : string) :
  a <> EmptyString -> all p a = true ->
  plus p (a +:+ b) = Some (a +:+ (span p b).1, (span p b).2).
Proof.
  intros Hne Ha. unfold plus. rewrite (span_all_app p a b Ha).
  destruct a as [|c a]; [contradiction|]. reflexivity.
Qed.

Lemma app_inv_head (a b b' : string) : a +:+ b = a +:+ b' -> b = b'.
Proof. induction a as [|c a IH]; simpl; [auto|]. intros [= E]. auto. Qed.

Lemma app_eq_length (a b a' b' : string) :
  a +:+ b = a' +:+ b' -> String.length a = String.length a' -> a = a'.
Proof.
  revert a'. induction a as [|c a IH]; intros [|c' a']; simpl; try discriminate.
  - reflexivity.
  - intros [= -> E] [= Hl]. f_equal. now apply IH.
Qed.

Lemma app_eq_shorter (a b a' b' : string) :
  a +:+ b = a' +:+ b' -> String.length a' < String.length a ->
  exists c m, a = a' +:+ String c m /\ b' = String c (m +:+ b).
Proof.
  revert a. induction a' as [|x a' IH]; intros a E Hl.
  - destruct a as [|c m]; [simpl in Hl; lia|]. exists c, m. simpl in E. now split.
  - destruct a as [|y a]; [simpl in Hl; lia|]. simpl in E, Hl.
    injection E as -> E. destruct (IH a E) as [c [m [-> ->]]]; [lia|].
    now exists c, m.
Qed.

Lemma charEqCI_v (c : ascii) :
  charEqCI "v" c = true -> c = "v"%char \/ c = "V"%char.
Proof.
  destruct c as [[] [] [] [] [] [] [] []]; vm_compute; intros E;
    try discriminate; auto.
Qed.

Lemma dot_hyphen_not_word (c : ascii) :
  c = "."%char \/ c = "-"%char -> isWordChar c = false /\ isDigit c = false.
Proof. intros [->| ->]; split; reflexivity. Qed.

Lemma dot_hyphen_eqb (c : ascii) :
  c = "."%char \/ c = "-"%char <-> (Ascii.eqb c "." || Ascii.eqb c "-")%bool = true.
Proof.
  rewrite orb_true_iff, !Ascii.eqb_eq. reflexivity.
Qed.

Lemma blank_startsNoVersion (c : ascii) :
  isWhiteSpace c = true -> startsNoVersion c = true.
Proof. destruct c as [[] [] [] [] [] [] [] []]; vm_compute; congruence. Qed.

Lemma tag_startsNoVersion (m : string) :
  eqCI "tag" m = true -> all startsNoVersion m = true.
Proof.
  intros E.
  destruct m as [|a m]; simpl in E; [discriminate|].
  apply andb_true_iff in E as [Ea E].
  destruct m as [|b m]; simpl in E; [discriminate|].
  apply andb_true_iff in E as [Eb E].
  destruct m as [|c m]; simpl in E; [discriminate|].
  apply andb_true_iff in E as [Ec E].
  destruct m as [|d m]; simpl in E; [clear E|discriminate].
  assert (Ha : startsNoVersion a = true).
  { revert Ea. clear. destruct a as [[] [] [] [] [] [] [] []]; vm_compute; congruence. }
  assert (Hb : startsNoVersion b = true).
  { revert Eb. clear. destruct b as [[] [] [] [] [] [] [] []]; vm_compute; congruence. }
  assert (Hc : startsNoVersion c = true).
  { revert Ec. clear. destruct c as [[] [] [] [] [] [] [] []]; vm_compute; congruence. }
  simpl. now rewrite Ha, Hb, Hc.
Qed.

(** versionSuffix against the grammar of the suffix pieces. *)
Lemma versionSuffix_sound (n : nat) :
  forall s, exists post,
    s = versionSuffix n s +:+ post /\ isSuffixes (versionSuffix n s).
Proof.
  induction n as [|n IH]; intros s.
  - exists s. split; [reflexivity|constructor].
  - destruct s as [|c t]; [exists EmptyString; split; [reflexivity|constructor]|].
    cbn [versionSuffix].
    destruct (Ascii.eqb c "." || Ascii.eqb c "-")%bool eqn:Ec;
      [|exists (String c t); split; [reflexivity|constructor]].
    destruct (plus isWordChar t) as [[w t']|] eqn:Ew;
      [|exists (String c t); split; [reflexivity|constructor]].
    apply plus_Some in Ew as [Hne [-> [Hw _]]].
    destruct (IH t') as [post [Et Hs]].
    exists post. split.
    + change (String c w +:+ versionSuffix n t')
        with (String c (w +:+ versionSuffix n t')).
      change (String c (w +:+ versionSuffix n t') +:+ post)
        with (String c ((w +:+ versionSuffix n t') +:+ post)).
      rewrite app_assoc, <- Et. reflexivity.
    + apply (suffixes_cons c w _ (proj2 (dot_hyphen_eqb c) Ec) Hne Hw Hs).
Qed.

Lemma versionSuffix_complete (sfx : string) :
  isSuffixes sfx ->
  forall (post : string) (n : nat),
    String.length (sfx +:+ post) <= n ->
    exists more, versionSuffix n (sfx +:+ post) = sfx +:+ more.
Proof.
  induction 1 as [|c w rest Hc Hne Hw Hrest IH]; intros post n Hn.
  - exists (versionSuffix n post). reflexivity.
  - change (String c (w +:+ rest) +:+ post) with (String c ((w +:+ rest) +:+ post)) in *.
    destruct n as [|n]; [simpl in Hn; lia|].
    cbn [versionSuffix]. rewrite (proj1 (dot_hyphen_eqb c) Hc).
    rewrite app_assoc, (plus_all_app isWordChar w (rest +:+ post) Hne Hw).
    assert (Hlen : String.length (rest +:+ post) <= n).
    { simpl in Hn. rewrite app_assoc, length_append in Hn. lia. }
    assert (Hcase : rest = EmptyString \/
                    span isWordChar (rest +:+ post) = (EmptyString, rest +:+ post)).
    { destruct Hrest as [|c' w' rest' Hc' _ _ _]; [now left|right].
      change (String c' (w' +:+ rest') +:+ post)
        with (String c' ((w' +:+ rest') +:+ post)).
      cbn [span]. now rewrite (proj1 (dot_hyphen_not_word c' Hc')). }
    destruct Hcase as [->|Hspan].
    + change (EmptyString +:+ post) with post.
      exists ((span isWordChar post).1 +:+ versionSuffix n (span isWordChar post).2).
      change (String c ?x +:+ ?y) with (String c (x +:+ y)).
      now rewrite app_empty_r, app_assoc.
    + rewrite Hspan. cbn [fst snd].
      destruct (IH post n Hlen) as [more ->].
      exists more.
      change (String c ?x +:+ ?y) with (String c (x +:+ y)).
      now rewrite app_empty_r, !app_assoc.
Qed.

(** versionCore against the grammar. *)
Lemma versionCore_sound (s g : string) :
  versionCore s = Some g ->
  exists post d1 d2 d3 sfx,
    s = g +:+ post /\
    g = d1 +:+ "." +:+ d2 +:+ "." +:+ d3 +:+ sfx /\
    isDigits d1 /\ isDigits d2 /\ isDigits d3 /\ isSuffixes sfx.
Proof.
  unfold versionCore.
  destruct (plus isDigit s) as [[d1 r1]|] eqn:E1; [|discriminate]. cbn [mbind option_bind].
  destruct (stripPrefix "." r1) as [r2|] eqn:E2; [|discriminate]. cbn [mbind option_bind].
  destruct (plus isDigit r2) as [[d2 r3]|] eqn:E3; [|discriminate]. cbn [mbind option_bind].
  destruct (stripPrefix "." r3) as [r4|] eqn:E4; [|discriminate]. cbn [mbind option_bind].
  destruct (plus isDigit r4) as [[d3 r5]|] eqn:E5; [|discriminate]. cbn [mbind option_bind].
  intros Hg.
  apply plus_Some in E1 as [H1 [-> [A1 _]]].
  apply stripPrefix_Some in E2 as ->.
  apply plus_Some in E3 as [H3 [-> [A3 _]]].
  apply stripPrefix_Some in E4 as ->.
  apply plus_Some in E5 as [H5 [-> [A5 _]]].
  destruct (versionSuffix_sound (String.length r5) r5) as [post [Er Hs]].
  remember (versionSuffix (String.length r5) r5) as sfx eqn:Esfx.
  injection Hg as <-.
  exists post, d1, d2, d3, sfx. repeat split; try assumption.
  rewrite Er at 1. norm_app. reflexivity.
Qed.

Lemma versionCore_complete (d1 d2 d3 sfx post : string) :
  isDigits d1 -> isDigits d2 -> isDigits d3 -> isSuffixes sfx ->
  exists more,
    versionCore (d1 +:+ "." +:+ d2 +:+ "." +:+ d3 +:+ sfx +:+ post)
    = Some ((d1 +:+ "." +:+ d2 +:+ "." +:+ d3 +:+ sfx) +:+ more).
Proof.
  intros [H1 A1] [H2 A2] [H3 A3] Hs. unfold versionCore.
  rewrite (plus_app isDigit d1 _ H1 A1) by reflexivity. cbn [mbind option_bind].
  rewrite (stripPrefix_app "." _). cbn [mbind option_bind].
  rewrite (plus_app isDigit d2 _ H2 A2) by reflexivity. cbn [mbind option_bind].
  rewrite (stripPrefix_app "." _). cbn [mbind option_bind].
  destruct Hs as [|c w rest Hc Hne Hw Hrest].
  - change (EmptyString +:+ post) with post.
    rewrite (plus_all_app isDigit d3 post H3 A3). cbn [mbind option_bind].
    exists ((span isDigit post).1 +:+
            versionSuffix (String.length (span isDigit post).2) (span isDigit post).2).
    f_equal. now rewrite app_empty_r, !app_assoc.
  - rewrite (plus_app isDigit d3 _ H3 A3)
      by (simpl; exact (proj2 (dot_hyphen_not_word c Hc))).
    cbn [mbind option_bind].
    destruct (versionSuffix_complete _ (suffixes_cons c w rest Hc Hne Hw Hrest) post
                (String.length (String c (w +:+ rest) +:+ post)) (le_n _))
      as [more ->].
    exists more. f_equal. now rewrite !app_assoc.
Qed.

Lemma versionGroup_digits (d rest : string) :
  isDigits d -> versionGroup (d +:+ rest) = versionCore (d +:+ rest).
Proof.
  intros [Hne Hd]. destruct d as [|c d]; [contradiction|].
  simpl in Hd. apply andb_true_iff in Hd as [Hc _].
  change (String c d +:+ rest) with (String c (d +:+ rest)).
  unfold versionGroup. now rewrite (isDigit_not_v c Hc).
Qed.

(** versionGroup against the grammar: what it returns is a version text at
    the start, and every version text at the start is a prefix of it. *)
Lemma versionGroup_sound (s g : string) :
  versionGroup s = Some g -> exists post, s = g +:+ post /\ VersionText g.
Proof.
  destruct s as [|c t]; [discriminate|]. unfold versionGroup.
  assert (Hcore : versionCore (String c t) = Some g ->
                  exists post, String c t = g +:+ post /\ VersionText g).
  { intros Hg.
    apply versionCore_sound in Hg as [post [d1 [d2 [d3 [sfx [E [Eg [D1 [D2 [D3 Hs]]]]]]]]]].
    exists post. split; [exact E|].
    exists EmptyString, d1, d2, d3, sfx.
    split; [exact Eg|]. split; [now left|].
    split; [exact D1|]. split; [exact D2|]. split; [exact D3|exact Hs]. }
  destruct (charEqCI "v" c) eqn:Ev; [|exact Hcore].
  destruct (versionCore t) as [v0|] eqn:Et; [|exact Hcore].
  intros [= <-].
  apply versionCore_sound in Et as [post [d1 [d2 [d3 [sfx [E [Eg [D1 [D2 [D3 Hs]]]]]]]]]].
  exists post. split; [now rewrite E at 1|].
  exists (String c EmptyString), d1, d2, d3, sfx.
  split; [now rewrite Eg|].
  split; [right; destruct (charEqCI_v c Ev) as [->| ->]; auto|].
  split; [exact D1|]. split; [exact D2|]. split; [exact D3|exact Hs].
Qed.

Lemma versionGroup_complete (g post : string) :
  VersionText g -> exists more, versionGroup (g +:+ post) = Some (g +:+ more).
Proof.
  intros [v [d1 [d2 [d3 [sfx [-> [Hv [D1 [D2 [D3 Hs]]]]]]]]]].
  destruct (versionCore_complete d1 d2 d3 sfx post D1 D2 D3 Hs) as [more Hcore].
  exists more. rewrite !app_assoc in *.
  destruct Hv as [->|[->| ->]].
  - change (EmptyString +:+ ?x) with x.
    now rewrite (versionGroup_digits d1 _ D1).
  - change ("v" +:+ ?x) with (String "v"%char x).
    unfold versionGroup. change (charEqCI "v" "v") with true. cbv iota.
    now rewrite Hcore.
  - change ("V" +:+ ?x) with (String "V"%char x).
    unfold versionGroup. change (charEqCI "v" "V") with true. cbv iota.
    now rewrite Hcore.
Qed.

Lemma versionGroup_VersionAt (s g : string) : versionGroup s = Some g -> VersionAt s g.
Proof.
  intros Hg. destruct (versionGroup_sound s g Hg) as [post [E Ht]].
  split; [now exists post|]. split; [exact Ht|].
  intros g' post' E' Ht'.
  destruct (versionGroup_complete g' post' Ht') as [more Hg'].
  rewrite <- E', Hg in Hg'. injection Hg' as ->.
  rewrite length_append. lia.
Qed.

Lemma versionGroup_None (s : string) : versionGroup s = None -> ~ StartsVersion s.
Proof.
  intros Hn [g [post [-> Ht]]].
  destruct (versionGroup_complete g post Ht) as [more Hg]. congruence.
Qed.

Lemma StartsVersion_head (c : ascii) (t : string) :
  StartsVersion (String c t) -> startsNoVersion c = false.
Proof.
  intros [g [post [E [v [d1 [d2 [d3 [sfx [-> [Hv [[H1 A1] _]]]]]]]]]]].
  destruct d1 as [|x d1]; [contradiction|].
  simpl in A1. apply andb_true_iff in A1 as [Hx _].
  unfold startsNoVersion.
  destruct Hv as [->|[->| ->]]; simpl in E; injection E as -> _.
  - now rewrite Hx.
  - reflexivity.
  - reflexivity.
Qed.

(** versionAt: the optional [tag] and blanks are no place where a version
    text starts. *)
Lemma versionAt_Some (s g : string) :
  versionAt s = Some g ->
  exists pre r, s = pre +:+ r /\ versionGroup r = Some g /\
                all startsNoVersion pre = true.
Proof.
  unfold versionAt.
  destruct (stripPrefixCI "tag" s) as [r0|] eqn:E0; cbn [mbind option_bind];
    [|intros Hg; now exists EmptyString, s].
  destruct (plus isWhiteSpace r0) as [[w r]|] eqn:Ew; cbn [mbind option_bind];
    [|intros Hg; now exists EmptyString, s].
  destruct (versionGroup r) as [v|] eqn:Er; [|intros Hg; now exists EmptyString, s].
  intros [= <-].
  apply stripPrefixCI_Some in E0 as [m [-> Hm]].
  apply plus_Some in Ew as [_ [-> [Hw _]]].
  exists (m +:+ w), r. split; [now rewrite app_assoc|]. split; [exact Er|].
  rewrite all_app, (tag_startsNoVersion m Hm). simpl.
  apply (all_impl isWhiteSpace); [exact blank_startsNoVersion|exact Hw].
Qed.

Lemma versionAt_None (s : string) : versionAt s = None -> versionGroup s = None.
Proof.
  unfold versionAt. destruct (_ ≫= _) as [v|]; [discriminate|auto].
Qed.

Lemma versionAt_Leftmost (s g : string) : versionAt s = Some g -> LeftmostVersion s g.
Proof.
  intros Hg. apply versionAt_Some in Hg as [pre [r [-> [Hr Hpre]]]].
  exists pre, r. split; [reflexivity|]. split; [now apply versionGroup_VersionAt|].
  intros pre' rest' E Hl.
  destruct (app_eq_shorter pre r pre' rest' E Hl) as [c [m [-> ->]]].
  rewrite all_app in Hpre. apply andb_true_iff in Hpre as [_ Hc].
  simpl in Hc. apply andb_true_iff in Hc as [Hc _].
  intros Hs. apply StartsVersion_head in Hs. congruence.
Qed.

Lemma LeftmostVersion_cons (c : ascii) (rest g : string) :
  versionGroup (String c rest) = None ->
  LeftmostVersion rest g -> LeftmostVersion (String c rest) g.
Proof.
  intros Hn [pre [r [-> [Hat Hleft]]]].
  exists (String c pre), r. split; [reflexivity|]. split; [exact Hat|].
  intros [|x pre'] rest' E Hl.
  - simpl in E. subst rest'. now apply versionGroup_None.
  - simpl in E, Hl. injection E as <- E. apply (Hleft pre' rest' E). lia.
Qed.

Lemma versionMatch_Some (comment g : string) :
  versionMatch comment = Some g -> LeftmostVersion comment g.
Proof.
  induction comment as [|c comment IH]; cbn [versionMatch].
  - destruct (versionAt EmptyString) as [v|] eqn:E; [|discriminate].
    intros [= <-]. now apply versionAt_Leftmost.
  - destruct (versionAt (String c comment)) as [v|] eqn:E.
    + intros [= <-]. now apply versionAt_Leftmost.
    + intros Hm. apply LeftmostVersion_cons; [now apply versionAt_None|now apply IH].
Qed.

Lemma versionMatch_None (comment : string) :
  versionMatch comment = None -> NoVersion comment.
Proof.
  induction comment as [|c comment IH]; cbn [versionMatch].
  - destruct (versionAt EmptyString) as [v|] eqn:E; [discriminate|]. intros _.
    intros [|x pre] r Er; [|discriminate]. simpl in Er. subst r.
    now apply versionGroup_None, versionAt_None.
  - destruct (versionAt (String c comment)) as [v|] eqn:E; [discriminate|].
    intros Hm [|x pre] r Er.
    + simpl in Er. subst r. now apply versionGroup_None, versionAt_None.
    + simpl in Er. injection Er as <- Er. exact (IH Hm pre r Er).
Qed.

(** The version of a comment is one, and extractVersionFromComment returns
    it. *)
Lemma VersionAt_unique (s g g' : string) : VersionAt s g -> VersionAt s g' -> g = g'.
Proof.
  intros [[post E] [Ht Hmax]] [[post' E'] [Ht' Hmax']].
  apply (app_eq_length g post g' post'); [congruence|].
  pose proof (Hmax g' post' E' Ht'). pose proof (Hmax' g post E Ht). lia.
Qed.

Lemma VersionAt_Starts (s g : string) : VersionAt s g -> StartsVersion s.
Proof. intros [[post E] [Ht _]]. now exists g, post. Qed.

Lemma LeftmostVersion_unique (comment g g' : string) :
  LeftmostVersion comment g -> LeftmostVersion comment g' -> g = g'.
Proof.
  intros [pre [r [E [Hat Hleft]]]] [pre' [r' [E' [Hat' Hleft']]]].
  assert (Hl : String.length pre = String.length pre').
  { destruct (Nat.lt_trichotomy (String.length pre) (String.length pre'))
      as [Hlt|[Heq|Hgt]]; [|exact Heq|].
    - destruct (Hleft' pre r E Hlt). exact (VersionAt_Starts _ _ Hat).
    - destruct (Hleft pre' r' E' Hgt). exact (VersionAt_Starts _ _ Hat'). }
  assert (Hpre : pre = pre') by (apply (app_eq_length pre r pre' r'); congruence).
  subst pre'. assert (r = r') by (apply (app_inv_head pre); congruence). subst r'.
  exact (VersionAt_unique r g g' Hat Hat').
Qed.

Lemma VersionOf_unique (comment v v' : string) :
  VersionOf comment v -> VersionOf comment v' -> v = v'.
Proof.
  intros [Hl|[Hn ->]] [Hl'|[Hn' ->]].
  - exact (LeftmostVersion_unique comment v v' Hl Hl').
  - destruct Hl as [pre [r [E [Hat _]]]].
    destruct (Hn' pre r E). exact (VersionAt_Starts _ _ Hat).
  - destruct Hl' as [pre [r [E [Hat _]]]].
    destruct (Hn pre r E). exact (VersionAt_Starts _ _ Hat).
  - reflexivity.
Qed.

Lemma extractVersion_VersionOf (comment : string) :
  VersionOf comment (extractVersionFromComment comment).
Proof.
  unfold extractVersionFromComment.
  destruct (versionMatch comment) as [g|] eqn:E.
  - left. now apply versionMatch_Some.
  - right. split; [now apply versionMatch_None|reflexivity].
Qed.

Lemma VersionOf_extractVersion (comment v : string) :
  VersionOf comment v <-> extractVersionFromComment comment = v.
Proof.
  split.
  - intros Hv. exact (VersionOf_unique comment _ _ (extractVersion_VersionOf comment) Hv).
  - intros <-. apply extractVersion_VersionOf.
Qed.

(** areVersionsEqual against the rule. *)
Lemma normalizeVersion_SameVersion (a b : string) :
  normalizeVersion a = normalizeVersion b <-> SameVersion a b.
Proof.
  unfold SameVersion.
  destruct a as [|x a], b as [|y b].
  - split; [now left|reflexivity].
  - split.
    + intros E. exfalso. revert E. unfold normalizeVersion.
      destruct (startsWith "v" (String y b)); discriminate.
    + intros [[_ E]|[E _]]; [discriminate|congruence].
  - split.
    + intros E. exfalso. revert E. unfold normalizeVersion.
      destruct (startsWith "v" (String x a)); discriminate.
    + intros [[E _]|[_ [E _]]]; [discriminate|congruence].
  - change (normalizeVersion (String x a)) with (withLeadingV (String x a)).
    change (normalizeVersion (String y b)) with (withLeadingV (String y b)).
    split.
    + intros E. right. repeat split; [discriminate|discriminate|exact E].
    + intros [[E _]|[_ [_ E]]]; [discriminate|exact E].
Qed.

End VersionGrammar.

(** C1 (amended). For every reference that is not skip-marked and every
    resolved outcome, a rewrite decision is produced if and only if it is not
    the case that the current ref is exactly 40 characters long and either the
    version of the trailing comment and the resolved display version are both
    empty, or both are not empty and are equal once each has a leading [v], or
    the current ref is the resolved commit hash.  The version of the comment
    is its leftmost version text, or the empty string when it has none.  The
    decision is appended to the updates of the loop and carries the rewritten
    line; a ref whose length is not 40 always gets one. *)
Theorem rewrite_decision_iff `{SemverLib} `{Network}
    (action : WorkflowAction.t) (updateInfo : ActionUpdate.t) (st : Extension.LoopState) :
  WorkflowAction.hasSkipPinning action = false ->
  GitHubApiService.getLatestActionVersion (WorkflowAction.repository action)
    = Return (Some updateInfo) ->
  (exists currentVersion,
     Predicates.VersionOf (WorkflowAction.currentComment action) currentVersion) /\
  forall currentVersion,
    Predicates.VersionOf (WorkflowAction.currentComment action) currentVersion ->
    ((exists decision,
        Extension.updates (Extension.processAction st action)
          = Extension.updates st ++ [decision] /\
        UpdateResult.line decision = WorkflowAction.line action /\
        UpdateResult.updated decision
          = WorkflowParser.updateActionLine action
              (ActionUpdate.latestVersion updateInfo)
              (ActionUpdate.latestCommit updateInfo))
     <-> ~ (String.length (WorkflowAction.currentRef action) = 40 /\
            (Predicates.SameVersion currentVersion (ActionUpdate.latestVersion updateInfo) \/
             WorkflowAction.currentRef action = ActionUpdate.latestCommit updateInfo))) /\
    (String.length (WorkflowAction.currentRef action) = 40 /\
     (Predicates.SameVersion currentVersion (ActionUpdate.latestVersion updateInfo) \/
      WorkflowAction.currentRef action = ActionUpdate.latestCommit updateInfo) ->
     Extension.updates (Extension.processAction st action) = Extension.updates st) /\
    (String.length (WorkflowAction.currentRef action) <> 40 ->
     exists decision,
       Extension.updates (Extension.processAction st action)
         = Extension.updates st ++ [decision]).
Proof.
  intros _ Hres.
  split; [eexists; apply extractVersion_VersionOf|].
  intros currentVersion Hcur. apply VersionOf_extractVersion in Hcur.
  assert (Hrule : Predicates.UpToDate action updateInfo <->
            String.length (WorkflowAction.currentRef action) = 40 /\
            (Predicates.SameVersion currentVersion (ActionUpdate.latestVersion updateInfo) \/
             WorkflowAction.currentRef action = ActionUpdate.latestCommit updateInfo)).
  { unfold Predicates.UpToDate. rewrite normalizeVersion_SameVersion, Hcur. reflexivity. }
  rewrite <- Hrule.
  pose proof (decideUpdate_None action updateInfo) as Hnone.
  unfold Extension.processAction. rewrite Hres.
  destruct (Extension.decideUpdate action updateInfo) as [d|] eqn:Ed; simpl.
  - assert (Hnot : ~ Predicates.UpToDate action updateInfo).
    { intros Hup. apply Hnone in Hup. discriminate. }
    assert (Hd : UpdateResult.line d = WorkflowAction.line action /\
                 UpdateResult.updated d
                 = WorkflowParser.updateActionLine action
                     (ActionUpdate.latestVersion updateInfo)
                     (ActionUpdate.latestCommit updateInfo)).
    { unfold Extension.decideUpdate in Ed.
      destruct (_ && _); [discriminate|]. injection Ed as <-. split; reflexivity. }
    split; [|split].
    + split; [intros _; exact Hnot|]. intros _. exists d. tauto.
    + intros Hup. contradiction.
    + intros _. exists d. reflexivity.
  - assert (Hup := proj1 Hnone eq_refl).
    split; [|split].
    + split; [|tauto].
      intros [d [Hd _]]. apply (f_equal length) in Hd.
      rewrite length_app in Hd. simpl in Hd. lia.
    + intros _. reflexivity.
    + intros Hlen. destruct Hup as [Hup _]. contradiction.
Qed.

(** On the small GitHub: [actions/checkout@v4] gets a decision; the reference
    pinned to another commit with the comment [tag 4.2.2] gets none, its
    version being the resolved [v4.2.2] without the [v]. *)
Lemma rewrite_decision_iff_witness :
  (exists decision,
     Extension.updates
       (@Extension.processAction Semver_lib Example.github Example.emptyLoop
          Example.taggedCheckout)
       = [decision]) /\
  Extension.updates
    (@Extension.processAction Semver_lib Example.github Example.emptyLoop
       Example.pinnedBare) = [].
Proof.
  split.
  - destruct (@rewrite_decision_iff Semver_lib Example.github
                Example.taggedCheckout Example.checkoutUpdate Example.emptyLoop)
      as [[v Hv] Hall]; [vm_compute; reflexivity..|].
    destruct (Hall v Hv) as [_ [_ Hlen]]. apply Hlen. vm_compute. lia.
  - destruct (@rewrite_decision_iff Semver_lib Example.github
                Example.pinnedBare Example.checkoutUpdate Example.emptyLoop)
      as [_ Hall]; [vm_compute; reflexivity..|].
    assert (Hv : Predicates.VersionOf (WorkflowAction.currentComment Example.pinnedBare)
                   "4.2.2").
    { apply VersionOf_extractVersion. vm_compute. reflexivity. }
    destruct (Hall "4.2.2" Hv) as [_ [Hno _]]. apply Hno.
    split; [vm_compute; reflexivity|]. left. right.
    split; [discriminate|]. split; [discriminate|]. vm_compute. reflexivity.
Defined.

(** C1, as stated, fails: the reference is pinned to a commit of 40
    characters and has no comment, so the version of its comment is empty;
    the resolved display version is [v]; with a leading [v] ensured on both
    the two are equal, and yet the reference gets a decision. *)
Lemma rewrite_decision_counterexample :
  WorkflowParser.parseLine 3 ("      - uses: acme/v@" +:+ Example.trunkCommit)
    = Some Example.pinnedPlain /\
  WorkflowAction.hasSkipPinning Example.pinnedPlain = false /\
  @GitHubApiService.getLatestActionVersion Semver_lib Example.oddNames "acme/v"
    = Return (Some (ActionUpdate.mk "" "v" Example.toolsCommit "acme/v")) /\
  String.length (WorkflowAction.currentRef Example.pinnedPlain) = 40 /\
  Predicates.VersionOf (WorkflowAction.currentComment Example.pinnedPlain) "" /\
  Predicates.withLeadingV "" = Predicates.withLeadingV "v" /\
  exists decision,
    Extension.updates
      (@Extension.processAction Semver_lib Example.oddNames Example.emptyLoop
         Example.pinnedPlain)
      = [decision] /\
    UpdateResult.updated decision
      = "      - uses: acme/v@" +:+ Example.toolsCommit +:+ " # tag v".
Proof.
  split; [vm_compute; reflexivity|].
  split; [reflexivity|].
  split; [vm_compute; reflexivity|].
  split; [vm_compute; reflexivity|].
  split; [apply VersionOf_extractVersion; vm_compute; reflexivity|].
  split; [vm_compute; reflexivity|].
  eexists. split; vm_compute; reflexivity.
Qed.

(* ===================================================================== *)
(** * The default branch                                                  *)
(* ===================================================================== *)

(** X13. getDefaultBranch never returns the empty name: it returns the
    [default_branch] of the answer exactly when that is not empty, "main"
    exactly when the answer has none or an empty one, and it throws exactly
    when the request does, with its message. *)
Theorem getDefaultBranch_not_empty `{Network} (repository : string) :
  (forall branch,
     GitHubApiService.getDefaultBranch repository = Return branch <->
     (branch <> EmptyString /\
      requestRepo ("https://api.github.com/repos/" +:+ repository)
        = Return (Some branch)) \/
     (branch = "main" /\
      (requestRepo ("https://api.github.com/repos/" +:+ repository) = Return None \/
       requestRepo ("https://api.github.com/repos/" +:+ repository)
         = Return (Some EmptyString)))) /\
  (forall branch,
     GitHubApiService.getDefaultBranch repository = Return branch ->
     branch <> EmptyString) /\
  (forall e,
     GitHubApiService.getDefaultBranch repository = Throw e <->
     requestRepo ("https://api.github.com/repos/" +:+ repository) = Throw e).
Proof.
  unfold GitHubApiService.getDefaultBranch.
  destruct (requestRepo _) as [[[|c s]|]|e]; simpl.
  - split; [|split].
    + intros branch. split.
      * intros [= <-]. right. split; [reflexivity|now right].
      * intros [[Hne [= <-]]|[-> _]]; [contradiction|reflexivity].
    + intros branch [= <-]. discriminate.
    + intros e. split; discriminate.
  - split; [|split].
    + intros branch. split.
      * intros [= <-]. left. split; [discriminate|reflexivity].
      * intros [[_ [= <-]]|[_ [E|E]]]; [reflexivity|discriminate..].
    + intros branch [= <-]. discriminate.
    + intros e. split; discriminate.
  - split; [|split].
    + intros branch. split.
      * intros [= <-]. right. split; [reflexivity|now left].
      * intros [[_ E]|[-> _]]; [discriminate|reflexivity].
    + intros branch [= <-]. discriminate.
    + intros e. split; discriminate.
  - split; [|split].
    + intros branch. split; [discriminate|].
      intros [[_ E]|[_ [E|E]]]; discriminate.
    + intros branch. discriminate.
    + intros e'. split; intros [= <-]; reflexivity.
Qed.

(** A named default branch, an answer without one, an empty one, and a
    failed request. *)
Example getDefaultBranch_examples :
  @GitHubApiService.getDefaultBranch Example.github "acme/empty" = Return "trunk" /\
  @GitHubApiService.getDefaultBranch Example.tagsOnly "acme/unnamed" = Return "main" /\
  @GitHubApiService.getDefaultBranch Example.oddNames "acme/blank" = Return "main" /\
  @GitHubApiService.getDefaultBranch Example.github "acme/gone"
    = Throw "GitHub API error: 404 - Not Found".
Proof. vm_compute. repeat split. Qed.

(* ===================================================================== *)
(** * The text the command writes                                         *)
(* ===================================================================== *)

Section WrittenText.
Import Js Predicates WorkflowParser Extension.
Context `{SemverLib} `{Network}.
#[local] Arguments String.append : simpl nomatch.

Lemma sepFree_updateActionLine (i : nat) (line : string) (action : WorkflowAction.t)
    (newVersion newCommit : string) :
  parseLine i line = Some action ->
  sepFree LF line = true ->
  WorkflowAction.hasSkipPinning action = false ->
  sepFree LF newCommit = true ->
  sepFree LF newVersion = true ->
  sepFree LF (updateActionLine action newVersion newCommit) = true.
Proof.
  intros Hp Hline Hskip Hcommit Hver.
  apply parseLine_Some in Hp as [comment [[marker [ws [trailer [E _]]]] _]].
  unfold sepFree in *. rewrite E, !all_app in Hline.
  apply andb_true_iff in Hline as [Hind Hline].
  apply andb_true_iff in Hline as [_ Hline].
  apply andb_true_iff in Hline as [_ Hline].
  apply andb_true_iff in Hline as [_ Hline].
  apply andb_true_iff in Hline as [Hpath _].
  rewrite (updateActionLine_line action _ _ Hskip), !all_app, Hind, Hpath, Hcommit, Hver.
  now destruct (includes "- uses:" (WorkflowAction.original action)).
Qed.

Lemma written_updates_sepFree (content : string) :
  (forall action updateInfo,
     action ∈ actionsToUpdate (parseWorkflow content) ->
     GitHubApiService.getLatestActionVersion (WorkflowAction.repository action)
       = Return (Some updateInfo) ->
     sepFree LF (ActionUpdate.latestCommit updateInfo) = true /\
     sepFree LF (ActionUpdate.latestVersion updateInfo) = true) ->
  Forall (fun u => sepFree LF (UpdateResult.updated u) = true)
    (omap decisionFor (actionsToUpdate (parseWorkflow content))).
Proof.
  intros Hfree. apply Forall_forall. intros u Hu.
  apply list_elem_of_omap in Hu as [a [Ha Hdec]].
  apply decisionFor_Some in Hdec as [info [Hres [_ ->]]].
  destruct (Hfree a info Ha Hres) as [Hc Hv].
  apply elem_of_actionsToUpdate in Ha as [Ha Hskip].
  apply elem_of_parseLines_iff in Ha as [j [line [Hj Hp]]].
  apply (sepFree_updateActionLine (0 + j) line a _ _ Hp); try assumption.
  exact (Forall_lookup_1 _ _ _ _ (split_sepFree LF content) Hj).
Qed.

End WrittenText.

(** X16. When updateWorkflowCommand comes to edit the document, every
    reference without the skip flag has been resolved; and when no resolved
    commit or version holds a line feed, the text written has as many lines as
    the old one, the line of each reference with a decision is its rewritten
    line, and every other line is the old one. *)
Theorem updateWorkflow_Updated `{SemverLib} `{Network}
    (isCancellationRequested : nat -> bool) (content updatedContent : string)
    (st : Extension.LoopState) :
  Extension.updateWorkflow isCancellationRequested content
    = Extension.Updated updatedContent st ->
  (forall action updateInfo,
     action ∈ Extension.actionsToUpdate (WorkflowParser.parseWorkflow content) ->
     GitHubApiService.getLatestActionVersion (WorkflowAction.repository action)
       = Return (Some updateInfo) ->
     Predicates.sepFree WorkflowParser.LF (ActionUpdate.latestCommit updateInfo) = true /\
     Predicates.sepFree WorkflowParser.LF (ActionUpdate.latestVersion updateInfo) = true) ->
  Extension.calls st = Extension.actionsToUpdate (WorkflowParser.parseWorkflow content) /\
  Extension.updates st = omap Predicates.decisionFor (Extension.calls st) /\
  Extension.errors st = omap Predicates.errorFor (Extension.calls st) /\
  length (Predicates.linesOf updatedContent) = length (Predicates.linesOf content) /\
  (forall action u,
     action ∈ Extension.calls st -> Predicates.decisionFor action = Some u ->
     Predicates.linesOf updatedContent !! WorkflowAction.line action
       = Some (UpdateResult.updated u)) /\
  (forall i,
     (forall action,
        action ∈ Extension.calls st -> WorkflowAction.line action = i ->
        Predicates.decisionFor action = None) ->
     Predicates.linesOf updatedContent !! i = Predicates.linesOf content !! i).
Proof.
  intros Hrun Hfree.
  pose proof (written_updates_sepFree content Hfree) as Hsep.
  pose proof (parseLines_sorted (Js.split WorkflowParser.LF content) 0) as Hsorted.
  fold (WorkflowParser.parseWorkflow content) in Hsorted.
  revert Hrun. unfold Extension.updateWorkflow.
  destruct (WorkflowParser.parseWorkflow content) as [|a0 actions] eqn:Eparse;
    [discriminate|].
  destruct (Extension.actionsToUpdate (a0 :: actions)) as [|b0 todo] eqn:Etodo;
    [discriminate|].
  destruct (Extension.updateLoop isCancellationRequested 0 (b0 :: todo)
              (Extension.mkLoop [] [] [])) as [st0|st0] eqn:Eloop; [discriminate|].
  apply updateLoop_inr in Eloop. cbn [Extension.updates Extension.errors Extension.calls] in Eloop.
  rewrite !app_nil_l in Eloop.
  destruct (Extension.updates st0) as [|u0 us] eqn:Eups; [discriminate|].
  intros [= <- <-]. rewrite <- Eups. clear Eups u0 us. subst st0.
  cbn [Extension.updates Extension.errors Extension.calls].
  split; [reflexivity|]. split; [reflexivity|]. split; [reflexivity|].
  rewrite (linesOf_applyUpdates content _ Hsep).
  fold Predicates.byLineDescending.
  split; [apply fold_applyUpdate_length|].
  assert (Hnd : NoDup (UpdateResult.line <$> omap Predicates.decisionFor (b0 :: todo))).
  { eapply sublist_NoDup; [|apply decision_lines_sublist].
    rewrite <- Etodo.
    eapply sublist_NoDup;
      [|apply fmap_sublist; unfold Extension.actionsToUpdate; apply sublist_filter].
    now apply sorted_lines_NoDup. }
  split.
  - intros action u Hin Hdec. rewrite patched_lines_lookup.
    rewrite <- (decisionFor_line action u Hdec).
    rewrite (lastFor_NoDup _ u Hnd) by (apply list_elem_of_omap; now exists action).
    rewrite (decisionFor_line action u Hdec).
    rewrite <- Etodo in Hin.
    apply elem_of_actionsToUpdate in Hin as [Hin _]. rewrite <- Eparse in Hin.
    apply parsed_line_lt in Hin. unfold Predicates.linesOf.
    destruct (decide _) as [_|Hn]; [reflexivity|contradiction].
  - intros i Hnone. rewrite patched_lines_lookup, lastFor_None; [reflexivity|].
    intros u Hu Ei. apply list_elem_of_omap in Hu as [action [Hin Hdec]].
    rewrite (Hnone action Hin) in Hdec; [discriminate|].
    rewrite <- Ei. symmetry. exact (decisionFor_line action u Hdec).
Qed.

(** A workflow with a trigger and a job: six lines before and after, the
    sixth rewritten. *)
Lemma updateWorkflow_Updated_witness :
  Extension.calls Example.ciState
    = Extension.actionsToUpdate (WorkflowParser.parseWorkflow Example.ciWorkflow) /\
  Extension.updates Example.ciState
    = omap (@Predicates.decisionFor Semver_lib Example.github)
        (Extension.calls Example.ciState) /\
  Extension.errors Example.ciState
    = omap (@Predicates.errorFor Semver_lib Example.github)
        (Extension.calls Example.ciState) /\
  length (Predicates.linesOf Example.ciWorkflowPatched)
    = length (Predicates.linesOf Example.ciWorkflow) /\
  (forall action u,
     action ∈ Extension.calls Example.ciState ->
     @Predicates.decisionFor Semver_lib Example.github action = Some u ->
     Predicates.linesOf Example.ciWorkflowPatched !! WorkflowAction.line action
       = Some (UpdateResult.updated u)) /\
  (forall i,
     (forall action,
        action ∈ Extension.calls Example.ciState ->
        WorkflowAction.line action = i ->
        @Predicates.decisionFor Semver_lib Example.github action = None) ->
     Predicates.linesOf Example.ciWorkflowPatched !! i
       = Predicates.linesOf Example.ciWorkflow !! i).
Proof.
  apply (@updateWorkflow_Updated Semver_lib Example.github Example.neverCancelled
           Example.ciWorkflow Example.ciWorkflowPatched Example.ciState).
  - vm_compute. reflexivity.
  - intros action updateInfo Hin Hres.
    assert (E : Extension.actionsToUpdate (WorkflowParser.parseWorkflow Example.ciWorkflow)
                = [Example.ciToolsAction]) by (vm_compute; reflexivity).
    rewrite E in Hin. apply list_elem_of_singleton in Hin. subst action.
    assert (E' : @GitHubApiService.getLatestActionVersion Semver_lib Example.github
                   (WorkflowAction.repository Example.ciToolsAction)
                 = Return (Some (ActionUpdate.mk "" "v2.0.0" Example.toolsCommit "acme/tools")))
      by (vm_compute; reflexivity).
    rewrite E' in Hres. injection Hres as <-.
    split; vm_compute; reflexivity.
Defined.

(** Without the condition the count is not kept: a tag whose name holds a
    line feed makes three lines of two. *)
Example updateWorkflow_line_feed :
  match @Extension.updateWorkflow Semver_lib Example.lineFeedTag Example.neverCancelled
          ("steps:" +:+ String WorkflowParser.LF "  - uses: acme/odd@v1") with
  | Extension.Updated updatedContent _ =>
      length (Predicates.linesOf updatedContent) = 3
  | _ => False
  end.
Proof. vm_compute. reflexivity. Qed.
